(** * desctopo: topology frames, network membership and device connection

    A shallow embedding of [src/desctopo.py] and the properties of its
    topology construction engine.

    Conventions of the embedding.

    - Python objects live in a store: every frame object is a reference
      ([ref]) into one of three heaps (interfaces, devices, networks), so
      that two names for one object see each other's updates and [==] on
      frames is identity of references.
    - A Python function that mutates objects or module-level variables is a
      computation in the monad [M]: it takes the state and gives back a
      result, which is a value or a raised exception, with the state as the
      function left it (a raised exception does not roll anything back).
    - Module-level counters and dictionaries are fields of the state.  A
      function reads them as globals.  A function that assigns a name
      without declaring it [global] has that name as a local: the
      statements [numberOfX = numberOfX + 1] and [numberOfX += 1] of the
      constructors read a local that was never assigned and raise
      [UnboundLocalError]; the source declares none of the counters
      [global], so the module-level counters are never changed.
    - NetDevice is an abstract base class whose five methods are abstract.
      RouterFrameClass defines the five; EndptFrameClass, SwitchFrameClass
      and NetworkFrameClass leave DevAddIntrfc undefined, and creating an
      instance of one of these raises [TypeError].
    - The statements that follow a statement that always raises are never
      reached; they are kept in the definitions as they are written.  An
      object is allocated in the store where the function, as written,
      has given it its attribute values.
    - The store a function is run on is an input.  It can hold frames of
      every class, also of those the module's own constructors fail to
      create; on such a frame a method that its class does not define is
      the one it inherits.
    - A local variable read on a path that never assigned it raises
      [UnboundLocalError], a call with too few arguments [TypeError], a
      missing dictionary key [KeyError].
    - Reading an attribute through a reference outside the store gives
      [DanglingRef]; no Python run reaches it. *)

From stdpp Require Import gmap strings list pretty.

Open Scope string_scope.
Open Scope list_scope.

(** ** Exceptions and results *)

Inductive Exn : Type :=
| KeyError (key : string)
| UnboundLocalError (var : string)
| TypeError (what : string)
| DanglingRef.

Inductive Result (A : Type) : Type :=
| Ok (a : A)
| Raise (e : Exn).
Arguments Ok {A} a.
Arguments Raise {A} e.

(** ** Frames *)

(** Object identity. *)
Definition ref := nat.

(** IntrfcFrameClass: [Cable] is [None] or an interface object; [Carry] and
    [Wireless] are lists of interface objects. *)
Module Intrfc.
Record t : Type := mk {
  Name : string;
  Groups : list string;
  DevType : string;
  MediaType : string;
  Device : string;
  Cable : option ref;
  Carry : list ref;
  Wireless : list ref;
  Faces : string
}.
Definition set_Cable (c : option ref) (f : t) : t :=
  mk (Name f) (Groups f) (DevType f) (MediaType f) (Device f) c
     (Carry f) (Wireless f) (Faces f).
Definition set_Carry (c : list ref) (f : t) : t :=
  mk (Name f) (Groups f) (DevType f) (MediaType f) (Device f) (Cable f)
     c (Wireless f) (Faces f).
Definition set_Groups (g : list string) (f : t) : t :=
  mk (Name f) g (DevType f) (MediaType f) (Device f) (Cable f)
     (Carry f) (Wireless f) (Faces f).
Definition set_owner (devType device : string) (f : t) : t :=
  mk (Name f) (Groups f) devType (MediaType f) device (Cable f)
     (Carry f) (Wireless f) (Faces f).
End Intrfc.

(** The three device classes that implement NetDevice and own interfaces.
    [Cores] is an attribute of endpoints only. *)
Inductive DevClass : Type := EndptFrameClass | RouterFrameClass | SwitchFrameClass.

Module Dev.
Record t : Type := mk {
  Class : DevClass;
  Name : string;
  Groups : list string;
  Model : string;
  Cores : Z;
  Interfaces : list ref
}.
Definition set_Interfaces (l : list ref) (d : t) : t :=
  mk (Class d) (Name d) (Groups d) (Model d) (Cores d) l.
Definition set_Groups (g : list string) (d : t) : t :=
  mk (Class d) (Name d) g (Model d) (Cores d) (Interfaces d).
End Dev.

(** NetworkFrameClass. *)
Module Net.
Record t : Type := mk {
  Name : string;
  Groups : list string;
  NetScale : string;
  MediaType : string;
  Routers : list ref;
  Endpts : list ref;
  Switches : list ref
}.
Definition set_Groups (g : list string) (n : t) : t :=
  mk (Name n) g (NetScale n) (MediaType n) (Routers n) (Endpts n) (Switches n).
Definition set_Routers (l : list ref) (n : t) : t :=
  mk (Name n) (Groups n) (NetScale n) (MediaType n) l (Endpts n) (Switches n).
Definition set_Endpts (l : list ref) (n : t) : t :=
  mk (Name n) (Groups n) (NetScale n) (MediaType n) (Routers n) l (Switches n).
Definition set_Switches (l : list ref) (n : t) : t :=
  mk (Name n) (Groups n) (NetScale n) (MediaType n) (Routers n) (Endpts n) l.
End Net.

(** The dictionary held by a TopoCfgFrameClass. *)
Module Topo.
Record t : Type := mk {
  Name : string;
  Endpts : list ref;
  Networks : list ref;
  Routers : list ref;
  Switches : list ref
}.
Definition set_Endpts (l : list ref) (f : t) : t :=
  mk (Name f) l (Networks f) (Routers f) (Switches f).
Definition set_Routers (l : list ref) (f : t) : t :=
  mk (Name f) (Endpts f) (Networks f) l (Switches f).
Definition set_Switches (l : list ref) (f : t) : t :=
  mk (Name f) (Endpts f) (Networks f) (Routers f) l.
End Topo.

(** A value stored in a descriptor list: a string or a frame object. *)
Inductive PyVal : Type :=
| PStr (s : string)
| PObj (r : ref).

(** IntrfcDescClass. *)
Module IntrfcDesc.
Record t : Type := mk {
  Name : string;
  Groups : list string;
  DevType : string;
  MediaType : string;
  Device : string;
  Cable : option string;
  Carry : list PyVal;
  Wireless : list PyVal;
  Faces : string
}.
End IntrfcDesc.

(** ** The state: module-level variables and the store *)

Record State : Type := mkState {
  numberOfIntrfcs : nat;
  numberOfRouters : nat;
  numberOfSwitches : nat;
  numberOfEndpts : nat;
  objTypeByName : gmap string string;
  devByName : gmap string ref;
  netByName : gmap string ref;
  rtrByName : gmap string ref;
  devConnected : gmap string (list string);
  intrfcHeap : gmap ref Intrfc.t;
  devHeap : gmap ref Dev.t;
  netHeap : gmap ref Net.t;
  nextRef : ref
}.

Definition initState : State :=
  mkState 0 0 0 0 ∅ ∅ ∅ ∅ ∅ ∅ ∅ ∅ 0.

(** Assignment to one module-level variable or heap. *)
Definition set_objTypeByName (v : gmap string string) (s : State) : State :=
  mkState (numberOfIntrfcs s) (numberOfRouters s) (numberOfSwitches s)
    (numberOfEndpts s) v (devByName s) (netByName s) (rtrByName s)
    (devConnected s) (intrfcHeap s) (devHeap s) (netHeap s) (nextRef s).

Definition set_devByName (v : gmap string ref) (s : State) : State :=
  mkState (numberOfIntrfcs s) (numberOfRouters s) (numberOfSwitches s)
    (numberOfEndpts s) (objTypeByName s) v (netByName s) (rtrByName s)
    (devConnected s) (intrfcHeap s) (devHeap s) (netHeap s) (nextRef s).

Definition set_netByName (v : gmap string ref) (s : State) : State :=
  mkState (numberOfIntrfcs s) (numberOfRouters s) (numberOfSwitches s)
    (numberOfEndpts s) (objTypeByName s) (devByName s) v (rtrByName s)
    (devConnected s) (intrfcHeap s) (devHeap s) (netHeap s) (nextRef s).

Definition set_rtrByName (v : gmap string ref) (s : State) : State :=
  mkState (numberOfIntrfcs s) (numberOfRouters s) (numberOfSwitches s)
    (numberOfEndpts s) (objTypeByName s) (devByName s) (netByName s) v
    (devConnected s) (intrfcHeap s) (devHeap s) (netHeap s) (nextRef s).

Definition set_devConnected (v : gmap string (list string)) (s : State) : State :=
  mkState (numberOfIntrfcs s) (numberOfRouters s) (numberOfSwitches s)
    (numberOfEndpts s) (objTypeByName s) (devByName s) (netByName s)
    (rtrByName s) v (intrfcHeap s) (devHeap s) (netHeap s) (nextRef s).

Definition set_intrfcHeap (v : gmap ref Intrfc.t) (s : State) : State :=
  mkState (numberOfIntrfcs s) (numberOfRouters s) (numberOfSwitches s)
    (numberOfEndpts s) (objTypeByName s) (devByName s) (netByName s)
    (rtrByName s) (devConnected s) v (devHeap s) (netHeap s) (nextRef s).

Definition set_devHeap (v : gmap ref Dev.t) (s : State) : State :=
  mkState (numberOfIntrfcs s) (numberOfRouters s) (numberOfSwitches s)
    (numberOfEndpts s) (objTypeByName s) (devByName s) (netByName s)
    (rtrByName s) (devConnected s) (intrfcHeap s) v (netHeap s) (nextRef s).

Definition set_netHeap (v : gmap ref Net.t) (s : State) : State :=
  mkState (numberOfIntrfcs s) (numberOfRouters s) (numberOfSwitches s)
    (numberOfEndpts s) (objTypeByName s) (devByName s) (netByName s)
    (rtrByName s) (devConnected s) (intrfcHeap s) (devHeap s) v (nextRef s).

Definition set_nextRef (v : ref) (s : State) : State :=
  mkState (numberOfIntrfcs s) (numberOfRouters s) (numberOfSwitches s)
    (numberOfEndpts s) (objTypeByName s) (devByName s) (netByName s)
    (rtrByName s) (devConnected s) (intrfcHeap s) (devHeap s) (netHeap s) v.

(** ** The monad of stateful, fallible computations *)

Definition M (A : Type) : Type := State → Result A * State.

Definition ret {A} (a : A) : M A := fun s => (Ok a, s).
Definition raise {A} (e : Exn) : M A := fun s => (Raise e, s).
Definition bind {A B} (m : M A) (k : A → M B) : M B :=
  fun s => match m s with
           | (Ok a, s') => k a s'
           | (Raise e, s') => (Raise e, s')
           end.
Definition gets {A} (f : State → A) : M A := fun s => (Ok (f s), s).
Definition modify (f : State → State) : M unit := fun s => (Ok tt, f s).

Notation "'let*' x ':=' m 'in' k" := (bind m (fun x => k))
  (at level 10, x name, m at level 100, k at level 200).
Notation "m ';;' k" := (bind m (fun _ => k))
  (at level 100, k at level 200, right associativity).

(** [for x in l: body], where the body carries the loop's variables and
    ends the iteration normally or by [break]. *)
Inductive Ctl (B : Type) : Type :=
| Next (b : B)
| Break (b : B).
Arguments Next {B} b.
Arguments Break {B} b.

Fixpoint for_in {A B} (l : list A) (body : A → B → M (Ctl B)) (b : B) : M B :=
  match l with
  | [] => ret b
  | x :: l' =>
      let* c := body x b in
      match c with
      | Next b' => for_in l' body b'
      | Break b' => ret b'
      end
  end.

(** ** Access to the store *)

Definition getIntrfc (r : ref) : M Intrfc.t :=
  fun s => match intrfcHeap s !! r with
           | Some f => (Ok f, s)
           | None => (Raise DanglingRef, s)
           end.

Definition getDev (r : ref) : M Dev.t :=
  fun s => match devHeap s !! r with
           | Some d => (Ok d, s)
           | None => (Raise DanglingRef, s)
           end.

Definition getNet (r : ref) : M Net.t :=
  fun s => match netHeap s !! r with
           | Some n => (Ok n, s)
           | None => (Raise DanglingRef, s)
           end.

(** In-place update of one object. *)
Definition updIntrfc (r : ref) (g : Intrfc.t → Intrfc.t) : M unit :=
  let* f := getIntrfc r in
  modify (fun s => set_intrfcHeap (<[r := g f]> (intrfcHeap s)) s).

Definition updDev (r : ref) (g : Dev.t → Dev.t) : M unit :=
  let* d := getDev r in
  modify (fun s => set_devHeap (<[r := g d]> (devHeap s)) s).

Definition updNet (r : ref) (g : Net.t → Net.t) : M unit :=
  let* n := getNet r in
  modify (fun s => set_netHeap (<[r := g n]> (netHeap s)) s).

(** Allocation of a new object. *)
Definition newIntrfc (f : Intrfc.t) : M ref :=
  fun s => (Ok (nextRef s),
            set_nextRef (S (nextRef s))
              (set_intrfcHeap (<[nextRef s := f]> (intrfcHeap s)) s)).

Definition newDev (d : Dev.t) : M ref :=
  fun s => (Ok (nextRef s),
            set_nextRef (S (nextRef s))
              (set_devHeap (<[nextRef s := d]> (devHeap s)) s)).

Definition newNet (n : Net.t) : M ref :=
  fun s => (Ok (nextRef s),
            set_nextRef (S (nextRef s))
              (set_netHeap (<[nextRef s := n]> (netHeap s)) s)).

(** [d[key]] on a module-level dictionary. *)
Definition subscript (d : State → gmap string ref) (key : string) : M ref :=
  fun s => match d s !! key with
           | Some r => (Ok r, s)
           | None => (Raise (KeyError key), s)
           end.

(** [x = x + 1] or [x += 1] in a function that does not declare [x]
    global: the read of the local [x] raises. *)
Definition unboundLocal (var : string) : M unit :=
  raise (UnboundLocalError var).

(** [C()] for a class [C] that inherits the abstract DevAddIntrfc of
    NetDevice without defining it. *)
Definition abstractInstance (cls : string) : M unit :=
  raise (TypeError ("Can't instantiate abstract class " +:+ cls +:+
                    " with abstract method DevAddIntrfc")).

(** ** Helper functions *)

Definition endptPresent (endptList : list ref) (endpt : ref) : M bool :=
  for_in endptList (fun endptInList returnBool =>
    let* a := getDev endptInList in
    let* b := getDev endpt in
    if decide (Dev.Name a = Dev.Name b) then ret (Next true)
    else ret (Next returnBool)) false.

Definition routerPresent (rtrList : list ref) (rtr : ref) : M bool :=
  for_in rtrList (fun rtrInList returnBool =>
    let* a := getDev rtrInList in
    let* b := getDev rtr in
    if decide (Dev.Name a = Dev.Name b) then ret (Next true)
    else ret (Next returnBool)) false.

(** [switchPresent] takes two arguments; its one call, in [IncludeDev],
    passes one, which Python refuses before the body runs. *)
Definition switchPresent (swtchList : list ref) (swtch : ref) : M bool :=
  for_in swtchList (fun swtchInList returnBool =>
    let* a := getDev swtchInList in
    let* b := getDev swtch in
    if decide (Dev.Name a = Dev.Name b) then ret (Next true)
    else ret (Next returnBool)) false.

(** The call [switchPresent(swtch)]. *)
Definition switchPresent_1 (swtch : ref) : M bool :=
  raise (TypeError "switchPresent() missing 1 required positional argument: 'swtch'").

(** ** The NetDevice interface *)

Definition DevName (dev : ref) : M string :=
  let* d := getDev dev in ret (Dev.Name d).

Definition DevID (dev : ref) : M string :=
  let* d := getDev dev in ret (Dev.Name d).

Definition DevType (dev : ref) : M string :=
  let* d := getDev dev in
  ret (match Dev.Class d with
       | EndptFrameClass => "Endpt"
       | RouterFrameClass => "Router"
       | SwitchFrameClass => "Switch"
       end).

Definition DevInterfaces (dev : ref) : M (list ref) :=
  let* d := getDev dev in ret (Dev.Interfaces d).

(** ** Interfaces *)

Definition DefaultIntrfcName (device : string) : M string :=
  let* n := gets numberOfIntrfcs in
  ret ("intrfc@" +:+ device +:+ "[." +:+ pretty n +:+ "]").

(** The scan of CarryIntrfcFrames: is an interface named [name] in the
    list. *)
Definition carryNamed (name : string) (carries : list ref) : M bool :=
  for_in carries (fun carry found =>
    let* c := getIntrfc carry in
    if decide (Intrfc.Name c = name) then ret (Break true)
    else ret (Next found)) false.

(** CarryIntrfcFrames: each interface is put in the other's [Carry] unless
    one of that name is there. *)
Definition CarryIntrfcFrames (intrfc1 intrfc2 : ref) : M unit :=
  let* f1 := getIntrfc intrfc1 in
  let* f2 := getIntrfc intrfc2 in
  let* found := carryNamed (Intrfc.Name f2) (Intrfc.Carry f1) in
  (if found then ret tt
   else updIntrfc intrfc1 (fun f => Intrfc.set_Carry (Intrfc.Carry f ++ [intrfc2]) f)) ;;
  let* f2 := getIntrfc intrfc2 in
  let* f1 := getIntrfc intrfc1 in
  let* found := carryNamed (Intrfc.Name f1) (Intrfc.Carry f2) in
  if found then ret tt
  else updIntrfc intrfc2 (fun f => Intrfc.set_Carry (Intrfc.Carry f ++ [intrfc1]) f).

(** CreateIntrfc.  Its second statement, [numberOfIntrfcs += 1], reads a
    local that is not bound, so every call raises there and the frame made
    by the first statement is dropped.  What follows is as written: the
    local variables [rtr] and [net] are bound only in the branch
    [devType == "Router"]; the loop over [net.Routers] and the append are
    outside that branch. *)
Definition CreateIntrfc (device name devType mediaType faces : string) : M ref :=
  unboundLocal "numberOfIntrfcs" ;;
  let* name :=
    (if decide (String.length name = 0) then DefaultIntrfcName device
     else ret name) in
  let* intrfc :=
    newIntrfc (Intrfc.mk name [] devType mediaType device None [] [] faces) in
  let* bound :=
    (if decide (devType = "Router") then
       let* rtr := subscript devByName device in
       let* net := subscript netByName faces in
       ret (Some (rtr, net))
     else ret None) in
  match bound with
  | None => raise (UnboundLocalError "net")
  | Some (rtr, net) =>
      let* n := getNet net in
      let* duplicated :=
        for_in (Net.Routers n) (fun storedRouter duplicated =>
          let* r := getDev rtr in
          let* sr := getDev storedRouter in
          if decide (Dev.Name r = Dev.Name sr) then ret (Break true)
          else ret (Next duplicated)) false in
      (if duplicated then ret tt
       else updNet net (fun n => Net.set_Routers (Net.Routers n ++ [rtr]) n)) ;;
      ret intrfc
  end.

(** ** Devices *)

(** AddIntrfc of the three device classes: the interface is refused when
    the device holds it or one of its name; else it is stamped with the
    device's type and name and appended. *)
Definition AddIntrfc (self iff : ref) : M (option string) :=
  let* d := getDev self in
  let* ty := DevType self in
  let kind := match Dev.Class d with
              | EndptFrameClass => "endpt"
              | RouterFrameClass => "router"
              | SwitchFrameClass => "switch"
              end in
  let* returnError :=
    for_in (Dev.Interfaces d) (fun ih returnError =>
      let* same :=
        (if decide (ih = iff) then ret true
         else let* a := getIntrfc ih in
              let* b := getIntrfc iff in
              ret (bool_decide (Intrfc.Name a = Intrfc.Name b))) in
      if same then
        let* b := getIntrfc iff in
        ret (Next (Some ("attempt to re-add interface " +:+ Intrfc.Name b +:+
                         " to " +:+ kind +:+ " " +:+ Dev.Name d)))
      else ret (Next returnError)) None in
  match returnError with
  | None =>
      updIntrfc iff (Intrfc.set_owner ty (Dev.Name d)) ;;
      updDev self (fun d => Dev.set_Interfaces (Dev.Interfaces d ++ [iff]) d) ;;
      ret None
  | Some e => ret (Some e)
  end.

(** DevAddIntrfc: RouterFrameClass defines it as AddIntrfc; the endpoint and
    switch classes do not define it and inherit the body [pass] of
    NetDevice. *)
Definition DevAddIntrfc (dev iff : ref) : M (option string) :=
  let* d := getDev dev in
  match Dev.Class d with
  | RouterFrameClass => AddIntrfc dev iff
  | EndptFrameClass | SwitchFrameClass => ret None
  end.

Definition DefaultEndptName (etype : string) : M string :=
  let* n := gets numberOfEndpts in
  ret (etype +:+ "-endpt.(" +:+ pretty n +:+ ")").

Definition DefaultRouterName : M string :=
  let* n := gets numberOfRouters in
  ret ("rtr.[" +:+ pretty n +:+ "]").

Definition DefaultSwitchName (name : string) : M string :=
  let* n := gets numberOfSwitches in
  ret ("switch(" +:+ name +:+ ")." +:+ pretty n).

(** The constructors of devices, as written: the instance, the counter,
    the name (a default one for the empty string), the registration under
    the name.  CreateEndpt and CreateSwitch raise at the instance,
    CreateRouter at the counter. *)
Definition CreateEndpt (name etype model : string) (cores : Z) : M ref :=
  abstractInstance "EndptFrameClass" ;;
  unboundLocal "numberOfEndpts" ;;
  let* name :=
    (if decide (String.length name = 0) then DefaultEndptName etype
     else ret name) in
  let* epf := newDev (Dev.mk EndptFrameClass name [] model cores []) in
  modify (fun s => set_objTypeByName (<[name := "Endpt"]> (objTypeByName s)) s) ;;
  modify (fun s => set_devByName (<[name := epf]> (devByName s)) s) ;;
  ret epf.

Definition CreateRouter (name model : string) : M ref :=
  unboundLocal "numberOfRouters" ;;
  let* name :=
    (if decide (String.length name = 0) then DefaultRouterName
     else ret name) in
  let* rtr := newDev (Dev.mk RouterFrameClass name [] model 0 []) in
  modify (fun s => set_objTypeByName (<[name := "Router"]> (objTypeByName s)) s) ;;
  modify (fun s => set_devByName (<[name := rtr]> (devByName s)) s) ;;
  modify (fun s => set_rtrByName (<[name := rtr]> (rtrByName s)) s) ;;
  ret rtr.

Definition CreateSwitch (name model : string) : M ref :=
  abstractInstance "SwitchFrameClass" ;;
  unboundLocal "numberOfSwitches" ;;
  let* name :=
    (if decide (String.length name = 0) then DefaultSwitchName "switch"
     else ret name) in
  let* sf := newDev (Dev.mk SwitchFrameClass name [] model 0 []) in
  modify (fun s => set_objTypeByName (<[name := "Switch"]> (objTypeByName s)) s) ;;
  modify (fun s => set_devByName (<[name := sf]> (devByName s)) s) ;;
  ret sf.

(** ** Networks *)

(** CreateNetwork raises at the instance. *)
Definition CreateNetwork (name NetScale MediaType : string) : M ref :=
  abstractInstance "NetworkFrameClass" ;;
  let* nf := newNet (Net.mk name [] NetScale MediaType [] [] []) in
  modify (fun s => set_objTypeByName (<[name := "Network"]> (objTypeByName s)) s) ;;
  modify (fun s => set_netByName (<[name := nf]> (netByName s)) s) ;;
  ret nf.

Definition FacedBy (self dev : ref) : M bool :=
  let* intrfcs := DevInterfaces dev in
  let* n := getNet self in
  for_in intrfcs (fun intrfc returnBool =>
    let* f := getIntrfc intrfc in
    if decide (Intrfc.Faces f = Net.Name n) then ret (Next true)
    else ret (Next returnBool)) false.

(** NetworkFrameClass.AddGroup: the append is under [groupName in Groups]. *)
Definition Net_AddGroup (groupName : string) (n : Net.t) : Net.t :=
  if decide (groupName ∈ Net.Groups n)
  then Net.set_Groups (Net.Groups n ++ [groupName]) n
  else n.

Definition AddGroup (self : ref) (groupName : string) : M unit :=
  updNet self (Net_AddGroup groupName).

Definition MediaMismatchError : string :=
  "including a wireless device in a wired network".

Definition IncludeDev (self dev : ref) (mediaType : string) (chkIntrfc : bool)
  : M (option string) :=
  let* devName := DevName dev in
  let* devType := DevType dev in
  let* n := getNet self in
  let returnError :=
    if decide (mediaType = "wireless" ∧ ¬ Net.MediaType n = "wireless")
    then Some MediaMismatchError else None in
  match returnError with
  | Some e => ret (Some e)
  | None =>
      let* faced := (if chkIntrfc then FacedBy self dev else ret true) in
      let* intrfc :=
        (if chkIntrfc && negb faced then
           let* dn := DevName dev in
           let* intrfcName := DefaultIntrfcName dn in
           let* i := CreateIntrfc devName intrfcName devType mediaType (Net.Name n) in
           ret (Some i)
         else ret None) in
      let attach :=
        match intrfc with
        | Some i => updDev dev (fun d => Dev.set_Interfaces (Dev.Interfaces d ++ [i]) d)
        | None => ret tt
        end in
      (if decide (devType = "Endpt") then
         attach ;;
         let* n := getNet self in
         let* present := endptPresent (Net.Endpts n) dev in
         if present then ret tt
         else updNet self (fun n => Net.set_Endpts (Net.Endpts n ++ [dev]) n)
       else if decide (devType = "Router") then
         attach ;;
         let* n := getNet self in
         let* present := routerPresent (Net.Routers n) dev in
         if present then ret tt
         else updNet self (fun n => Net.set_Routers (Net.Routers n ++ [dev]) n)
       else if decide (devType = "Switch") then
         attach ;;
         let* present := switchPresent_1 dev in
         if present then ret tt
         else updNet self (fun n => Net.set_Switches (Net.Switches n ++ [dev]) n)
       else ret tt) ;;
      ret None
  end.

Definition PrecedenceViolationError (kind devName netName : string) : string :=
  "attempting to add " +:+ kind +:+ " " +:+ devName +:+ " to network " +:+ netName
  +:+ " without prior association of an interface".

Definition AddRouter (self rtrf : ref) : M (option string) :=
  let* n := getNet self in
  let* found :=
    for_in (Net.Routers n) (fun rtr found =>
      let* a := getDev rtr in
      let* b := getDev rtrf in
      if decide (Dev.Name a = Dev.Name b) then ret (Break true)
      else ret (Next found)) false in
  if found then ret None
  else
    let* faced := FacedBy self rtrf in
    if negb faced then
      let* b := getDev rtrf in
      ret (Some (PrecedenceViolationError "router" (Dev.Name b) (Net.Name n)))
    else
      updNet self (fun n => Net.set_Routers (Net.Routers n ++ [rtrf]) n) ;;
      ret None.

(** AddSwitch: the loop variable has the parameter's name [swtch], so the
    loop compares each stored switch with itself and leaves [swtch] bound
    to the last one visited. *)
Definition AddSwitch (self swtch : ref) : M (option string) :=
  let* n := getNet self in
  let* loop :=
    for_in (Net.Switches n) (fun swtch' (st : bool * ref) =>
      let* a := getDev swtch' in
      let* b := getDev swtch' in
      if decide (Dev.Name a = Dev.Name b) then ret (Break (true, swtch'))
      else ret (Next (st.1, swtch'))) (false, swtch) in
  let found := loop.1 in
  let swtch := loop.2 in
  if found then ret None
  else
    let* faced := FacedBy self swtch in
    if negb faced then
      let* b := getDev swtch in
      ret (Some (PrecedenceViolationError "switch" (Dev.Name b) (Net.Name n)))
    else
      updNet self (fun n => Net.set_Switches (Net.Switches n ++ [swtch]) n) ;;
      ret None.

(** ** Connecting devices *)

Definition isConnected (id1 id2 : string) : M bool :=
  gets (fun s =>
    match devConnected s !! id1 with
    | None => false
    | Some peers => bool_decide (id2 ∈ peers)
    end).

Definition appendPeer (id peer : string) (s : State) : State :=
  set_devConnected
    (<[id := default [] (devConnected s !! id) ++ [peer]]> (devConnected s)) s.

Definition markConnected (id1 id2 : string) : M unit :=
  let* connected := isConnected id1 id2 in
  if connected then ret tt
  else
    modify (appendPeer id1 id2) ;;
    modify (appendPeer id2 id1).

(** carryContained: is [intrfc1], or an interface of its name, in the
    [Carry] list of [intrfc2]. *)
Definition carryContained (intrfc1 intrfc2 : ref) : M bool :=
  let* f2 := getIntrfc intrfc2 in
  for_in (Intrfc.Carry f2) (fun intrfc returnBool =>
    let* same :=
      (if decide (intrfc = intrfc1) then ret true
       else let* a := getIntrfc intrfc in
            let* b := getIntrfc intrfc1 in
            ret (bool_decide (Intrfc.Name a = Intrfc.Name b))) in
    if same then ret (Break true) else ret (Next returnBool)) false.

(** The interfaces of a list that face [faces] and are not wireless. *)
Definition facing (faces : string) (l : list ref) : M (list ref) :=
  for_in l (fun intrfc acc =>
    let* f := getIntrfc intrfc in
    if decide (Intrfc.Faces f = faces ∧ ¬ Intrfc.MediaType f = "wireless")
    then ret (Next (acc ++ [intrfc]))
    else ret (Next acc)) [].

(** The first interface of a pool that faces [faces] and has no cable. *)
Definition firstFree (faces : string) (pool : list ref) : M (option ref) :=
  for_in pool (fun intrfc free =>
    let* f := getIntrfc intrfc in
    if decide (Intrfc.Faces f = faces ∧ Intrfc.Cable f = None)
    then ret (Break (Some intrfc))
    else ret (Next free)) None.

(** The search of the cable mode; the result tells whether a pair was
    cabled, in which case ConnectDevs returns. *)
Definition cableSearch (intrfcs1 intrfcs2 : list ref) : M bool :=
  for_in intrfcs1 (fun intrfc1 _ =>
    let* returned :=
      for_in intrfcs2 (fun intrfc2 _ =>
        let* f1 := getIntrfc intrfc1 in
        if decide (Intrfc.Cable f1 ≠ None ∧ Intrfc.Cable f1 ≠ Some intrfc2)
        then ret (Next false)
        else
          let* f2 := getIntrfc intrfc2 in
          if decide (Intrfc.Cable f2 = Some intrfc1 ∨ Intrfc.Cable f2 = None)
          then
            updIntrfc intrfc1 (Intrfc.set_Cable (Some intrfc2)) ;;
            updIntrfc intrfc2 (Intrfc.set_Cable (Some intrfc1)) ;;
            ret (Break true)
          else ret (Next false)) false in
    if returned then ret (Break true) else ret (Next false)) false.

(** The search of the carry mode. *)
Definition carrySearch (intrfcs1 intrfcs2 : list ref) : M bool :=
  for_in intrfcs1 (fun intrfc1 _ =>
    let* returned :=
      for_in intrfcs2 (fun intrfc2 _ =>
        let* c12 := carryContained intrfc1 intrfc2 in
        let* n21 := (if c12 then carryContained intrfc2 intrfc1 else ret true) in
        if c12 && negb n21 then
          updIntrfc intrfc2
            (fun f => Intrfc.set_Carry (Intrfc.Carry f ++ [intrfc1]) f) ;;
          ret (Break true)
        else
          let* c21 := carryContained intrfc2 intrfc1 in
          let* n12 := (if c21 then carryContained intrfc1 intrfc2 else ret true) in
          if c21 && negb n12 then
            updIntrfc intrfc1
              (fun f => Intrfc.set_Carry (Intrfc.Carry f ++ [intrfc2]) f) ;;
            ret (Break true)
          else ret (Next false)) false in
    if returned then ret (Break true) else ret (Next false)) false.

(** A free interface of the device in the pool, or a new one. *)
Definition freeIntrfc (dev : ref) (faces : string) (pool : list ref) : M ref :=
  let* free := firstFree faces pool in
  match free with
  | Some i => ret i
  | None =>
      let* dn := DevName dev in
      let* intrfcName := DefaultIntrfcName dn in
      let* dn := DevName dev in
      let* dt := DevType dev in
      let* i := CreateIntrfc dn intrfcName dt "wired" faces in
      DevAddIntrfc dev i ;;
      ret i
  end.

Definition ConnectDevs (dev1 dev2 : ref) (cable : bool) (faces : string) : M unit :=
  let* id1 := DevID dev1 in
  let* id2 := DevID dev2 in
  let* connected := isConnected id1 id2 in
  if connected then ret tt
  else
    let* id1 := DevID dev1 in
    let* id2 := DevID dev2 in
    markConnected id1 id2 ;;
    let* net := subscript netByName faces in
    IncludeDev net dev1 "wired" true ;;
    IncludeDev net dev2 "wired" true ;;
    let* l2 := DevInterfaces dev2 in
    let* intrfcs2 := facing faces l2 in
    let* l1 := DevInterfaces dev1 in
    let* intrfcs1 := facing faces l1 in
    let* returned :=
      (if cable then cableSearch intrfcs1 intrfcs2
       else carrySearch intrfcs1 intrfcs2) in
    if returned then ret tt
    else
      let* free1 := freeIntrfc dev1 faces intrfcs1 in
      let* free2 := freeIntrfc dev2 faces intrfcs2 in
      if cable then
        updIntrfc free1 (Intrfc.set_Cable (Some free2)) ;;
        updIntrfc free2 (Intrfc.set_Cable (Some free1))
      else
        updIntrfc free1 (fun f => Intrfc.set_Carry (Intrfc.Carry f ++ [free2]) f) ;;
        updIntrfc free2 (fun f => Intrfc.set_Carry (Intrfc.Carry f ++ [free1]) f).

(** ** Topology frames *)

(** The scan shared by addEndpt, addRouter and addSwitch: is [dev], or a
    device named [inputName], among the stored ones. *)
Definition storedAlready (stored : list ref) (dev : ref) (inputName : string)
  : M bool :=
  for_in stored (fun storedDev _ =>
    let* same :=
      (if decide (storedDev = dev) then ret true
       else let* a := getDev storedDev in
            ret (bool_decide (Dev.Name a = inputName))) in
    if same then ret (Break true) else ret (Next false)) false.

Definition addEndpt (self : Topo.t) (endpt : ref) : M Topo.t :=
  let* d := getDev endpt in
  let* present := storedAlready (Topo.Endpts self) endpt (Dev.Name d) in
  if present then ret self
  else ret (Topo.set_Endpts (Topo.Endpts self ++ [endpt]) self).

Definition addRouter (self : Topo.t) (rtr : ref) : M Topo.t :=
  let* d := getDev rtr in
  let* present := storedAlready (Topo.Routers self) rtr (Dev.Name d) in
  if present then ret self
  else ret (Topo.set_Routers (Topo.Routers self ++ [rtr]) self).

Definition addSwitch (self : Topo.t) (swtch : ref) : M Topo.t :=
  let* d := getDev swtch in
  let* present := storedAlready (Topo.Switches self) swtch (Dev.Name d) in
  if present then ret self
  else ret (Topo.set_Switches (Topo.Switches self ++ [swtch]) self).

Definition EmptyTopologyError : string :=
  "no networks given in TopoCfgFrame in Consolidate call".

(** Consolidate returns the error message, or [None], with the topology
    frame as it leaves it. *)
Definition Consolidate (self : Topo.t) : M (option string * Topo.t) :=
  if decide (length (Topo.Networks self) = 0) then
    ret (Some EmptyTopologyError, self)
  else
    let self := Topo.set_Endpts [] self in
    let self := Topo.set_Routers [] self in
    let self := Topo.set_Switches [] self in
    let* self :=
      for_in (Topo.Networks self) (fun network self =>
        let* n := getNet network in
        let* self :=
          for_in (Net.Routers n) (fun rtr self =>
            let* self := addRouter self rtr in ret (Next self)) self in
        let* self :=
          for_in (Net.Endpts n) (fun endpt self =>
            let* self := addEndpt self endpt in ret (Next self)) self in
        let* self :=
          for_in (Net.Switches n) (fun swtch self =>
            let* self := addSwitch self swtch in ret (Next self)) self in
        ret (Next self)) self in
    ret (None, self).

(** ** Descriptors *)

(** IntrfcFrameClass.Transform: [Cable] becomes the peer's name; the loops
    append the elements of [Carry] and [Wireless] as they are. *)
Definition Transform (self : ref) : M IntrfcDesc.t :=
  let* f := getIntrfc self in
  let* cable :=
    match Intrfc.Cable f with
    | None => ret None
    | Some peer => let* p := getIntrfc peer in ret (Some (Intrfc.Name p))
    end in
  ret (IntrfcDesc.mk (Intrfc.Name f) (Intrfc.Groups f) (Intrfc.DevType f)
         (Intrfc.MediaType f) (Intrfc.Device f) cable
         (PObj <$> Intrfc.Carry f) (PObj <$> Intrfc.Wireless f)
         (Intrfc.Faces f)).

(** ** Concrete stores

    The stores the code is run on are inputs, written down object by
    object: no call of the module's constructors returns (see CreateEndpt,
    CreateRouter, CreateSwitch, CreateNetwork and CreateIntrfc), so none of
    these stores is the outcome of such calls.  [endpt], [router],
    [switch], [network] and [intrfc] are not functions of the source: each
    puts one frame in the store with the attribute values given and, for a
    device or a network, the registry entries its constructor is written
    to make.  The methods of the source do the rest.  References are given
    in allocation order from 0. *)
Module Scenario.

Definition endpt (name model : string) (cores : Z) : M ref :=
  let* epf := newDev (Dev.mk EndptFrameClass name [] model cores []) in
  modify (fun s => set_objTypeByName (<[name := "Endpt"]> (objTypeByName s)) s) ;;
  modify (fun s => set_devByName (<[name := epf]> (devByName s)) s) ;;
  ret epf.

Definition router (name model : string) : M ref :=
  let* rtr := newDev (Dev.mk RouterFrameClass name [] model 0 []) in
  modify (fun s => set_objTypeByName (<[name := "Router"]> (objTypeByName s)) s) ;;
  modify (fun s => set_devByName (<[name := rtr]> (devByName s)) s) ;;
  modify (fun s => set_rtrByName (<[name := rtr]> (rtrByName s)) s) ;;
  ret rtr.

Definition switch (name model : string) : M ref :=
  let* sf := newDev (Dev.mk SwitchFrameClass name [] model 0 []) in
  modify (fun s => set_objTypeByName (<[name := "Switch"]> (objTypeByName s)) s) ;;
  modify (fun s => set_devByName (<[name := sf]> (devByName s)) s) ;;
  ret sf.

Definition network (name NetScale MediaType : string) : M ref :=
  let* nf := newNet (Net.mk name [] NetScale MediaType [] [] []) in
  modify (fun s => set_objTypeByName (<[name := "Network"]> (objTypeByName s)) s) ;;
  modify (fun s => set_netByName (<[name := nf]> (netByName s)) s) ;;
  ret nf.

Definition intrfc (device name devType mediaType faces : string) : M ref :=
  newIntrfc (Intrfc.mk name [] devType mediaType device None [] [] faces).

(** Endpoints h1 (0) and h2 (1) and the wired network netA (2). *)
Definition endpoints : State :=
  ((endpt "h1" "x86" 4 ;;
    endpt "h2" "x86" 4 ;;
    network "netA" "LAN" "wired" ;;
    ret tt) initState).2.

(** Routers r1 (0) and r2 (1) and the wired network netA (2). *)
Definition routers : State :=
  ((router "r1" "cisco" ;;
    router "r2" "cisco" ;;
    network "netA" "LAN" "wired" ;;
    ret tt) initState).2.

(** On [routers], each router holds an interface facing netA (3 on r1, 4
    on r2) and is among the Routers of netA. *)
Definition facingRouters : State :=
  ((let* i1 := intrfc "r1" "r1.eth0" "Router" "wired" "netA" in
    AddIntrfc 0 i1 ;;
    let* i2 := intrfc "r2" "r2.eth0" "Router" "wired" "netA" in
    AddIntrfc 1 i2 ;;
    AddRouter 2 0 ;;
    AddRouter 2 1) routers).2.

(** On [facingRouters], interface 3 carries interface 4, one way. *)
Definition halfCarried : State :=
  (updIntrfc 3 (Intrfc.set_Carry [4]) facingRouters).2.

(** Switches s1 (0), s2 (1) and s3 (2), a router r (3) and the wired
    network netA (4), which holds r; s1 and s2 hold an interface facing
    netA (5 and 6), s3 holds none; s1 has been added to netA by
    AddSwitch. *)
Definition switches : State :=
  ((let* s1 := switch "s1" "hp" in
    let* s2 := switch "s2" "hp" in
    let* s3 := switch "s3" "hp" in
    let* r := router "r" "cisco" in
    let* net := network "netA" "LAN" "wired" in
    IncludeDev net r "wired" false ;;
    let* i1 := intrfc "r" "p1" "Router" "wired" "netA" in
    AddIntrfc s1 i1 ;;
    let* i2 := intrfc "r" "p2" "Router" "wired" "netA" in
    AddIntrfc s2 i2 ;;
    AddSwitch net s1) initState).2.

(** Routers r1 (0) and r2 (1), networks netA (2) and netB (3); r1 and r2
    are admitted into netA and r1 into netB. *)
Definition twoNetworks : State :=
  ((let* r1 := router "r1" "cisco" in
    let* r2 := router "r2" "cisco" in
    let* netA := network "netA" "LAN" "wired" in
    let* netB := network "netB" "WAN" "wired" in
    IncludeDev netA r1 "wired" false ;;
    IncludeDev netA r2 "wired" false ;;
    IncludeDev netB r1 "wired" false) initState).2.

End Scenario.

(** ** Vocabulary of the properties *)

(** [keeps s s']: the connectivity index and the name of every device
    object are in [s'] what they are in [s]. *)
Definition keeps (s s' : State) : Prop :=
  devConnected s' = devConnected s ∧
  ∀ r, Dev.Name <$> devHeap s' !! r = Dev.Name <$> devHeap s !! r.

(** A computation that [keeps] the state it starts from, whatever its
    outcome. *)
Definition preserves {A} (m : M A) : Prop := ∀ s, keeps s (m s).2.

(** The part of ConnectDevs that follows markConnected. *)
Definition ConnectDevs_rest (dev1 dev2 : ref) (cable : bool) (faces : string)
  : M unit :=
  let* net := subscript netByName faces in
  IncludeDev net dev1 "wired" true ;;
  IncludeDev net dev2 "wired" true ;;
  let* l2 := DevInterfaces dev2 in
  let* intrfcs2 := facing faces l2 in
  let* l1 := DevInterfaces dev1 in
  let* intrfcs1 := facing faces l1 in
  let* returned :=
    (if cable then cableSearch intrfcs1 intrfcs2
     else carrySearch intrfcs1 intrfcs2) in
  if returned then ret tt
  else
    let* free1 := freeIntrfc dev1 faces intrfcs1 in
    let* free2 := freeIntrfc dev2 faces intrfcs2 in
    if cable then
      updIntrfc free1 (Intrfc.set_Cable (Some free2)) ;;
      updIntrfc free2 (Intrfc.set_Cable (Some free1))
    else
      updIntrfc free1 (fun f => Intrfc.set_Carry (Intrfc.Carry f ++ [free2]) f) ;;
      updIntrfc free2 (fun f => Intrfc.set_Carry (Intrfc.Carry f ++ [free1]) f).

(** The connectivity index marks [id2] among the peers of [id1]. *)
Definition marked (id1 id2 : string) (s : State) : bool :=
  match devConnected s !! id1 with
  | None => false
  | Some peers => bool_decide (id2 ∈ peers)
  end.

(** A sequence of AddGroup calls on one network. *)
Definition AddGroups (self : ref) (groupNames : list string) : M unit :=
  for_in groupNames (fun g _ => AddGroup self g ;; ret (Next tt)) tt.

(** The name of a device object. *)
Definition nameOf (s : State) (r : ref) : string :=
  from_option Dev.Name "" (devHeap s !! r).

(** Union deduplicated by name: scanning [l], an object is kept unless one
    of its name was kept before it. *)
Definition addUnique (name : ref → string) (acc : list ref) (r : ref) : list ref :=
  if decide (name r ∈ name <$> acc) then acc else acc ++ [r].

(** The union deduplicated by name of [l], built from nothing. *)
Definition uniqueByName (name : ref → string) (l : list ref) : list ref :=
  foldl (addUnique name) [] l.

(** [out] is a union by name of [src]: its names are pairwise distinct, its
    objects come from [src], and every name of [src] is in it. *)
Definition unionByName (name : ref → string) (src out : list ref) : Prop :=
  NoDup (name <$> out) ∧
  (∀ r, r ∈ out → r ∈ src) ∧
  (∀ r, r ∈ src → name r ∈ name <$> out).

(** The membership lists of the topology's networks, one after the other. *)
Definition membersOf (s : State) (proj : Net.t → list ref) (nets : list ref)
  : list ref :=
  concat ((fun nr => from_option proj [] (netHeap s !! nr)) <$> nets).

(** The same for the networks of a topology frame. *)
Definition members (s : State) (proj : Net.t → list ref) (tf : Topo.t) : list ref :=
  membersOf s proj (Topo.Networks tf).

(** Every device of the list is an object of the store. *)
Definition live (s : State) (l : list ref) : Prop :=
  Forall (fun r => is_Some (devHeap s !! r)) l.

(** The network and its members are objects of the store. *)
Definition netLive (s : State) (nr : ref) : Prop :=
  ∃ n, netHeap s !! nr = Some n ∧
       live s (Net.Routers n) ∧ live s (Net.Endpts n) ∧ live s (Net.Switches n).

(** Every network of the topology and every member of these networks is an
    object of the store. *)
Definition topoLive (s : State) (tf : Topo.t) : Prop :=
  Forall (netLive s) (Topo.Networks tf).

(** addEndpt, addRouter and addSwitch are one function of the list they
    work on. *)
Definition addMember (get : Topo.t → list ref) (set : list ref → Topo.t → Topo.t)
    (self : Topo.t) (dev : ref) : M Topo.t :=
  let* d := getDev dev in
  let* present := storedAlready (get self) dev (Dev.Name d) in
  if present then ret self
  else ret (set (get self ++ [dev]) self).

(** A computation that only reads leaves the state as it is. *)
Definition readonly {A} (m : M A) : Prop := ∀ s, (m s).2 = s.

(** A list of names as a descriptor is documented to hold it: the names
    of the listed interfaces, as strings, in order. *)
Definition namesOf (s : State) (l : list ref) : list PyVal :=
  (fun r => PStr (from_option Intrfc.Name "" (intrfcHeap s !! r))) <$> l.

(** Cable mode: can [i1] and [i2] be cabled as they are, each without
    cable or already cabled to the other. *)
Definition cableFree (s : State) (i1 i2 : ref) : bool :=
  match intrfcHeap s !! i1, intrfcHeap s !! i2 with
  | Some f1, Some f2 =>
      bool_decide ((Intrfc.Cable f1 = None ∨ Intrfc.Cable f1 = Some i2) ∧
                   (Intrfc.Cable f2 = Some i1 ∨ Intrfc.Cable f2 = None))
  | _, _ => false
  end.

(** The first interface of [pool2] that [i1] can be cabled to. *)
Fixpoint firstPeer (s : State) (i1 : ref) (pool2 : list ref) : option ref :=
  match pool2 with
  | [] => None
  | i2 :: pool2' =>
      if cableFree s i1 i2 then Some i2 else firstPeer s i1 pool2'
  end.

(** The first pair of [pool1 × pool2], in the order of [pool1] then of
    [pool2], that can be cabled. *)
Fixpoint firstCablePair (s : State) (pool1 pool2 : list ref) : option (ref * ref) :=
  match pool1 with
  | [] => None
  | i1 :: pool1' =>
      match firstPeer s i1 pool2 with
      | Some i2 => Some (i1, i2)
      | None => firstCablePair s pool1' pool2
      end
  end.

(** The state after [i1.Cable = i2; i2.Cable = i1]. *)
Definition cabled (i1 i2 : ref) (s : State) : State :=
  ((updIntrfc i1 (Intrfc.set_Cable (Some i2)) ;;
    updIntrfc i2 (Intrfc.set_Cable (Some i1))) s).2.

(** Every interface of the list is an object of the store. *)
Definition liveIntrfcs (s : State) (l : list ref) : Prop :=
  Forall (fun r => is_Some (intrfcHeap s !! r)) l.

(** The name of an interface object. *)
Definition intrfcName (s : State) (r : ref) : string :=
  from_option Intrfc.Name "" (intrfcHeap s !! r).

(** [i] carries [j]: the name of [j] is among the names of the Carry list
    of [i]. *)
Definition carries (s : State) (i j : ref) : Prop :=
  ∃ f, intrfcHeap s !! i = Some f ∧
       intrfcName s j ∈ intrfcName s <$> Intrfc.Carry f.

(** Every interface carried by an interface of the store is in the store. *)
Definition carryClosed (s : State) : Prop :=
  ∀ i f, intrfcHeap s !! i = Some f → liveIntrfcs s (Intrfc.Carry f).

(** [s'] is [s] after [j] was appended to the Carry list of [i], which
    carried it already. *)
Definition carriedAgain (s s' : State) : Prop :=
  ∃ i j f, intrfcHeap s !! i = Some f ∧ is_Some (intrfcHeap s !! j) ∧
           intrfcName s j ∈ intrfcName s <$> Intrfc.Carry f ∧
           s' = set_intrfcHeap
                  (<[i := Intrfc.set_Carry (Intrfc.Carry f ++ [j]) f]> (intrfcHeap s)) s.

(** What a run of the carry search can be: no pair found and the state
    untouched, or a pair found and an interface carried again. *)
Definition searchOutcome (s : State) (run : Result bool * State) : Prop :=
  run = (Ok false, s) ∨ ∃ s', run = (Ok true, s') ∧ carriedAgain s s'.

(** ** Vocabulary of the further properties *)

(** The connectivity index is symmetric: it marks [b] for [a] exactly when
    it marks [a] for [b]. *)
Definition indexSymmetric (s : State) : Prop :=
  ∀ a b, marked a b s = marked b a s.

(** The network an interface object faces. *)
Definition facesOf (s : State) (r : ref) : string :=
  from_option Intrfc.Faces "" (intrfcHeap s !! r).

(** The value of DevType() for a device frame. *)
Definition devTypeOf (d : Dev.t) : string :=
  match Dev.Class d with
  | EndptFrameClass => "Endpt"
  | RouterFrameClass => "Router"
  | SwitchFrameClass => "Switch"
  end.

(** The message AddIntrfc returns when it refuses interface [f] on device
    [d]. *)
Definition reAddError (d : Dev.t) (f : Intrfc.t) : string :=
  "attempt to re-add interface " +:+ Intrfc.Name f +:+ " to "
  +:+ match Dev.Class d with
      | EndptFrameClass => "endpt"
      | RouterFrameClass => "router"
      | SwitchFrameClass => "switch"
      end
  +:+ " " +:+ Dev.Name d.

(** The state after a successful [AddIntrfc]: the interface [iff], which
    was [f], is stamped with the type and name of device [self], which was
    [d], and is the last of its interfaces. *)
Definition attached (self iff : ref) (d : Dev.t) (f : Intrfc.t) (s : State) : State :=
  set_devHeap
    (<[self := Dev.set_Interfaces (Dev.Interfaces d ++ [iff]) d]> (devHeap s))
    (set_intrfcHeap
       (<[iff := Intrfc.set_owner (devTypeOf d) (Dev.Name d) f]> (intrfcHeap s)) s).

(** ** Groups of devices and interfaces, specialised constructors *)

(** AddGroup of EndptFrameClass, RouterFrameClass and SwitchFrameClass: the
    append is under [groupName not in self.Groups]. *)
Definition Dev_AddGroup (groupName : string) (d : Dev.t) : Dev.t :=
  if decide (groupName ∈ Dev.Groups d) then d
  else Dev.set_Groups (Dev.Groups d ++ [groupName]) d.

Definition DevAddGroup (self : ref) (groupName : string) : M unit :=
  updDev self (Dev_AddGroup groupName).

(** IntrfcFrameClass.AddGroup, the same on an interface. *)
Definition Intrfc_AddGroup (groupName : string) (f : Intrfc.t) : Intrfc.t :=
  if decide (groupName ∈ Intrfc.Groups f) then f
  else Intrfc.set_Groups (Intrfc.Groups f ++ [groupName]) f.

Definition IntrfcAddGroup (self : ref) (groupName : string) : M unit :=
  updIntrfc self (Intrfc_AddGroup groupName).

(** [any(x == tag for x in self.Groups)]. *)
Definition hasGroup (tag : string) (self : ref) : M bool :=
  let* d := getDev self in
  ret (existsb (fun x => bool_decide (x = tag)) (Dev.Groups d)).

(** The tag methods of EndptFrameClass. *)
Definition SetEUD (self : ref) : M unit := DevAddGroup self "EUD".
Definition IsEUD (self : ref) : M bool := hasGroup "EUD" self.
Definition SetHost (self : ref) : M unit := DevAddGroup self "Host".
Definition IsHost (self : ref) : M bool := hasGroup "Host" self.
Definition SetSrvr (self : ref) : M unit := DevAddGroup self "Server".
Definition IsSrver (self : ref) : M bool := hasGroup "Server" self.

(** SetCores of EndptFrameClass. *)
Definition SetCores (self : ref) (core : Z) : M unit :=
  updDev self (fun d => Dev.mk (Dev.Class d) (Dev.Name d) (Dev.Groups d)
                               (Dev.Model d) core (Dev.Interfaces d)).

(** The constructors that tag an endpoint or a switch. *)
Definition CreateHost (name model : string) (cores : Z) : M ref :=
  let* host := CreateEndpt name "Host" model cores in
  DevAddGroup host "Host" ;;
  ret host.

(** CreateNode calls CreateEndpt with three arguments for its four
    parameters. *)
Definition CreateNode (name model : string) (cores : Z) : M ref :=
  raise (TypeError "CreateEndpt() missing 1 required positional argument: 'cores'").

Definition CreateSensor (name model : string) : M ref :=
  let* sensor := CreateEndpt name "Sensor" model 1 in
  DevAddGroup sensor "Sensor" ;;
  ret sensor.

Definition CreateSrvr (name model : string) (cores : Z) : M ref :=
  let* endpt := CreateEndpt name "Srvr" model cores in
  DevAddGroup endpt "Server" ;;
  ret endpt.

Definition CreateEUD (name model : string) (cores : Z) : M ref :=
  let* epf := CreateEndpt name "EUD" model cores in
  DevAddGroup epf "EUD" ;;
  ret epf.

Definition CreateHub (name model : string) : M ref :=
  let* hub := CreateSwitch name model in
  DevAddGroup hub "Hub" ;;
  ret hub.

Definition CreateBridge (name model : string) : M ref :=
  let* bridge := CreateSwitch name model in
  DevAddGroup bridge "Bridge" ;;
  ret bridge.

Definition CreateRepeater (name model : string) : M ref :=
  let* rptr := CreateSwitch name model in
  DevAddGroup rptr "Repeater" ;;
  ret rptr.

(** One half of CarryIntrfcFrames: [j] is appended to the Carry list of [i]
    unless the list holds an interface of its name. *)
Definition carryAdd (i j : ref) (s : State) : State :=
  match intrfcHeap s !! i with
  | Some f =>
      if bool_decide (intrfcName s j ∈ intrfcName s <$> Intrfc.Carry f) then s
      else set_intrfcHeap
             (<[i := Intrfc.set_Carry (Intrfc.Carry f ++ [j]) f]> (intrfcHeap s)) s
  | None => s
  end.

(** The network frame after IncludeDev has made sure that device [dev],
    whose frame is [d], is in the membership list of its kind: appended
    unless a device of its name is in the list. *)
Definition withMember (s : State) (dev : ref) (d : Dev.t) (n : Net.t) : Net.t :=
  match Dev.Class d with
  | EndptFrameClass =>
      if decide (Dev.Name d ∈ nameOf s <$> Net.Endpts n) then n
      else Net.set_Endpts (Net.Endpts n ++ [dev]) n
  | RouterFrameClass =>
      if decide (Dev.Name d ∈ nameOf s <$> Net.Routers n) then n
      else Net.set_Routers (Net.Routers n ++ [dev]) n
  | SwitchFrameClass => n
  end.

(** ** Device descriptions and execution timings

    The dictionaries of DevDescDictClass and DevExecListClass.  The numbers
    [freq], [cache] and [exectime] are stored and never computed with; their
    type is a parameter. *)

(** What a call of these two classes raises. *)
Inductive DictExn : Type :=
| AttributeError (object attribute : string).

Section Dictionaries.
Variable float : Type.

(** The dictionary CreateDevDesc builds. *)
Record DevDesc : Type := mkDevDesc {
  dd_devtype : list string;
  dd_manufacturer : string;
  dd_model : string;
  dd_cores : Z;
  dd_freq : float;
  dd_cache : float
}.

(** The dictionary a DevDescDictClass holds. *)
Record DevDescDict : Type := mkDevDescDict {
  ddd_Name : string;
  ddd_DescMap : gmap string DevDesc
}.

Definition CreateDevDescDict (name : string) : DevDescDict :=
  mkDevDescDict name ∅.

(** AddDevDesc: the key is the manufacturer followed by the model. *)
Definition AddDevDesc (self : DevDescDict) (dd : DevDesc) : DevDescDict :=
  let name := dd_manufacturer dd +:+ dd_model dd in
  mkDevDescDict (ddd_Name self) (<[name := dd]> (ddd_DescMap self)).

(** RecoverDevDesc: for a missing name the code calls [os.exit], which the
    module [os] does not have. *)
Definition RecoverDevDesc (self : DevDescDict) (name : string) : DevDesc + DictExn :=
  match ddd_DescMap self !! name with
  | Some dd => inl dd
  | None => inr (AttributeError "os" "exit")
  end.

(** One timing, and the dictionary a DevExecListClass holds. *)
Record DevExecDesc : Type := mkDevExecDesc {
  ded_devop : string;
  ded_model : string;
  ded_exectime : float
}.

Record DevExecList : Type := mkDevExecList {
  del_listname : string;
  del_times : gmap string (list DevExecDesc)
}.

Definition CreateDevExecList (listname : string) : DevExecList :=
  mkDevExecList listname ∅.

(** AddTiming: the list of the operation is created when missing, and the
    timing is appended to it. *)
Definition AddTiming (self : DevExecList) (devOp model : string) (execTime : float)
  : DevExecList :=
  let times :=
    match del_times self !! devOp with
    | Some _ => del_times self
    | None => <[devOp := []]> (del_times self)
    end in
  mkDevExecList (del_listname self)
    (<[devOp := default [] (times !! devOp) ++ [mkDevExecDesc devOp model execTime]]>
       times).

(** A sequence of AddTiming calls, each given as a timing. *)
Definition AddTimings (self : DevExecList) (calls : list DevExecDesc) : DevExecList :=
  foldl (fun del c => AddTiming del (ded_devop c) (ded_model c) (ded_exectime c))
        self calls.

(** The timings of a sequence of calls that are for operation [devOp]. *)
Definition timingsFor (devOp : string) (calls : list DevExecDesc) : list DevExecDesc :=
  filter (fun c => ded_devop c = devOp) calls.

End Dictionaries.

Arguments mkDevDesc {float}.
Arguments dd_manufacturer {float}.
Arguments dd_model {float}.
Arguments mkDevDescDict {float}.
Arguments ddd_DescMap {float}.
Arguments ddd_Name {float}.
Arguments CreateDevDescDict {float}.
Arguments AddDevDesc {float}.
Arguments RecoverDevDesc {float}.
Arguments mkDevExecDesc {float}.
Arguments ded_devop {float}.
Arguments ded_model {float}.
Arguments ded_exectime {float}.
Arguments mkDevExecList {float}.
Arguments del_times {float}.
Arguments del_listname {float}.
Arguments CreateDevExecList {float}.
Arguments AddTiming {float}.
Arguments AddTimings {float}.
Arguments timingsFor {float}.

(** The topology frame Consolidate leaves when it succeeds: name and
    networks kept, the three lists rebuilt from the networks. *)
Definition consolidated (s : State) (tf : Topo.t) : Topo.t :=
  Topo.mk (Topo.Name tf)
    (uniqueByName (nameOf s) (members s Net.Endpts tf))
    (Topo.Networks tf)
    (uniqueByName (nameOf s) (members s Net.Routers tf))
    (uniqueByName (nameOf s) (members s Net.Switches tf)).

(** ** Network descriptors *)

(** NetworkDescClass: the members are given by name. *)
Module NetworkDesc.
Record t : Type := mk {
  Name : string;
  Groups : list string;
  NetScale : string;
  MediaType : string;
  Routers : list string;
  Endpts : list string;
  Switches : list string
}.
End NetworkDesc.

(** The loops of NetworkFrameClass.Transform: the name of each device of
    the list is appended to the descriptor's list. *)
Definition namesInOrder (devs : list ref) : M (list string) :=
  for_in devs (fun dev names =>
    let* d := getDev dev in
    ret (Next (names ++ [Dev.Name d]))) [].

(** NetworkFrameClass.Transform. *)
Definition NetTransform (self : ref) : M NetworkDesc.t :=
  let* n := getNet self in
  let* routers := namesInOrder (Net.Routers n) in
  let* endpts := namesInOrder (Net.Endpts n) in
  let* switches := namesInOrder (Net.Switches n) in
  ret (NetworkDesc.mk (Net.Name n) (Net.Groups n) (Net.NetScale n)
         (Net.MediaType n) routers endpts switches).

(** Every device of the list is the one devByName holds under its name. *)
Definition registeredByName (s : State) (l : list ref) : Prop :=
  Forall (fun r => ∃ d, devHeap s !! r = Some d ∧
                        devByName s !! Dev.Name d = Some r) l.

(** ** What connecting devices only adds to *)

(** No interface object sits at or above the next reference to be given. *)
Definition allocOk (s : State) : Prop :=
  ∀ r : ref, (nextRef s ≤ r)%nat → intrfcHeap s !! r = None.

(** An interface frame keeps its name, groups, media type, wireless peers
    and faced network, and its Carry list is only extended. *)
Definition intrfcKept (f f' : Intrfc.t) : Prop :=
  Intrfc.Name f' = Intrfc.Name f ∧ Intrfc.Groups f' = Intrfc.Groups f ∧
  Intrfc.MediaType f' = Intrfc.MediaType f ∧
  Intrfc.Wireless f' = Intrfc.Wireless f ∧ Intrfc.Faces f' = Intrfc.Faces f ∧
  Intrfc.Carry f `prefix_of` Intrfc.Carry f'.

(** A device frame keeps everything but its Interfaces, which is only
    extended. *)
Definition devKept (d d' : Dev.t) : Prop :=
  Dev.Class d' = Dev.Class d ∧ Dev.Name d' = Dev.Name d ∧
  Dev.Groups d' = Dev.Groups d ∧ Dev.Model d' = Dev.Model d ∧
  Dev.Cores d' = Dev.Cores d ∧
  Dev.Interfaces d `prefix_of` Dev.Interfaces d'.

(** A network frame keeps its scalar fields, and its membership lists are
    only extended. *)
Definition netKept (n n' : Net.t) : Prop :=
  Net.Name n' = Net.Name n ∧ Net.Groups n' = Net.Groups n ∧
  Net.NetScale n' = Net.NetScale n ∧ Net.MediaType n' = Net.MediaType n ∧
  Net.Routers n `prefix_of` Net.Routers n' ∧
  Net.Endpts n `prefix_of` Net.Endpts n' ∧
  Net.Switches n `prefix_of` Net.Switches n'.

(** From [s] to [s'] things were only added: the registry is the same, no
    device or network object appeared or disappeared, every frame is kept
    in the sense above, and every peer list of the connectivity index is
    only extended. *)
Definition onlyAdds (s s' : State) : Prop :=
  objTypeByName s' = objTypeByName s ∧ devByName s' = devByName s ∧
  netByName s' = netByName s ∧ rtrByName s' = rtrByName s ∧
  (∀ r d, devHeap s !! r = Some d → ∃ d', devHeap s' !! r = Some d' ∧ devKept d d') ∧
  (∀ r, devHeap s !! r = None → devHeap s' !! r = None) ∧
  (∀ r n, netHeap s !! r = Some n → ∃ n', netHeap s' !! r = Some n' ∧ netKept n n') ∧
  (∀ r, netHeap s !! r = None → netHeap s' !! r = None) ∧
  (∀ r f, intrfcHeap s !! r = Some f →
          ∃ f', intrfcHeap s' !! r = Some f' ∧ intrfcKept f f') ∧
  (∀ id peers, devConnected s !! id = Some peers →
               ∃ peers', devConnected s' !! id = Some peers' ∧
                         peers `prefix_of` peers').

(** The step from [s] to [s'] of a computation that allocates at fresh
    references and only adds. *)
Definition addingStep (s s' : State) : Prop :=
  allocOk s → allocOk s' ∧ onlyAdds s s'.

(** A computation all of whose runs, normal or not, are steps of [R]. *)
Definition respects (R : State → State → Prop) {A} (m : M A) : Prop :=
  ∀ s, R s (m s).2.

(** The relations the steps of a computation are composed along. *)
Class StepRel (R : State → State → Prop) : Prop := {
  step_refl : ∀ s, R s s;
  step_trans : ∀ s1 s2 s3, R s1 s2 → R s2 s3 → R s1 s3
}.

(** ** Cabling *)

(** Cables are symmetric: an interface whose Cable is the interface [j] is
    itself the Cable of the interface object [j]. *)
Definition cableSym (s : State) : Prop :=
  ∀ i f j, intrfcHeap s !! i = Some f → Intrfc.Cable f = Some j →
    ∃ g, intrfcHeap s !! j = Some g ∧ Intrfc.Cable g = Some i.

Definition wellCabled (s : State) : Prop := allocOk s ∧ cableSym s.

(** From [s] to [s'] no Cable was assigned: every interface object of [s]
    is in [s'] with the Cable it had, and every interface object that is
    new in [s'] is without cable. *)
Definition cablesKept (s s' : State) : Prop :=
  (∀ i f, intrfcHeap s !! i = Some f →
          ∃ f', intrfcHeap s' !! i = Some f' ∧ Intrfc.Cable f' = Intrfc.Cable f) ∧
  (∀ i f', intrfcHeap s !! i = None → intrfcHeap s' !! i = Some f' →
           Intrfc.Cable f' = None).

(** The step of a computation that allocates at fresh references and
    assigns no Cable. *)
Definition keepingStep (s s' : State) : Prop :=
  allocOk s → allocOk s' ∧ cablesKept s s'.

(** The step of a computation that keeps the cabling symmetric. *)
Definition cablingStep (s s' : State) : Prop :=
  wellCabled s → wellCabled s'.

(** Routers r1 (0), r2 (1) and r3 (2) and the wired network netA (3); r1
    holds the interfaces 4 and 6, r2 holds 5 and r3 holds 7, all facing
    netA; r1 and r2 were then connected by cable, which cabled 4 and 5. *)
Definition cabledRouters : State :=
  ((Scenario.router "r1" "cisco" ;;
    Scenario.router "r2" "cisco" ;;
    Scenario.router "r3" "cisco" ;;
    Scenario.network "netA" "LAN" "wired" ;;
    let* i4 := Scenario.intrfc "r1" "r1.eth0" "Router" "wired" "netA" in
    AddIntrfc 0 i4 ;;
    let* i5 := Scenario.intrfc "r2" "r2.eth0" "Router" "wired" "netA" in
    AddIntrfc 1 i5 ;;
    let* i6 := Scenario.intrfc "r1" "r1.eth1" "Router" "wired" "netA" in
    AddIntrfc 0 i6 ;;
    let* i7 := Scenario.intrfc "r3" "r3.eth0" "Router" "wired" "netA" in
    AddIntrfc 2 i7 ;;
    ConnectDevs 0 1 true "netA") initState).2.

(** On [Scenario.routers], r1 is among the Routers of netA, and an
    interface facing netA (3) is attached to r2: r2 faces netA and is not
    among its Routers. *)
Definition lentIntrfc : State :=
  ((IncludeDev 2 0 "wired" false ;;
    let* i := Scenario.intrfc "r1" "e0" "Router" "wired" "netA" in
    AddIntrfc 1 i) Scenario.routers).2.

(** ** The adders of a topology frame *)

Definition CreateTopoCfgFrame (name : string) : Topo.t := Topo.mk name [] [] [] [].

Definition set_Networks (l : list ref) (f : Topo.t) : Topo.t :=
  Topo.mk (Topo.Name f) (Topo.Endpts f) l (Topo.Routers f) (Topo.Switches f).

(** The scan of addNetwork: is [net], or a network named [inputName], among
    the stored ones. *)
Definition storedNetAlready (stored : list ref) (net : ref) (inputName : string)
  : M bool :=
  for_in stored (fun storedNetwork _ =>
    let* same :=
      (if decide (storedNetwork = net) then ret true
       else let* a := getNet storedNetwork in
            ret (bool_decide (Net.Name a = inputName))) in
    if same then ret (Break true) else ret (Next false)) false.

Definition addNetwork (self : Topo.t) (net : ref) : M Topo.t :=
  let* n := getNet net in
  let* present := storedNetAlready (Topo.Networks self) net (Net.Name n) in
  if present then ret self
  else ret (set_Networks (Topo.Networks self ++ [net]) self).

(** A call of one of the four adders, and a sequence of such calls on a
    frame. *)
Inductive AdderCall : Type :=
| CallAddEndpt (endpt : ref)
| CallAddNetwork (net : ref)
| CallAddRouter (rtr : ref)
| CallAddSwitch (swtch : ref).

Definition runAdder (self : Topo.t) (c : AdderCall) : M Topo.t :=
  match c with
  | CallAddEndpt endpt => addEndpt self endpt
  | CallAddNetwork net => addNetwork self net
  | CallAddRouter rtr => addRouter self rtr
  | CallAddSwitch swtch => addSwitch self swtch
  end.

Fixpoint runAdders (calls : list AdderCall) (self : Topo.t) : M Topo.t :=
  match calls with
  | [] => ret self
  | c :: calls' => let* self := runAdder self c in runAdders calls' self
  end.

(** The argument of the call is an object of the store. *)
Definition argLive (s : State) (c : AdderCall) : Prop :=
  match c with
  | CallAddNetwork net => is_Some (netHeap s !! net)
  | CallAddEndpt dev | CallAddRouter dev | CallAddSwitch dev =>
      is_Some (devHeap s !! dev)
  end.

(** The name of a network object. *)
Definition netNameOf (s : State) (r : ref) : string :=
  from_option Net.Name "" (netHeap s !! r).

Definition liveNets (s : State) (l : list ref) : Prop :=
  Forall (fun r => is_Some (netHeap s !! r)) l.

(** Every member of the frame is an object of the store. *)
Definition frameLive (s : State) (tf : Topo.t) : Prop :=
  live s (Topo.Endpts tf) ∧ liveNets s (Topo.Networks tf) ∧
  live s (Topo.Routers tf) ∧ live s (Topo.Switches tf).

(** In each list of the frame the names are pairwise distinct. *)
Definition distinctNames (s : State) (tf : Topo.t) : Prop :=
  NoDup (nameOf s <$> Topo.Endpts tf) ∧
  NoDup (netNameOf s <$> Topo.Networks tf) ∧
  NoDup (nameOf s <$> Topo.Routers tf) ∧
  NoDup (nameOf s <$> Topo.Switches tf).

(** The object named by the call is in the list the call works on, under
    its own name or another object's. *)
Definition named (s : State) (tf : Topo.t) (c : AdderCall) : Prop :=
  match c with
  | CallAddEndpt r => nameOf s r ∈ nameOf s <$> Topo.Endpts tf
  | CallAddNetwork r => netNameOf s r ∈ netNameOf s <$> Topo.Networks tf
  | CallAddRouter r => nameOf s r ∈ nameOf s <$> Topo.Routers tf
  | CallAddSwitch r => nameOf s r ∈ nameOf s <$> Topo.Switches tf
  end.

(** * Properties *)

(** ** What a computation leaves alone *)

Lemma keeps_refl s : keeps s s.
Proof. by split. Qed.

Lemma keeps_trans s1 s2 s3 : keeps s1 s2 → keeps s2 s3 → keeps s1 s3.
Proof.
  intros [Hc Hn] [Hc' Hn']. split; [congruence|].
  intros r. by rewrite Hn', Hn.
Qed.

Lemma preserves_ret {A} (a : A) : preserves (ret a).
Proof. intros s. apply keeps_refl. Qed.

Lemma preserves_raise {A} e : preserves (@raise A e).
Proof. intros s. apply keeps_refl. Qed.

Lemma preserves_gets {A} (f : State → A) : preserves (gets f).
Proof. intros s. apply keeps_refl. Qed.

Lemma preserves_bind {A B} (m : M A) (k : A → M B) :
  preserves m → (∀ a, preserves (k a)) → preserves (bind m k).
Proof.
  intros Hm Hk s. unfold bind. specialize (Hm s).
  destruct (m s) as [[a|e] s']; simpl in *; [|done].
  eapply keeps_trans; [exact Hm|apply Hk].
Qed.

Lemma preserves_for_in {A B} (l : list A) (body : A → B → M (Ctl B)) b :
  (∀ x b, preserves (body x b)) → preserves (for_in l body b).
Proof.
  intros Hb. revert b. induction l as [|x l IH]; intros b; simpl.
  - apply preserves_ret.
  - apply preserves_bind; [apply Hb|].
    intros [b'|b']; [apply IH|apply preserves_ret].
Qed.

Lemma preserves_getIntrfc r : preserves (getIntrfc r).
Proof. intros s. unfold getIntrfc. destruct (_ !! _); apply keeps_refl. Qed.

Lemma preserves_getDev r : preserves (getDev r).
Proof. intros s. unfold getDev. destruct (_ !! _); apply keeps_refl. Qed.

Lemma preserves_getNet r : preserves (getNet r).
Proof. intros s. unfold getNet. destruct (_ !! _); apply keeps_refl. Qed.

Lemma preserves_subscript d key : preserves (subscript d key).
Proof. intros s. unfold subscript. destruct (_ !! _); apply keeps_refl. Qed.

Lemma preserves_modify f : (∀ s, keeps s (f s)) → preserves (modify f).
Proof. intros Hf s. apply Hf. Qed.

Lemma preserves_updIntrfc r g : preserves (updIntrfc r g).
Proof.
  apply preserves_bind; [apply preserves_getIntrfc|].
  intros f. apply preserves_modify. intros s. by split.
Qed.

Lemma preserves_updNet r g : preserves (updNet r g).
Proof.
  apply preserves_bind; [apply preserves_getNet|].
  intros f. apply preserves_modify. intros s. by split.
Qed.

Lemma preserves_newIntrfc f : preserves (newIntrfc f).
Proof. intros s. by split. Qed.

(** Appending to a device's interfaces leaves its name. *)
Lemma preserves_updDev_Interfaces r l :
  preserves (updDev r (fun d => Dev.set_Interfaces (Dev.Interfaces d ++ l) d)).
Proof.
  intros s. unfold updDev, bind, getDev, modify.
  destruct (devHeap s !! r) as [d|] eqn:E; simpl; [|apply keeps_refl].
  split; [done|]. intros r'. simpl.
  destruct (decide (r = r')) as [->|Hne].
  - by rewrite lookup_insert_eq, E.
  - by rewrite lookup_insert_ne.
Qed.

Create HintDb pres.
#[local] Hint Resolve preserves_ret preserves_raise preserves_gets
  preserves_getIntrfc preserves_getDev preserves_getNet preserves_subscript
  preserves_updIntrfc preserves_updNet preserves_newIntrfc
  preserves_updDev_Interfaces : pres.

(** One step through the syntax of a computation. *)
Ltac pres_step :=
  match goal with
  | |- preserves (bind _ _) => apply preserves_bind; [|intros ?]
  | |- preserves (for_in _ _ _) => apply preserves_for_in; intros ? ?
  | |- preserves (if decide ?P then _ else _) => destruct (decide P)
  | |- preserves (if ?b then _ else _) => destruct b
  | |- preserves (match ?x with _ => _ end) => destruct x
  | |- preserves (let _ := _ in _) => cbv zeta
  | |- preserves (modify _) => apply preserves_modify; intros ?; by split
  | |- preserves _ => solve [auto with pres]
  end.

Ltac pres := repeat pres_step.

Lemma preserves_DevName dev : preserves (DevName dev).
Proof. unfold DevName. pres. Qed.

Lemma preserves_DevID dev : preserves (DevID dev).
Proof. unfold DevID. pres. Qed.

Lemma preserves_DevType dev : preserves (DevType dev).
Proof. unfold DevType. pres. Qed.

Lemma preserves_DevInterfaces dev : preserves (DevInterfaces dev).
Proof. unfold DevInterfaces. pres. Qed.

Lemma preserves_DefaultIntrfcName device : preserves (DefaultIntrfcName device).
Proof. unfold DefaultIntrfcName. pres. Qed.

#[local] Hint Resolve preserves_DevName preserves_DevID preserves_DevType
  preserves_DevInterfaces preserves_DefaultIntrfcName : pres.

Lemma preserves_CreateIntrfc device name devType mediaType faces :
  preserves (CreateIntrfc device name devType mediaType faces).
Proof. unfold CreateIntrfc, unboundLocal. pres. Qed.

Lemma preserves_FacedBy self dev : preserves (FacedBy self dev).
Proof. unfold FacedBy. pres. Qed.

Lemma preserves_endptPresent l e : preserves (endptPresent l e).
Proof. unfold endptPresent. pres. Qed.

Lemma preserves_routerPresent l e : preserves (routerPresent l e).
Proof. unfold routerPresent. pres. Qed.

Lemma preserves_switchPresent_1 e : preserves (switchPresent_1 e).
Proof. unfold switchPresent_1. pres. Qed.

#[local] Hint Resolve preserves_CreateIntrfc preserves_FacedBy
  preserves_endptPresent preserves_routerPresent preserves_switchPresent_1
  : pres.

Lemma preserves_IncludeDev self dev mediaType chkIntrfc :
  preserves (IncludeDev self dev mediaType chkIntrfc).
Proof. unfold IncludeDev. pres. Qed.

Lemma preserves_AddIntrfc self iff : preserves (AddIntrfc self iff).
Proof. unfold AddIntrfc. pres. Qed.

#[local] Hint Resolve preserves_IncludeDev preserves_AddIntrfc : pres.

Lemma preserves_DevAddIntrfc dev iff : preserves (DevAddIntrfc dev iff).
Proof. unfold DevAddIntrfc. pres. Qed.

Lemma preserves_carryContained i1 i2 : preserves (carryContained i1 i2).
Proof. unfold carryContained. pres. Qed.

Lemma preserves_facing faces l : preserves (facing faces l).
Proof. unfold facing. pres. Qed.

Lemma preserves_firstFree faces l : preserves (firstFree faces l).
Proof. unfold firstFree. pres. Qed.

#[local] Hint Resolve preserves_DevAddIntrfc preserves_carryContained
  preserves_facing preserves_firstFree : pres.

Lemma preserves_cableSearch l1 l2 : preserves (cableSearch l1 l2).
Proof. unfold cableSearch. pres. Qed.

Lemma preserves_carrySearch l1 l2 : preserves (carrySearch l1 l2).
Proof. unfold carrySearch. pres. Qed.

Lemma preserves_freeIntrfc dev faces pool : preserves (freeIntrfc dev faces pool).
Proof. unfold freeIntrfc. pres. Qed.

#[local] Hint Resolve preserves_cableSearch preserves_carrySearch
  preserves_freeIntrfc : pres.

Lemma preserves_ConnectDevs_rest dev1 dev2 cable faces :
  preserves (ConnectDevs_rest dev1 dev2 cable faces).
Proof. unfold ConnectDevs_rest. pres. Qed.

Lemma isConnected_marked id1 id2 s :
  isConnected id1 id2 s = (Ok (marked id1 id2 s), s).
Proof. reflexivity. Qed.

Lemma marked_appendPeer id1 id2 s : marked id1 id2 (appendPeer id1 id2 s) = true.
Proof.
  unfold marked, appendPeer. simpl. rewrite lookup_insert_eq.
  apply bool_decide_eq_true. set_solver.
Qed.

Lemma marked_appendPeer_mono id1 id2 a b s :
  marked id1 id2 s = true → marked id1 id2 (appendPeer a b s) = true.
Proof.
  unfold marked, appendPeer. simpl. intros H.
  destruct (decide (a = id1)) as [->|Hne].
  - rewrite lookup_insert_eq. destruct (devConnected s !! id1); [|done].
    simpl. apply bool_decide_eq_true. apply bool_decide_eq_true in H. set_solver.
  - by rewrite lookup_insert_ne.
Qed.

Lemma markConnected_run id1 id2 s :
  ∃ s', markConnected id1 id2 s = (Ok tt, s') ∧
        marked id1 id2 s' = true ∧ devHeap s' = devHeap s.
Proof.
  unfold markConnected, bind. rewrite isConnected_marked.
  destruct (marked id1 id2 s) eqn:E.
  - by exists s.
  - eexists. split; [reflexivity|]. split; [|done].
    apply marked_appendPeer_mono, marked_appendPeer.
Qed.

Lemma marked_keeps id1 id2 s s' : keeps s s' → marked id1 id2 s' = marked id1 id2 s.
Proof. intros [Hc _]. unfold marked. by rewrite Hc. Qed.

Lemma DevID_run dev d s : devHeap s !! dev = Some d → DevID dev s = (Ok (Dev.Name d), s).
Proof. intros H. unfold DevID, bind, getDev. by rewrite H. Qed.

Lemma ConnectDevs_unfold dev1 dev2 d1 d2 cable faces s :
  devHeap s !! dev1 = Some d1 → devHeap s !! dev2 = Some d2 →
  ConnectDevs dev1 dev2 cable faces s =
  if marked (Dev.Name d1) (Dev.Name d2) s then (Ok tt, s)
  else ConnectDevs_rest dev1 dev2 cable faces
         (markConnected (Dev.Name d1) (Dev.Name d2) s).2.
Proof.
  intros H1 H2. unfold ConnectDevs. unfold bind at 1. rewrite (DevID_run _ _ _ H1).
  unfold bind at 1. rewrite (DevID_run _ _ _ H2).
  unfold bind at 1. rewrite isConnected_marked.
  destruct (marked _ _ s); [done|].
  unfold bind at 1. rewrite (DevID_run _ _ _ H1).
  unfold bind at 1. rewrite (DevID_run _ _ _ H2).
  unfold bind at 1.
  destruct (markConnected_run (Dev.Name d1) (Dev.Name d2) s) as (s' & -> & _).
  reflexivity.
Qed.

(** C1, ConnectDevs is idempotent: after one call on two device objects,
    whatever its outcome, the connectivity index marks the pair, and a
    second call with the same arguments returns at once and leaves the
    whole state, interfaces, cables and carries included, as the first call
    left it. *)
Theorem ConnectDevs_twice dev1 dev2 d1 d2 cable faces s :
  devHeap s !! dev1 = Some d1 → devHeap s !! dev2 = Some d2 →
  let s1 := (ConnectDevs dev1 dev2 cable faces s).2 in
  isConnected (Dev.Name d1) (Dev.Name d2) s1 = (Ok true, s1) ∧
  ConnectDevs dev1 dev2 cable faces s1 = (Ok tt, s1).
Proof.
  intros H1 H2 s1.
  assert (marked (Dev.Name d1) (Dev.Name d2) s1 = true ∧
          (∀ r, Dev.Name <$> devHeap s1 !! r = Dev.Name <$> devHeap s !! r))
    as [Hm Hn].
  { subst s1. rewrite (ConnectDevs_unfold _ _ _ _ _ _ _ H1 H2).
    destruct (marked _ _ s) eqn:E; [done|].
    destruct (markConnected_run (Dev.Name d1) (Dev.Name d2) s)
      as (s' & -> & Hs' & Hh). simpl.
    pose proof (preserves_ConnectDevs_rest dev1 dev2 cable faces s') as Hk.
    split; [by rewrite (marked_keeps _ _ _ _ Hk)|].
    intros r. destruct Hk as [_ Hk]. by rewrite Hk, Hh. }
  pose proof (Hn dev1) as Hn1. pose proof (Hn dev2) as Hn2.
  rewrite H1 in Hn1. rewrite H2 in Hn2.
  destruct (devHeap s1 !! dev1) as [d1'|] eqn:E1; [|done].
  destruct (devHeap s1 !! dev2) as [d2'|] eqn:E2; [|done].
  simpl in Hn1, Hn2. injection Hn1 as Hn1. injection Hn2 as Hn2.
  split.
  - by rewrite isConnected_marked, Hm.
  - rewrite (ConnectDevs_unfold _ _ _ _ _ _ _ E1 E2), Hn1, Hn2. by rewrite Hm.
Qed.

(** ** Groups of a network *)

Lemma set_netHeap_same s : set_netHeap (netHeap s) s = s.
Proof. by destruct s. Qed.

Lemma AddGroup_absent s self n g :
  netHeap s !! self = Some n → g ∉ Net.Groups n → AddGroup self g s = (Ok tt, s).
Proof.
  intros Hn Hg. unfold AddGroup, updNet, bind, getNet, modify. rewrite Hn.
  unfold Net_AddGroup. rewrite decide_False by done.
  by rewrite insert_id, set_netHeap_same.
Qed.

Lemma AddGroups_empty s self n gs :
  netHeap s !! self = Some n → Net.Groups n = [] → AddGroups self gs s = (Ok tt, s).
Proof.
  intros Hn Hg. unfold AddGroups. induction gs as [|g gs IH]; [done|].
  simpl. unfold bind at 1. unfold bind at 1.
  rewrite (AddGroup_absent s self n g Hn) by (rewrite Hg; apply not_elem_of_nil).
  simpl. exact IH.
Qed.

(** C10, NetworkFrameClass.AddGroup: a group name that is not in the
    network's Groups is not added, the call leaves the state as it is; so
    on a network frame whose Groups is empty, as [__init__] leaves it, any
    sequence of AddGroup calls returns and leaves the state, and with it
    the empty Groups, as it is. *)
Theorem AddGroup_never_adds :
  (∀ s self n g,
     netHeap s !! self = Some n → g ∉ Net.Groups n →
     AddGroup self g s = (Ok tt, s)) ∧
  (∀ s self n groupNames,
     netHeap s !! self = Some n → Net.Groups n = [] →
     AddGroups self groupNames s = (Ok tt, s)).
Proof. split; [apply AddGroup_absent|apply AddGroups_empty]. Qed.

(** ** Consolidation *)

Section UniqueByName.
Variable name : ref → string.

Lemma foldl_addUnique_spec l : ∀ acc,
  NoDup (name <$> acc) →
  NoDup (name <$> foldl (addUnique name) acc l) ∧
  (∀ r, r ∈ foldl (addUnique name) acc l → r ∈ acc ∨ r ∈ l) ∧
  (∀ r, r ∈ acc ∨ r ∈ l → name r ∈ name <$> foldl (addUnique name) acc l).
Proof.
  induction l as [|x l IH]; intros acc Hnd; simpl.
  - split; [done|]. split; [auto|].
    intros r [H|H]; [by apply list_elem_of_fmap_2|by apply elem_of_nil in H].
  - assert (NoDup (name <$> addUnique name acc x)) as Hnd'.
    { unfold addUnique. case_decide; [done|].
      rewrite fmap_app. apply NoDup_app. split; [done|].
      split; [|apply NoDup_singleton].
      intros y Hy Hy'. apply list_elem_of_singleton in Hy'. by subst. }
    destruct (IH _ Hnd') as (H1 & H2 & H3). split; [done|]. split.
    + intros r Hr. destruct (H2 r Hr) as [Ha|Hl]; [|right; by right].
      unfold addUnique in Ha. case_decide; [by left|].
      apply elem_of_app in Ha as [Ha|Ha]; [by left|].
      apply list_elem_of_singleton in Ha. subst. right. by left.
    + intros r Hr. assert (r ∈ acc ∨ r = x ∨ r ∈ l) as Hr'.
      { destruct Hr as [?|Hr]; [by left|]. apply elem_of_cons in Hr. tauto. }
      destruct Hr' as [Ha|[->|Hl]].
      * apply H3. left. unfold addUnique. case_decide; [done|].
        apply elem_of_app. by left.
      * unfold addUnique in *. case_decide as Hx.
        -- apply list_elem_of_fmap in Hx as (y & Hy & Hy').
           rewrite Hy. apply H3. by left.
        -- apply H3. left. apply elem_of_app. right. by left.
      * apply H3. by right.
Qed.

Lemma uniqueByName_union l : unionByName name l (uniqueByName name l).
Proof.
  destruct (foldl_addUnique_spec l [] (NoDup_nil_2)) as (H1 & H2 & H3).
  split; [done|]. split.
  - intros r Hr. destruct (H2 r Hr) as [H|H]; [by apply elem_of_nil in H|done].
  - intros r Hr. apply H3. by right.
Qed.
End UniqueByName.

Lemma storedAlready_run s stored dev d :
  live s stored → devHeap s !! dev = Some d →
  storedAlready stored dev (Dev.Name d) s
  = (Ok (bool_decide (nameOf s dev ∈ nameOf s <$> stored)), s).
Proof.
  intros Hl Hd. unfold storedAlready.
  assert (nameOf s dev = Dev.Name d) as Hnd by (unfold nameOf; by rewrite Hd).
  induction Hl as [|x l [a Ha] Hl IH]; simpl.
  - reflexivity.
  - assert (nameOf s x = Dev.Name a) as Hna by (unfold nameOf; by rewrite Ha).
    unfold bind at 1. unfold bind at 1.
    destruct (decide (x = dev)) as [->|Hne].
    + simpl. rewrite bool_decide_eq_true_2; [done|by left].
    + unfold bind at 1, getDev at 1. rewrite Ha. simpl.
      destruct (bool_decide (Dev.Name a = Dev.Name d)) eqn:E; simpl.
      * apply bool_decide_eq_true in E.
        rewrite bool_decide_eq_true_2; [done|]. rewrite Hna, Hnd, E. by left.
      * apply bool_decide_eq_false in E. rewrite IH. f_equal. f_equal.
        apply bool_decide_ext. rewrite elem_of_cons. rewrite Hna, Hnd.
        split; [tauto|]. intros [H|H]; [congruence|done].
Qed.

Lemma live_addUnique s acc r :
  live s acc → is_Some (devHeap s !! r) → live s (addUnique (nameOf s) acc r).
Proof.
  intros Ha Hr. unfold addUnique. case_decide; [done|].
  apply Forall_app. split; [done|]. by apply Forall_singleton.
Qed.

Lemma live_foldl_addUnique s l : ∀ acc,
  live s acc → live s l → live s (foldl (addUnique (nameOf s)) acc l).
Proof.
  induction l as [|x l IH]; intros acc Ha Hl; simpl; [done|].
  apply Forall_cons in Hl as [Hx Hl]. apply IH; [|done]. by apply live_addUnique.
Qed.

Section AddMember.
Variable get : Topo.t → list ref.
Variable set : list ref → Topo.t → Topo.t.
Hypothesis get_set : ∀ l t, get (set l t) = l.
Hypothesis set_get : ∀ t, set (get t) t = t.
Hypothesis set_set : ∀ l l' t, set l (set l' t) = set l t.

Lemma addMember_run s self dev :
  live s (get self) → is_Some (devHeap s !! dev) →
  addMember get set self dev s
  = (Ok (set (addUnique (nameOf s) (get self) dev) self), s).
Proof.
  intros Hl [d Hd]. unfold addMember. unfold bind at 1, getDev at 1.
  rewrite Hd. unfold bind. rewrite (storedAlready_run _ _ _ _ Hl Hd).
  unfold addUnique. destruct (decide _) as [Hin|Hin].
  - rewrite bool_decide_eq_true_2 by done. unfold ret. by rewrite set_get.
  - by rewrite bool_decide_eq_false_2 by done.
Qed.

Lemma addMember_loop s l : ∀ self,
  live s (get self) → live s l →
  for_in l (fun dev self =>
              let* self := addMember get set self dev in ret (Next self)) self s
  = (Ok (set (foldl (addUnique (nameOf s)) (get self) l) self), s).
Proof.
  induction l as [|x l IH]; intros self Ha Hl; simpl.
  - unfold ret. by rewrite set_get.
  - apply Forall_cons in Hl as [Hx Hl].
    unfold bind at 1. unfold bind at 1. rewrite (addMember_run _ _ _ Ha Hx).
    simpl. rewrite IH; [|rewrite get_set; by apply live_addUnique|done].
    by rewrite get_set, set_set.
Qed.
End AddMember.

Lemma addRouter_loop s l self :
  live s (Topo.Routers self) → live s l →
  for_in l (fun rtr self => let* self := addRouter self rtr in ret (Next self)) self s
  = (Ok (Topo.set_Routers (foldl (addUnique (nameOf s)) (Topo.Routers self) l) self), s).
Proof.
  apply (addMember_loop Topo.Routers Topo.set_Routers); try done. by intros [].
Qed.

Lemma addEndpt_loop s l self :
  live s (Topo.Endpts self) → live s l →
  for_in l (fun e self => let* self := addEndpt self e in ret (Next self)) self s
  = (Ok (Topo.set_Endpts (foldl (addUnique (nameOf s)) (Topo.Endpts self) l) self), s).
Proof.
  apply (addMember_loop Topo.Endpts Topo.set_Endpts); try done. by intros [].
Qed.

Lemma addSwitch_loop s l self :
  live s (Topo.Switches self) → live s l →
  for_in l (fun w self => let* self := addSwitch self w in ret (Next self)) self s
  = (Ok (Topo.set_Switches (foldl (addUnique (nameOf s)) (Topo.Switches self) l) self), s).
Proof.
  apply (addMember_loop Topo.Switches Topo.set_Switches); try done. by intros [].
Qed.

Lemma consolidate_loop s nets : ∀ self,
  Forall (netLive s) nets →
  live s (Topo.Routers self) → live s (Topo.Endpts self) →
  live s (Topo.Switches self) →
  ∃ self',
    for_in nets (fun network self =>
      let* n := getNet network in
      let* self :=
        for_in (Net.Routers n) (fun rtr self =>
          let* self := addRouter self rtr in ret (Next self)) self in
      let* self :=
        for_in (Net.Endpts n) (fun endpt self =>
          let* self := addEndpt self endpt in ret (Next self)) self in
      let* self :=
        for_in (Net.Switches n) (fun swtch self =>
          let* self := addSwitch self swtch in ret (Next self)) self in
      ret (Next self)) self s = (Ok self', s) ∧
    Topo.Routers self'
    = foldl (addUnique (nameOf s)) (Topo.Routers self) (membersOf s Net.Routers nets) ∧
    Topo.Endpts self'
    = foldl (addUnique (nameOf s)) (Topo.Endpts self) (membersOf s Net.Endpts nets) ∧
    Topo.Switches self'
    = foldl (addUnique (nameOf s)) (Topo.Switches self) (membersOf s Net.Switches nets) ∧
    Topo.Name self' = Topo.Name self ∧
    Topo.Networks self' = Topo.Networks self.
Proof.
  induction nets as [|nr nets IH]; intros self Hn Hr He Hs.
  - exists self. by repeat split.
  - apply Forall_cons in Hn as [(n & Hnr & Hlr & Hle & Hls) Hn].
    cbn [for_in]. unfold bind at 1. unfold bind at 1, getNet at 1. rewrite Hnr.
    unfold bind at 1. rewrite addRouter_loop by done.
    unfold bind at 1. rewrite addEndpt_loop by done.
    unfold bind at 1. rewrite addSwitch_loop by done.
    cbn [ret].
    match goal with |- context [for_in nets _ ?t s] => set (self1 := t) end.
    destruct (IH self1) as (self' & Hrun & H1 & H2 & H3 & H4 & H5); try done.
    + subst self1. simpl. by apply live_foldl_addUnique.
    + subst self1. simpl. by apply live_foldl_addUnique.
    + subst self1. simpl. by apply live_foldl_addUnique.
    + exists self'. split; [exact Hrun|].
      unfold membersOf in *. rewrite !fmap_cons. cbn [concat].
      rewrite !foldl_app, Hnr. by repeat split.
Qed.

(** C9, Consolidate: on a topology without networks it returns the
    empty-topology error and the topology frame is as it was, its Endpts,
    Routers and Switches included; on a topology with a network whose
    objects are in the store it returns no error and each of the three
    lists is rebuilt, whatever it held, as the union deduplicated by name of
    the corresponding membership lists of the networks, in their order. *)
Theorem Consolidate_spec :
  (∀ s tf,
     Topo.Networks tf = [] →
     Consolidate tf s = (Ok (Some EmptyTopologyError, tf), s)) ∧
  (∀ s tf,
     Topo.Networks tf ≠ [] → topoLive s tf →
     ∃ tf',
       Consolidate tf s = (Ok (None, tf'), s) ∧
       Topo.Name tf' = Topo.Name tf ∧
       Topo.Networks tf' = Topo.Networks tf ∧
       Topo.Routers tf' = uniqueByName (nameOf s) (members s Net.Routers tf) ∧
       Topo.Endpts tf' = uniqueByName (nameOf s) (members s Net.Endpts tf) ∧
       Topo.Switches tf' = uniqueByName (nameOf s) (members s Net.Switches tf) ∧
       unionByName (nameOf s) (members s Net.Routers tf) (Topo.Routers tf') ∧
       unionByName (nameOf s) (members s Net.Endpts tf) (Topo.Endpts tf') ∧
       unionByName (nameOf s) (members s Net.Switches tf) (Topo.Switches tf')).
Proof.
  split.
  - intros s tf Hn. unfold Consolidate. by rewrite Hn.
  - intros s tf Hn Hl. unfold Consolidate.
    rewrite decide_False by (by destruct (Topo.Networks tf)).
    cbv zeta. unfold bind at 1.
    set (tf0 := Topo.set_Switches [] (Topo.set_Routers [] (Topo.set_Endpts [] tf))).
    destruct (consolidate_loop s (Topo.Networks tf0) tf0)
      as (tf' & Hrun & H1 & H2 & H3 & H4 & H5);
      [exact Hl|apply Forall_nil_2..|].
    rewrite Hrun. simpl in H1, H2, H3, H4, H5.
    exists tf'. unfold members, uniqueByName.
    repeat split; try done; rewrite ?H1, ?H2, ?H3;
      apply (uniqueByName_union (nameOf s)).
Qed.

(** ** Carry repair *)

(** CarryIntrfcFrames on the half-carried pair adds the missing direction
    and nothing else. *)
Lemma CarryIntrfcFrames_repairs :
  let s' := (CarryIntrfcFrames 3 4 Scenario.halfCarried).2 in
  Intrfc.Carry <$> intrfcHeap s' !! 3 = Some [4] ∧
  Intrfc.Carry <$> intrfcHeap s' !! 4 = Some [3].
Proof. cbv zeta. repeat apply conj; vm_compute; reflexivity. Qed.

Lemma carryContained_run s i1 i2 f1 f2 :
  intrfcHeap s !! i1 = Some f1 → intrfcHeap s !! i2 = Some f2 →
  liveIntrfcs s (Intrfc.Carry f2) →
  carryContained i1 i2 s
  = (Ok (bool_decide (intrfcName s i1 ∈ intrfcName s <$> Intrfc.Carry f2)), s).
Proof.
  intros H1 H2 Hl. unfold carryContained, bind at 1, getIntrfc at 1. rewrite H2.
  assert (intrfcName s i1 = Intrfc.Name f1) as Hn1
    by (unfold intrfcName; by rewrite H1).
  induction Hl as [|x l [a Ha] Hl IH]; [done|].
  assert (intrfcName s x = Intrfc.Name a) as Hna
    by (unfold intrfcName; by rewrite Ha).
  cbn [for_in]. unfold bind at 1. unfold bind at 1.
  destruct (decide (x = i1)) as [->|Hne].
  - simpl. rewrite bool_decide_eq_true_2; [done|by left].
  - unfold bind at 1, getIntrfc at 1. rewrite Ha.
    unfold bind at 1, getIntrfc at 1. rewrite H1. cbn [ret].
    destruct (bool_decide (Intrfc.Name a = Intrfc.Name f1)) eqn:E.
    + apply bool_decide_eq_true in E.
      rewrite bool_decide_eq_true_2; [done|]. rewrite Hn1, fmap_cons, Hna, E.
      by left.
    + apply bool_decide_eq_false in E. unfold ret at 1. rewrite IH.
      f_equal. f_equal.
      apply bool_decide_ext. rewrite fmap_cons, elem_of_cons, Hna, Hn1.
      split; [tauto|]. intros [H|H]; [congruence|done].
Qed.

Lemma carrySearch_inner s i1 pool2 :
  carryClosed s → is_Some (intrfcHeap s !! i1) → liveIntrfcs s pool2 →
  let inner :=
    for_in pool2 (fun intrfc2 (_ : bool) =>
      let* c12 := carryContained i1 intrfc2 in
      let* n21 := (if c12 then carryContained intrfc2 i1 else ret true) in
      if c12 && negb n21 then
        updIntrfc intrfc2
          (fun f => Intrfc.set_Carry (Intrfc.Carry f ++ [i1]) f) ;;
        ret (Break true)
      else
        let* c21 := carryContained intrfc2 i1 in
        let* n12 := (if c21 then carryContained i1 intrfc2 else ret true) in
        if c21 && negb n12 then
          updIntrfc i1
            (fun f => Intrfc.set_Carry (Intrfc.Carry f ++ [intrfc2]) f) ;;
          ret (Break true)
        else ret (Next false)) false in
  searchOutcome s (inner s).
Proof.
  intros Hc [f1 H1] Hl. cbv zeta.
  induction Hl as [|i2 l [f2 H2] Hl IH]; [by left|].
  cbn [for_in]. unfold bind at 1. unfold bind at 1.
  rewrite (carryContained_run s i1 i2 f1 f2 H1 H2 (Hc _ _ H2)).
  destruct (bool_decide (intrfcName s i1 ∈ intrfcName s <$> Intrfc.Carry f2))
    eqn:E12.
  - unfold bind at 1.
    rewrite (carryContained_run s i2 i1 f2 f1 H2 H1 (Hc _ _ H1)).
    destruct (bool_decide (intrfcName s i2 ∈ intrfcName s <$> Intrfc.Carry f1))
      eqn:E21; cbn [andb negb].
    + unfold bind at 1.
      rewrite (carryContained_run s i2 i1 f2 f1 H2 H1 (Hc _ _ H1)), E21.
      unfold bind at 1.
      rewrite (carryContained_run s i1 i2 f1 f2 H1 H2 (Hc _ _ H2)), E12.
      cbn [andb negb]. exact IH.
    + right. unfold bind, updIntrfc, bind, getIntrfc, modify. rewrite H2.
      eexists. split; [reflexivity|].
      exists i2, i1, f2. apply bool_decide_eq_true in E12. by eauto.
  - unfold bind at 1. cbn [ret andb].
    unfold bind at 1.
    rewrite (carryContained_run s i2 i1 f2 f1 H2 H1 (Hc _ _ H1)).
    destruct (bool_decide (intrfcName s i2 ∈ intrfcName s <$> Intrfc.Carry f1))
      eqn:E21.
    + unfold bind at 1.
      rewrite (carryContained_run s i1 i2 f1 f2 H1 H2 (Hc _ _ H2)), E12.
      cbn [andb negb]. right.
      unfold bind, updIntrfc, bind, getIntrfc, modify. rewrite H1.
      eexists. split; [reflexivity|].
      exists i1, i2, f1. apply bool_decide_eq_true in E21. by eauto.
    + unfold bind at 1. cbn [ret andb]. exact IH.
Qed.

(** The search of the carry mode either changes nothing or appends to a
    Carry list an interface that the list carried already. *)
Lemma carrySearch_run s pool1 pool2 :
  carryClosed s → liveIntrfcs s pool1 → liveIntrfcs s pool2 →
  searchOutcome s (carrySearch pool1 pool2 s).
Proof.
  intros Hc H1 H2. unfold carrySearch.
  induction H1 as [|i1 l Hi1 Hl IH]; [by left|].
  cbn [for_in]. unfold bind at 1. unfold bind at 1.
  destruct (carrySearch_inner s i1 pool2 Hc Hi1 H2) as [->|(s' & -> & Hs')].
  - exact IH.
  - right. by exists s'.
Qed.

Lemma carriedAgain_carries s s' i j :
  carriedAgain s s' → carries s' i j ↔ carries s i j.
Proof.
  intros (i0 & j0 & f0 & Hi0 & [fj0 Hj0] & Hin & ->).
  assert (∀ r, intrfcName
                 (set_intrfcHeap
                    (<[i0 := Intrfc.set_Carry (Intrfc.Carry f0 ++ [j0]) f0]>
                       (intrfcHeap s)) s) r = intrfcName s r) as Hname.
  { intros r. unfold intrfcName. simpl.
    destruct (decide (i0 = r)) as [<-|Hne].
    - by rewrite lookup_insert_eq, Hi0.
    - by rewrite lookup_insert_ne. }
  unfold carries. simpl. rewrite Hname.
  destruct (decide (i0 = i)) as [<-|Hne].
  - rewrite lookup_insert_eq, Hi0. split.
    + intros (f & [= <-] & Hf). exists f0. split; [done|].
      simpl in Hf. rewrite fmap_app, elem_of_app in Hf.
      rewrite (list_fmap_ext _ (intrfcName s) (Intrfc.Carry f0)) in Hf
        by (intros; apply Hname).
      destruct Hf as [Hf|Hf]; [done|].
      simpl in Hf. apply list_elem_of_singleton in Hf.
      rewrite Hname in Hf. by rewrite Hf.
    + intros (f & [= <-] & Hf). eexists. split; [done|].
      simpl. rewrite fmap_app, elem_of_app. left.
      by rewrite (list_fmap_ext _ (intrfcName s) (Intrfc.Carry f0))
        by (intros; apply Hname).
  - rewrite lookup_insert_ne by done.
    split; intros (f & Hf & Hin'); exists f; (split; [done|]).
    + by rewrite (list_fmap_ext _ (intrfcName s) (Intrfc.Carry f)) in Hin'
        by (intros; apply Hname).
    + by rewrite (list_fmap_ext _ (intrfcName s) (Intrfc.Carry f))
        by (intros; apply Hname).
Qed.

(** X27, in every store the search of the carry mode leaves the carry
    relation as it finds it: it returns without adding a direction that was
    missing. *)
Theorem carrySearch_never_repairs s pool1 pool2 i j :
  carryClosed s → liveIntrfcs s pool1 → liveIntrfcs s pool2 →
  carries (carrySearch pool1 pool2 s).2 i j ↔ carries s i j.
Proof.
  intros Hc H1 H2.
  destruct (carrySearch_run s pool1 pool2 Hc H1 H2) as [->|(s' & -> & Hs')];
    [done|]. by apply carriedAgain_carries.
Qed.

(** C2, carry repair, on routers r1 and r2 whose interfaces 3 and 4 face
    netA, where 3 carries 4 and 4 does not carry 3: the carry mode of
    ConnectDevs finds the pair and returns, after appending 4 to the Carry
    of 3 a second time; the Carry of 4 stays empty, so the reciprocal
    direction is not added and the existing entry is duplicated. *)
Theorem ConnectDevs_carry_duplicates :
  let s := Scenario.halfCarried in
  let s' := (ConnectDevs 0 1 false "netA" s).2 in
  (carryContained 4 3 s).1 = Ok true ∧
  (carryContained 3 4 s).1 = Ok false ∧
  (ConnectDevs 0 1 false "netA" s).1 = Ok tt ∧
  Intrfc.Carry <$> intrfcHeap s' !! 3 = Some [4; 4] ∧
  Intrfc.Carry <$> intrfcHeap s' !! 4 = Some [].
Proof. cbv zeta. repeat apply conj; vm_compute; reflexivity. Qed.

(** ** Cable reuse *)

(** On two routers that each hold an interface without cable facing the
    network, the cable scenario goes through: the two interfaces are cabled
    to each other, none is added, and the second call changes nothing. *)
Lemma ConnectDevs_cable_routers :
  let s1 := (ConnectDevs 0 1 true "netA" Scenario.facingRouters).2 in
  (ConnectDevs 0 1 true "netA" Scenario.facingRouters).1 = Ok tt ∧
  Dev.Interfaces <$> devHeap s1 !! 0 = Some [3] ∧
  Dev.Interfaces <$> devHeap s1 !! 1 = Some [4] ∧
  Intrfc.Cable <$> intrfcHeap s1 !! 3 = Some (Some 4) ∧
  Intrfc.Cable <$> intrfcHeap s1 !! 4 = Some (Some 3) ∧
  ConnectDevs 0 1 true "netA" s1 = (Ok tt, s1).
Proof. cbv zeta. repeat apply conj; vm_compute; reflexivity. Qed.

(** The search of the cable mode cables the first pair of the pools that
    can be cabled, and changes nothing when there is none. *)
Lemma cableSearch_inner s i1 pool2 :
  is_Some (intrfcHeap s !! i1) → liveIntrfcs s pool2 →
  for_in pool2 (fun intrfc2 (_ : bool) =>
    let* f1 := getIntrfc i1 in
    if decide (Intrfc.Cable f1 ≠ None ∧ Intrfc.Cable f1 ≠ Some intrfc2)
    then ret (Next false)
    else
      let* f2 := getIntrfc intrfc2 in
      if decide (Intrfc.Cable f2 = Some i1 ∨ Intrfc.Cable f2 = None)
      then
        updIntrfc i1 (Intrfc.set_Cable (Some intrfc2)) ;;
        updIntrfc intrfc2 (Intrfc.set_Cable (Some i1)) ;;
        ret (Break true)
      else ret (Next false)) false s
  = match firstPeer s i1 pool2 with
    | Some i2 => (Ok true, cabled i1 i2 s)
    | None => (Ok false, s)
    end.
Proof.
  intros [f1 H1] Hl. induction Hl as [|i2 l [f2 H2] Hl IH]; [done|].
  cbn [for_in firstPeer]. unfold cableFree. rewrite H1, H2.
  unfold bind at 1. unfold bind at 1, getIntrfc at 1. rewrite H1.
  destruct (decide (Intrfc.Cable f1 ≠ None ∧ Intrfc.Cable f1 ≠ Some i2))
    as [[Ha Hb]|Hn].
  - rewrite bool_decide_eq_false_2 by (intros [[?|?] _]; done). exact IH.
  - unfold bind at 1, getIntrfc at 1. rewrite H2.
    destruct (decide (Intrfc.Cable f2 = Some i1 ∨ Intrfc.Cable f2 = None))
      as [Hc|Hc].
    + rewrite bool_decide_eq_true_2.
      * unfold cabled.
        destruct ((updIntrfc i1 (Intrfc.set_Cable (Some i2));;
                   updIntrfc i2 (Intrfc.set_Cable (Some i1))) s)
          as [[[]|e] s'] eqn:E.
        -- unfold bind at 1 2. unfold bind in E.
           destruct (updIntrfc i1 (Intrfc.set_Cable (Some i2)) s) as [[[]|e1] s1];
             [|done].
           destruct (updIntrfc i2 (Intrfc.set_Cable (Some i1)) s1) as [[[]|e2] s2];
             [|done].
           injection E as <-. done.
        -- exfalso. unfold bind, updIntrfc, bind, getIntrfc, modify in E.
           rewrite H1 in E. simpl in E.
           destruct (decide (i1 = i2)) as [->|Hne].
           ++ rewrite lookup_insert_eq in E. done.
           ++ rewrite lookup_insert_ne, H2 in E by done. done.
      * split; [|done]. destruct (Intrfc.Cable f1) as [c|]; [|by left].
        right. destruct (decide (c = i2)) as [->|Hne]; [done|].
        exfalso. apply Hn. split; [done|congruence].
    + rewrite bool_decide_eq_false_2 by (intros [_ ?]; done). exact IH.
Qed.

(** X26, the search of the cable mode over pools of interface objects: it
    cables the first pair, in the order of the first pool then of the
    second, whose members are each without cable or cabled to the other,
    and reports it; when there is no such pair it changes nothing. *)
Theorem cableSearch_first_match s pool1 pool2 :
  liveIntrfcs s pool1 → liveIntrfcs s pool2 →
  cableSearch pool1 pool2 s
  = match firstCablePair s pool1 pool2 with
    | Some (i1, i2) => (Ok true, cabled i1 i2 s)
    | None => (Ok false, s)
    end.
Proof.
  intros H1 H2. unfold cableSearch.
  induction H1 as [|i1 l Hi1 Hl IH]; [done|].
  cbn [for_in firstCablePair]. unfold bind at 1. unfold bind at 1.
  rewrite (cableSearch_inner s i1 pool2 Hi1 H2).
  destruct (firstPeer s i1 pool2) as [i2|]; [done|]. exact IH.
Qed.

(** C3, cable reuse, on the endpoints h1 and h2 and the wired network
    netA.  The constructors of the scenario do not return: CreateEndpt and
    CreateNetwork raise at the instance and register nothing.  On a store
    that holds the three objects, the first ConnectDevs call marks the pair
    and raises in CreateIntrfc, at [numberOfIntrfcs += 1]: it leaves the
    store without any interface, so both endpoints without interface and
    without cable; the second call returns at once and changes nothing. *)
Theorem ConnectDevs_cable_endpoints :
  let s1 := (ConnectDevs 0 1 true "netA" Scenario.endpoints).2 in
  CreateEndpt "h1" "Host" "x86" 4 initState
  = (Raise (TypeError ("Can't instantiate abstract class EndptFrameClass" +:+
                       " with abstract method DevAddIntrfc")), initState) ∧
  CreateNetwork "netA" "LAN" "wired" initState
  = (Raise (TypeError ("Can't instantiate abstract class NetworkFrameClass" +:+
                       " with abstract method DevAddIntrfc")), initState) ∧
  (ConnectDevs 0 1 true "netA" Scenario.endpoints).1
  = Raise (UnboundLocalError "numberOfIntrfcs") ∧
  isConnected "h1" "h2" s1 = (Ok true, s1) ∧
  Dev.Interfaces <$> devHeap s1 !! 0 = Some [] ∧
  Dev.Interfaces <$> devHeap s1 !! 1 = Some [] ∧
  intrfcHeap s1 = ∅ ∧
  ConnectDevs 0 1 true "netA" s1 = (Ok tt, s1).
Proof. cbv zeta. repeat apply conj; vm_compute; reflexivity. Qed.

(** ** Interface creation *)

(** C5, CreateIntrfc: every call, for a router as for any other device
    type, raises at [numberOfIntrfcs += 1], before anything is written: no
    interface is returned and the state is as it was.  So for the router
    r1 and the network netA, both registered, the call raises and the
    Routers of netA stays empty. *)
Theorem CreateIntrfc_raises :
  (∀ s device name devType mediaType faces,
     CreateIntrfc device name devType mediaType faces s
     = (Raise (UnboundLocalError "numberOfIntrfcs"), s)) ∧
  (let s := Scenario.routers in
   devByName s !! "r1" = Some 0 ∧ netByName s !! "netA" = Some 2 ∧
   Net.Routers <$> netHeap s !! 2 = Some [] ∧
   (CreateIntrfc "r1" "eth0" "Router" "wired" "netA" s).1
   = Raise (UnboundLocalError "numberOfIntrfcs") ∧
   Net.Routers
     <$> netHeap (CreateIntrfc "r1" "eth0" "Router" "wired" "netA" s).2 !! 2
   = Some []).
Proof.
  split; [reflexivity|].
  cbv zeta. repeat apply conj; vm_compute; reflexivity.
Qed.

(** ** Direct addition of routers and switches *)

Lemma readonly_ret {A} (a : A) : readonly (ret a).
Proof. by intros s. Qed.

Lemma readonly_bind {A B} (m : M A) (k : A → M B) :
  readonly m → (∀ a, readonly (k a)) → readonly (bind m k).
Proof.
  intros Hm Hk s. unfold bind. specialize (Hm s).
  destruct (m s) as [[a|e] s']; simpl in *; subst; [apply Hk|done].
Qed.

Lemma readonly_for_in {A B} (l : list A) (body : A → B → M (Ctl B)) b :
  (∀ x b, readonly (body x b)) → readonly (for_in l body b).
Proof.
  intros Hb. revert b. induction l as [|x l IH]; intros b; simpl.
  - apply readonly_ret.
  - apply readonly_bind; [apply Hb|].
    intros [b'|b']; [apply IH|apply readonly_ret].
Qed.

Lemma readonly_getIntrfc r : readonly (getIntrfc r).
Proof. intros s. unfold getIntrfc. by destruct (_ !! _). Qed.

Lemma readonly_getDev r : readonly (getDev r).
Proof. intros s. unfold getDev. by destruct (_ !! _). Qed.

Lemma readonly_getNet r : readonly (getNet r).
Proof. intros s. unfold getNet. by destruct (_ !! _). Qed.

Ltac readonly_step :=
  match goal with
  | |- readonly (bind _ _) => apply readonly_bind; [|intros ?]
  | |- readonly (for_in _ _ _) => apply readonly_for_in; intros ? ?
  | |- readonly (if decide ?P then _ else _) => destruct (decide P)
  | |- readonly (if ?b then _ else _) => destruct b
  | |- readonly (ret _) => apply readonly_ret
  | |- readonly (getIntrfc _) => apply readonly_getIntrfc
  | |- readonly (getDev _) => apply readonly_getDev
  | |- readonly (getNet _) => apply readonly_getNet
  end.

Lemma readonly_FacedBy self dev : readonly (FacedBy self dev).
Proof. unfold FacedBy, DevInterfaces. repeat readonly_step. Qed.

Lemma readonly_run {A} (m : M A) s a : readonly m → (m s).1 = a → m s = (a, s).
Proof. intros Hm <-. rewrite <- (Hm s) at 3. apply surjective_pairing. Qed.

Lemma for_in_names_absent s (l : list ref) (nm : string) :
  live s l → nm ∉ nameOf s <$> l →
  ∀ dev d, devHeap s !! dev = Some d → Dev.Name d = nm →
  for_in l (fun rtr found =>
    let* a := getDev rtr in
    let* b := getDev dev in
    if decide (Dev.Name a = Dev.Name b) then ret (Break true)
    else ret (Next found)) false s = (Ok false, s).
Proof.
  intros Hl Hnm dev d Hd Hdn. induction Hl as [|x l [a Ha] Hl IH]; [done|].
  simpl. unfold bind at 1. unfold bind at 1, getDev at 1. rewrite Ha.
  unfold bind at 1, getDev at 1. rewrite Hd.
  rewrite fmap_cons, not_elem_of_cons in Hnm. destruct Hnm as [Hx Hnm].
  rewrite decide_False.
  - simpl. by apply IH.
  - unfold nameOf in Hx. rewrite Ha in Hx. simpl in Hx. congruence.
Qed.

(** X20, AddRouter does what is asked of it: a router whose name is not in
    the network's Routers is refused, with the precedence error and no
    change, when it does not face the network, and appended when it
    does. *)
Theorem AddRouter_spec s self n rtrf d :
  netHeap s !! self = Some n → devHeap s !! rtrf = Some d →
  live s (Net.Routers n) → Dev.Name d ∉ nameOf s <$> Net.Routers n →
  ((FacedBy self rtrf s).1 = Ok false →
   AddRouter self rtrf s
   = (Ok (Some (PrecedenceViolationError "router" (Dev.Name d) (Net.Name n))), s)) ∧
  ((FacedBy self rtrf s).1 = Ok true →
   AddRouter self rtrf s
   = (Ok None,
      set_netHeap (<[self := Net.set_Routers (Net.Routers n ++ [rtrf]) n]> (netHeap s)) s)).
Proof.
  intros Hn Hd Hl Hnm.
  assert (∀ b, (FacedBy self rtrf s).1 = Ok b → FacedBy self rtrf s = (Ok b, s)) as HF.
  { intros b. apply readonly_run, readonly_FacedBy. }
  split; intros HFb; apply HF in HFb;
    unfold AddRouter; unfold bind at 1, getNet at 1; rewrite Hn;
    unfold bind at 1;
    rewrite (for_in_names_absent s _ (Dev.Name d) Hl Hnm rtrf d Hd eq_refl);
    unfold bind at 1; rewrite HFb; simpl.
  - unfold bind, getDev. by rewrite Hd.
  - unfold bind, updNet, bind, getNet, modify. by rewrite Hn.
Qed.

(** X21, AddSwitch on a network that holds a switch: in every state, as
    soon as the Switches list is not empty, AddSwitch returns no error and
    changes nothing, whatever switch it is given. *)
Theorem AddSwitch_nonempty s self n x l d swtch :
  netHeap s !! self = Some n → Net.Switches n = x :: l →
  devHeap s !! x = Some d →
  AddSwitch self swtch s = (Ok None, s).
Proof.
  intros Hn Hl Hx. unfold AddSwitch. unfold bind at 1, getNet at 1.
  rewrite Hn, Hl. cbn [for_in]. unfold bind at 1. unfold bind at 1.
  unfold bind at 1, getDev at 1. rewrite Hx.
  unfold bind at 1, getDev at 1. rewrite Hx.
  by rewrite decide_True by done.
Qed.

(** C6, AddSwitch on a network that holds the switch s1: the switch s2,
    which is not in the list and has an interface facing the network, is
    not appended; the switch s3, which is not in the list and faces
    nothing, is not refused: both calls return no error and leave the
    Switches list as it was. *)
Theorem AddSwitch_ignores_new_switch :
  let s := Scenario.switches in
  Net.Switches <$> netHeap s !! 4 = Some [0] ∧
  (FacedBy 4 1 s).1 = Ok true ∧
  AddSwitch 4 1 s = (Ok None, s) ∧
  (FacedBy 4 2 s).1 = Ok false ∧
  AddSwitch 4 2 s = (Ok None, s).
Proof. cbv zeta. repeat apply conj; vm_compute; reflexivity. Qed.

(** ** Admission of a device *)

(** X22, a wireless admission into a network that is not wireless returns
    the media mismatch error and touches nothing: no list, no interface. *)
Theorem IncludeDev_wireless_rejected s self dev n d chkIntrfc :
  netHeap s !! self = Some n → devHeap s !! dev = Some d →
  Net.MediaType n ≠ "wireless" →
  IncludeDev self dev "wireless" chkIntrfc s = (Ok (Some MediaMismatchError), s).
Proof.
  intros Hn Hd Hm. unfold IncludeDev.
  unfold bind at 1, DevName at 1, bind at 1, getDev at 1. rewrite Hd.
  unfold bind at 1, ret at 1.
  unfold bind at 1, DevType at 1, bind at 1, getDev at 1. rewrite Hd.
  unfold bind at 1, ret at 1.
  unfold bind at 1, getNet at 1. rewrite Hn.
  cbv zeta. by rewrite decide_True by done.
Qed.

(** X23, a wired admission never returns the media mismatch error, in any
    state and for any device and network. *)
Theorem IncludeDev_wired_no_mismatch s self dev chkIntrfc :
  (IncludeDev self dev "wired" chkIntrfc s).1 ≠ Ok (Some MediaMismatchError).
Proof.
  unfold IncludeDev.
  unfold bind at 1. destruct (DevName dev s) as [[devName|e] s1]; [|done].
  unfold bind at 1. destruct (DevType dev s1) as [[devType|e] s2]; [|done].
  unfold bind at 1. destruct (getNet self s2) as [[n|e] s3]; [|done].
  cbv zeta. rewrite decide_False by (by intros [? _]).
  unfold bind at 1.
  match goal with |- (let (_, _) := ?m in _).1 ≠ _ => destruct m as [[faced|e] s4] end;
    [|done].
  unfold bind at 1.
  match goal with |- (let (_, _) := ?m in _).1 ≠ _ => destruct m as [[i|e] s5] end;
    [|done].
  unfold bind at 1.
  match goal with |- (let (_, _) := ?m in _).1 ≠ _ => destruct m as [[u|e] s6] end;
    done.
Qed.


(** C7, IncludeDev with media type "wired": on a switch the call raises at
    the one-argument call of switchPresent, whether the network is wired
    or wireless, and on an endpoint that needs an interface it raises in
    CreateIntrfc, at [numberOfIntrfcs += 1]; it returns normally on an
    endpoint that needs none. *)
Theorem IncludeDev_wired_raises :
  (IncludeDev 4 2 "wired" false Scenario.switches).1
  = Raise (TypeError "switchPresent() missing 1 required positional argument: 'swtch'") ∧
  (let s := (Scenario.network "netW" "LAN" "wireless" Scenario.switches).2 in
   (IncludeDev 7 2 "wired" false s).1
   = Raise (TypeError "switchPresent() missing 1 required positional argument: 'swtch'")) ∧
  (IncludeDev 2 0 "wired" true Scenario.endpoints).1
  = Raise (UnboundLocalError "numberOfIntrfcs") ∧
  (IncludeDev 2 0 "wired" false Scenario.endpoints).1 = Ok None.
Proof. cbv zeta. repeat apply conj; vm_compute; reflexivity. Qed.

(** ** Interface descriptors *)

(** X25, Transform of an interface frame changes nothing and returns a
    descriptor that has the frame's name, names the cabled peer, and holds
    the elements of Carry and Wireless themselves, in order. *)
Theorem Transform_run s self f :
  intrfcHeap s !! self = Some f →
  (∀ peer, Intrfc.Cable f = Some peer → is_Some (intrfcHeap s !! peer)) →
  ∃ d, Transform self s = (Ok d, s) ∧
       IntrfcDesc.Name d = Intrfc.Name f ∧
       IntrfcDesc.Cable d
       = (peer ← Intrfc.Cable f; Intrfc.Name <$> intrfcHeap s !! peer) ∧
       IntrfcDesc.Carry d = PObj <$> Intrfc.Carry f ∧
       IntrfcDesc.Wireless d = PObj <$> Intrfc.Wireless f.
Proof.
  intros Hf Hc. unfold Transform, bind, getIntrfc. rewrite Hf.
  destruct (Intrfc.Cable f) as [peer|]; simpl.
  - destruct (Hc peer eq_refl) as [p Hp]. rewrite Hp. simpl.
    eexists. split; [reflexivity|]. by simpl.
  - eexists. split; [reflexivity|]. by simpl.
Qed.

(** C8, Transform of interface 3 of router r1, which carries interface 4 of
    router r2: the descriptor's Cable is absent, as the frame's, but its
    Carry holds the interface object 4, not the string that names it. *)
Theorem Transform_Carry_holds_objects :
  let s := Scenario.halfCarried in
  Intrfc.Carry <$> intrfcHeap s !! 3 = Some [4] ∧
  (Transform 3 s).1
  = Ok (IntrfcDesc.mk "r1.eth0" [] "Router" "wired" "r1" None
          [PObj 4] [] "netA") ∧
  namesOf s [4] = [PStr "r2.eth0"].
Proof. cbv zeta. repeat apply conj; vm_compute; reflexivity. Qed.

(** ** The name registry *)



(** ** The theorems at concrete inputs *)

Lemma ConnectDevs_twice_witness :
  let s := Scenario.routers in
  let s1 := (ConnectDevs 0 1 true "netA" s).2 in
  devHeap s !! 0 = Some (Dev.mk RouterFrameClass "r1" [] "cisco" 0 []) ∧
  devHeap s !! 1 = Some (Dev.mk RouterFrameClass "r2" [] "cisco" 0 []) ∧
  isConnected "r1" "r2" s1 = (Ok true, s1) ∧
  ConnectDevs 0 1 true "netA" s1 = (Ok tt, s1).
Proof.
  cbv zeta.
  assert (devHeap Scenario.routers !! 0
          = Some (Dev.mk RouterFrameClass "r1" [] "cisco" 0 [])) as H0
    by (vm_compute; reflexivity).
  assert (devHeap Scenario.routers !! 1
          = Some (Dev.mk RouterFrameClass "r2" [] "cisco" 0 [])) as H1
    by (vm_compute; reflexivity).
  split; [exact H0|]. split; [exact H1|].
  exact (ConnectDevs_twice 0 1 _ _ true "netA" Scenario.routers H0 H1).
Defined.

Lemma AddGroup_never_adds_witness :
  let s := (Scenario.network "netA" "LAN" "wired" initState).2 in
  let n := Net.mk "netA" [] "LAN" "wired" [] [] [] in
  netHeap s !! 0 = Some n ∧ ("core" ∉ Net.Groups n) ∧ Net.Groups n = [] ∧
  AddGroup 0 "core" s = (Ok tt, s) ∧
  AddGroups 0 ["core"; "edge"; "core"] s = (Ok tt, s).
Proof.
  cbv zeta.
  set (n := Net.mk "netA" [] "LAN" "wired" [] [] []).
  assert (netHeap (Scenario.network "netA" "LAN" "wired" initState).2 !! 0
          = Some n) as H0
    by (vm_compute; reflexivity).
  assert ("core" ∉ Net.Groups n) as H1 by apply not_elem_of_nil.
  assert (Net.Groups n = []) as H2 by reflexivity.
  split; [exact H0|]. split; [exact H1|]. split; [exact H2|]. split.
  - exact (proj1 AddGroup_never_adds _ 0 n "core" H0 H1).
  - exact (proj2 AddGroup_never_adds _ 0 n ["core"; "edge"; "core"] H0 H2).
Defined.

Lemma twoNetworks_live :
  topoLive Scenario.twoNetworks (Topo.mk "topo" [] [2; 3] [] []).
Proof.
  assert (∀ r, r ∈ [0; 1] → is_Some (devHeap Scenario.twoNetworks !! r)) as Hdev.
  { intros r Hr. apply elem_of_cons in Hr as [->|Hr];
      [|apply list_elem_of_singleton in Hr as ->];
      vm_compute; eexists; reflexivity. }
  unfold topoLive. simpl. repeat apply Forall_cons_2; [| |apply Forall_nil_2].
  - exists (Net.mk "netA" [] "LAN" "wired" [0; 1] [] []).
    split; [vm_compute; reflexivity|]. simpl. unfold live.
    split; [|split; apply Forall_nil_2].
    apply Forall_forall. exact Hdev.
  - exists (Net.mk "netB" [] "WAN" "wired" [0] [] []).
    split; [vm_compute; reflexivity|]. simpl. unfold live.
    split; [|split; apply Forall_nil_2].
    apply Forall_singleton. apply Hdev. by left.
Defined.

Lemma Consolidate_spec_witness :
  let old := Topo.mk "topo" [7] [] [8] [9] in
  let tf := Topo.mk "topo" [7] [2; 3] [8] [9] in
  (Topo.Networks old = [] ∧
   Consolidate old Scenario.twoNetworks
   = (Ok (Some EmptyTopologyError, old), Scenario.twoNetworks)) ∧
  (Topo.Networks tf ≠ [] ∧ topoLive Scenario.twoNetworks tf ∧
   ∃ tf', Consolidate tf Scenario.twoNetworks = (Ok (None, tf'), Scenario.twoNetworks) ∧
          Topo.Routers tf'
          = uniqueByName (nameOf Scenario.twoNetworks)
              (members Scenario.twoNetworks Net.Routers tf) ∧
          unionByName (nameOf Scenario.twoNetworks)
            (members Scenario.twoNetworks Net.Routers tf) (Topo.Routers tf')).
Proof.
  cbv zeta. split.
  - split; [reflexivity|].
    exact (proj1 Consolidate_spec Scenario.twoNetworks
             (Topo.mk "topo" [7] [] [8] [9]) eq_refl).
  - assert (Topo.Networks (Topo.mk "topo" [7] [2; 3] [8] [9]) ≠ []) as Hne
      by discriminate.
    split; [exact Hne|]. split; [exact twoNetworks_live|].
    destruct (proj2 Consolidate_spec Scenario.twoNetworks
                (Topo.mk "topo" [7] [2; 3] [8] [9]) Hne twoNetworks_live)
      as (tf' & Hrun & _ & _ & HR & _ & _ & HU & _).
    exists tf'. split; [exact Hrun|]. split; [exact HR|exact HU].
Defined.

(** The consolidated routers of the two networks: r1 and r2, once each. *)
Lemma Consolidate_twoNetworks :
  (Consolidate (Topo.mk "topo" [7] [2; 3] [8] [9]) Scenario.twoNetworks).1
  = Ok (None, Topo.mk "topo" [] [2; 3] [0; 1] []).
Proof. vm_compute. reflexivity. Qed.

(** * Further properties of the code *)

(** ** The connectivity index *)

Lemma marked_appendPeer_eq a b id peer s :
  marked a b (appendPeer id peer s)
  = marked a b s || (bool_decide (a = id) && bool_decide (b = peer)).
Proof.
  unfold marked, appendPeer. simpl.
  destruct (decide (id = a)) as [->|Hne].
  - rewrite lookup_insert_eq, (bool_decide_eq_true_2 (a = a)) by done.
    destruct (devConnected s !! a) as [peers|]; simpl.
    + destruct (decide (b = peer)) as [->|Hb].
      * rewrite (bool_decide_eq_true_2 (peer = peer)) by done.
        rewrite orb_true_r. apply bool_decide_eq_true.
        rewrite elem_of_app, list_elem_of_singleton. tauto.
      * rewrite (bool_decide_eq_false_2 (b = peer)) by done.
        rewrite orb_false_r. apply bool_decide_ext.
        rewrite elem_of_app, list_elem_of_singleton. tauto.
    + apply bool_decide_ext. rewrite list_elem_of_singleton. tauto.
  - rewrite lookup_insert_ne by done.
    rewrite (bool_decide_eq_false_2 (a = id)) by done.
    by rewrite orb_false_r.
Qed.

Lemma markConnected_state id1 id2 s :
  markConnected id1 id2 s
  = (Ok tt, if marked id1 id2 s then s
            else appendPeer id2 id1 (appendPeer id1 id2 s)).
Proof.
  unfold markConnected, bind. rewrite isConnected_marked.
  by destruct (marked id1 id2 s).
Qed.

Lemma markConnected_marked_iff id1 id2 s a b :
  indexSymmetric s →
  marked a b (markConnected id1 id2 s).2 = true ↔
  marked a b s = true ∨ (a = id1 ∧ b = id2) ∨ (a = id2 ∧ b = id1).
Proof.
  intros Hsym. rewrite markConnected_state. cbn [snd].
  destruct (marked id1 id2 s) eqn:E.
  - split; [by left|]. intros [H|[[-> ->]|[-> ->]]]; [done|done|].
    by rewrite Hsym.
  - rewrite !marked_appendPeer_eq, !orb_true_iff, !andb_true_iff,
      !bool_decide_eq_true. tauto.
Qed.

Lemma indexSymmetric_markConnected id1 id2 s :
  indexSymmetric s → indexSymmetric (markConnected id1 id2 s).2.
Proof.
  intros Hsym a b. apply eq_true_iff_eq.
  rewrite !markConnected_marked_iff by done. rewrite (Hsym a b). tauto.
Qed.

Lemma indexSymmetric_keeps s s' : keeps s s' → indexSymmetric s → indexSymmetric s'.
Proof.
  intros Hk Hsym a b. by rewrite !(marked_keeps _ _ _ _ Hk).
Qed.

(** X1, markConnected: on a symmetric index the call returns with an index
    that is again symmetric and marks exactly the pairs marked before and
    the two directions of the new pair. *)
Theorem markConnected_symmetric id1 id2 s :
  indexSymmetric s →
  let s' := (markConnected id1 id2 s).2 in
  (markConnected id1 id2 s).1 = Ok tt ∧
  indexSymmetric s' ∧
  ∀ a b, marked a b s' = true ↔
         marked a b s = true ∨ (a = id1 ∧ b = id2) ∨ (a = id2 ∧ b = id1).
Proof.
  intros Hsym. cbv zeta. split; [by rewrite markConnected_state|].
  split; [by apply indexSymmetric_markConnected|].
  intros a b. by apply markConnected_marked_iff.
Qed.

Lemma markConnected_symmetric_witness :
  indexSymmetric initState ∧
  indexSymmetric (markConnected "r1" "r2" initState).2.
Proof.
  assert (indexSymmetric initState) as H by (intros a b; reflexivity).
  split; [exact H|].
  exact (proj1 (proj2 (markConnected_symmetric "r1" "r2" initState H))).
Defined.

Lemma ConnectDevs_state dev1 dev2 d1 d2 cable faces s :
  devHeap s !! dev1 = Some d1 → devHeap s !! dev2 = Some d2 →
  let s1 := (ConnectDevs dev1 dev2 cable faces s).2 in
  keeps (markConnected (Dev.Name d1) (Dev.Name d2) s).2 s1 ∧
  (∀ r, Dev.Name <$> devHeap s1 !! r = Dev.Name <$> devHeap s !! r).
Proof.
  intros H1 H2. cbv zeta. rewrite (ConnectDevs_unfold _ _ _ _ _ _ _ H1 H2).
  rewrite markConnected_state. destruct (marked _ _ s) eqn:E; cbn [snd].
  - split; [apply keeps_refl|done].
  - pose proof (preserves_ConnectDevs_rest dev1 dev2 cable faces
                  (appendPeer (Dev.Name d2) (Dev.Name d1)
                     (appendPeer (Dev.Name d1) (Dev.Name d2) s))) as Hk.
    split; [exact Hk|]. intros r. destruct Hk as [_ Hk]. by rewrite Hk.
Qed.

(** X2, one connection per pair: after ConnectDevs on two device objects,
    whatever its outcome, a symmetric index is still symmetric, and every
    further ConnectDevs between the two, in either order, in either mode
    and on any network, returns at once and changes nothing. *)
Theorem ConnectDevs_once_per_pair dev1 dev2 d1 d2 cable faces cable' faces' s :
  devHeap s !! dev1 = Some d1 → devHeap s !! dev2 = Some d2 →
  indexSymmetric s →
  let s1 := (ConnectDevs dev1 dev2 cable faces s).2 in
  indexSymmetric s1 ∧
  ConnectDevs dev1 dev2 cable' faces' s1 = (Ok tt, s1) ∧
  ConnectDevs dev2 dev1 cable' faces' s1 = (Ok tt, s1).
Proof.
  intros H1 H2 Hsym s1.
  destruct (ConnectDevs_state dev1 dev2 d1 d2 cable faces s H1 H2) as [Hk Hn].
  fold s1 in Hk, Hn.
  assert (indexSymmetric s1) as Hsym1.
  { eapply indexSymmetric_keeps; [exact Hk|].
    by apply indexSymmetric_markConnected. }
  assert (marked (Dev.Name d1) (Dev.Name d2) s1 = true) as Hm.
  { rewrite (marked_keeps _ _ _ _ Hk).
    apply markConnected_marked_iff; [done|]. right. by left. }
  pose proof (Hn dev1) as Hn1. pose proof (Hn dev2) as Hn2.
  rewrite H1 in Hn1. rewrite H2 in Hn2.
  destruct (devHeap s1 !! dev1) as [d1'|] eqn:E1; [|done].
  destruct (devHeap s1 !! dev2) as [d2'|] eqn:E2; [|done].
  simpl in Hn1, Hn2. injection Hn1 as Hn1. injection Hn2 as Hn2.
  split; [done|]. split.
  - rewrite (ConnectDevs_unfold _ _ _ _ _ _ _ E1 E2), Hn1, Hn2. by rewrite Hm.
  - rewrite (ConnectDevs_unfold _ _ _ _ _ _ _ E2 E1), Hn1, Hn2.
    by rewrite Hsym1, Hm.
Qed.

Lemma ConnectDevs_once_per_pair_witness :
  let s := Scenario.routers in
  let s1 := (ConnectDevs 0 1 true "netA" s).2 in
  devHeap s !! 0 = Some (Dev.mk RouterFrameClass "r1" [] "cisco" 0 []) ∧
  devHeap s !! 1 = Some (Dev.mk RouterFrameClass "r2" [] "cisco" 0 []) ∧
  indexSymmetric s ∧
  ConnectDevs 1 0 false "netB" s1 = (Ok tt, s1).
Proof.
  cbv zeta.
  assert (devHeap Scenario.routers !! 0
          = Some (Dev.mk RouterFrameClass "r1" [] "cisco" 0 [])) as H0
    by (vm_compute; reflexivity).
  assert (devHeap Scenario.routers !! 1
          = Some (Dev.mk RouterFrameClass "r2" [] "cisco" 0 [])) as H1
    by (vm_compute; reflexivity).
  assert (indexSymmetric Scenario.routers) as H2 by (intros a b; reflexivity).
  split; [exact H0|]. split; [exact H1|]. split; [exact H2|].
  exact (proj2 (proj2 (ConnectDevs_once_per_pair 0 1 _ _ true "netA" false "netB"
                         Scenario.routers H0 H1 H2))).
Defined.

(** ** Interfaces of a device *)

Lemma FacedBy_loop s (nm : string) l : liveIntrfcs s l → ∀ acc,
  for_in l (fun intrfc returnBool =>
    let* f := getIntrfc intrfc in
    if decide (Intrfc.Faces f = nm) then ret (Next true)
    else ret (Next returnBool)) acc s
  = (Ok (acc || bool_decide (nm ∈ facesOf s <$> l)), s).
Proof.
  induction 1 as [|x l [f Hf] Hl IH]; intros acc.
  - simpl. by rewrite orb_false_r.
  - assert (facesOf s x = Intrfc.Faces f) as Hx by (unfold facesOf; by rewrite Hf).
    cbn [for_in]. unfold bind at 1. unfold bind at 1, getIntrfc at 1. rewrite Hf.
    rewrite fmap_cons, Hx. destruct (decide (Intrfc.Faces f = nm)) as [E|E].
    + unfold ret at 1. rewrite IH.
      rewrite (bool_decide_eq_true_2 (nm ∈ _ :: _)) by (rewrite E; by left).
      by rewrite orb_true_r.
    + unfold ret at 1. rewrite IH. f_equal. f_equal. f_equal.
      apply bool_decide_ext. rewrite elem_of_cons.
      split; [tauto|]. intros [H|H]; [congruence|done].
Qed.

Lemma FacedBy_run s self dev n d :
  netHeap s !! self = Some n → devHeap s !! dev = Some d →
  liveIntrfcs s (Dev.Interfaces d) →
  FacedBy self dev s
  = (Ok (bool_decide (Net.Name n ∈ facesOf s <$> Dev.Interfaces d)), s).
Proof.
  intros Hn Hd Hl. unfold FacedBy, DevInterfaces.
  unfold bind at 1. unfold bind at 1, getDev at 1. rewrite Hd.
  unfold ret at 1. unfold bind at 1, getNet at 1. rewrite Hn.
  by rewrite (FacedBy_loop s (Net.Name n) _ Hl false).
Qed.

(** X3, FacedBy: for a network and a device whose interfaces are in the
    store, the call only reads, and it answers true exactly when one of the
    device's interfaces has the network's name as its Faces. *)
Theorem FacedBy_iff s self dev n d :
  netHeap s !! self = Some n → devHeap s !! dev = Some d →
  liveIntrfcs s (Dev.Interfaces d) →
  ∃ b, FacedBy self dev s = (Ok b, s) ∧
       (b = true ↔ ∃ i f, i ∈ Dev.Interfaces d ∧ intrfcHeap s !! i = Some f ∧
                          Intrfc.Faces f = Net.Name n).
Proof.
  intros Hn Hd Hl. eexists. split; [by apply FacedBy_run|].
  rewrite bool_decide_eq_true, list_elem_of_fmap. split.
  - intros (i & Hi & Hin). unfold liveIntrfcs in Hl.
    rewrite Forall_forall in Hl. destruct (Hl i Hin) as [f Hf].
    exists i, f. split; [done|]. split; [done|].
    unfold facesOf in Hi. by rewrite Hf in Hi.
  - intros (i & f & Hin & Hf & HF). exists i. split; [|done].
    unfold facesOf. by rewrite Hf.
Qed.

Lemma FacedBy_iff_witness :
  let s := Scenario.facingRouters in
  ∃ b, FacedBy 2 0 s = (Ok b, s) ∧
       (b = true ↔ ∃ i f, i ∈ [3] ∧ intrfcHeap s !! i = Some f ∧
                          Intrfc.Faces f = "netA").
Proof.
  cbv zeta.
  apply (FacedBy_iff _ 2 0 (Net.mk "netA" [] "LAN" "wired" [0; 1] [] [])
           (Dev.mk RouterFrameClass "r1" [] "cisco" 0 [3])).
  - vm_compute; reflexivity.
  - vm_compute; reflexivity.
  - apply Forall_singleton. vm_compute. eexists; reflexivity.
Defined.

Lemma AddIntrfc_loop s iff f (msg : Intrfc.t → string) l :
  intrfcHeap s !! iff = Some f → liveIntrfcs s l → ∀ acc,
  for_in l (fun ih (returnError : option string) =>
    let* same :=
      (if decide (ih = iff) then ret true
       else let* a := getIntrfc ih in
            let* b := getIntrfc iff in
            ret (bool_decide (Intrfc.Name a = Intrfc.Name b))) in
    if same then
      let* b := getIntrfc iff in
      ret (Next (Some (msg b)))
    else ret (Next returnError)) acc s
  = (Ok (if bool_decide (Intrfc.Name f ∈ intrfcName s <$> l) then Some (msg f) else acc),
     s).
Proof.
  intros Hf Hl. induction Hl as [|x l [a Ha] Hl IH]; intros acc; [done|].
  assert (intrfcName s x = Intrfc.Name a) as Hx
    by (unfold intrfcName; by rewrite Ha).
  cbn [for_in]. unfold bind at 1. unfold bind at 1.
  rewrite fmap_cons, Hx.
  destruct (decide (x = iff)) as [->|Hne].
  - unfold ret at 1. unfold bind at 1, getIntrfc at 1. rewrite Hf.
    unfold ret at 1. rewrite IH.
    assert (a = f) as -> by congruence.
    rewrite (bool_decide_eq_true_2 (Intrfc.Name f ∈ _ :: _)) by (by left).
    by destruct (bool_decide _).
  - unfold bind at 1, getIntrfc at 1. rewrite Ha.
    unfold bind at 1, getIntrfc at 1. rewrite Hf. unfold ret at 1.
    destruct (bool_decide (Intrfc.Name a = Intrfc.Name f)) eqn:E.
    + apply bool_decide_eq_true in E.
      unfold bind at 1, getIntrfc at 1. rewrite Hf. unfold ret at 1. rewrite IH.
      rewrite (bool_decide_eq_true_2 (Intrfc.Name f ∈ _ :: _))
        by (rewrite E; by left).
      by destruct (bool_decide _).
    + apply bool_decide_eq_false in E. unfold ret at 1. rewrite IH.
      f_equal. f_equal.
      rewrite (bool_decide_ext (Intrfc.Name f ∈ Intrfc.Name a :: _)
                 (Intrfc.Name f ∈ intrfcName s <$> l)); [done|].
      rewrite elem_of_cons. split; [|tauto]. intros [H|H]; [congruence|done].
Qed.

Lemma AddIntrfc_run s self iff d f :
  devHeap s !! self = Some d → intrfcHeap s !! iff = Some f →
  liveIntrfcs s (Dev.Interfaces d) →
  AddIntrfc self iff s
  = if bool_decide (Intrfc.Name f ∈ intrfcName s <$> Dev.Interfaces d)
    then (Ok (Some (reAddError d f)), s)
    else (Ok None, attached self iff d f s).
Proof.
  intros Hd Hf Hl. unfold AddIntrfc.
  unfold bind at 1, getDev at 1. rewrite Hd.
  unfold bind at 1, DevType at 1, bind at 1, getDev at 1. rewrite Hd.
  unfold ret at 1. cbv zeta. unfold bind at 1.
  rewrite (AddIntrfc_loop s iff f
             (fun b => "attempt to re-add interface " +:+ Intrfc.Name b +:+ " to "
                       +:+ match Dev.Class d with
                           | EndptFrameClass => "endpt"
                           | RouterFrameClass => "router"
                           | SwitchFrameClass => "switch"
                           end +:+ " " +:+ Dev.Name d) _ Hf Hl None).
  destruct (bool_decide _); [done|].
  unfold bind, updIntrfc, updDev, bind, getIntrfc, getDev, modify.
  rewrite Hf. simpl. by rewrite Hd.
Qed.



Lemma attached_lookups s self iff d f :
  devHeap (attached self iff d f s) !! self
  = Some (Dev.set_Interfaces (Dev.Interfaces d ++ [iff]) d) ∧
  intrfcHeap (attached self iff d f s) !! iff
  = Some (Intrfc.set_owner (devTypeOf d) (Dev.Name d) f) ∧
  netHeap (attached self iff d f s) = netHeap s.
Proof. unfold attached. simpl. by rewrite !lookup_insert_eq. Qed.

Lemma attached_live s self iff d f l :
  liveIntrfcs s l → liveIntrfcs (attached self iff d f s) l.
Proof.
  unfold liveIntrfcs, attached. simpl. intros Hl.
  eapply Forall_impl; [exact Hl|]. simpl. intros r [g Hg].
  destruct (decide (iff = r)) as [->|Hne].
  - rewrite lookup_insert_eq. by eexists.
  - rewrite lookup_insert_ne by done. by eexists.
Qed.

Lemma attached_intrfcName s self iff d f r :
  intrfcHeap s !! iff = Some f →
  intrfcName (attached self iff d f s) r = intrfcName s r.
Proof.
  intros Hf. unfold intrfcName, attached. simpl.
  destruct (decide (iff = r)) as [->|Hne].
  - by rewrite lookup_insert_eq, Hf.
  - by rewrite lookup_insert_ne by done.
Qed.

(** X5, after AddIntrfc has attached an interface: the device faces the
    network the interface names in Faces, and a second AddIntrfc of the
    same interface is refused and changes nothing. *)
Theorem AddIntrfc_then_faced s self iff d f net n :
  devHeap s !! self = Some d → intrfcHeap s !! iff = Some f →
  liveIntrfcs s (Dev.Interfaces d) →
  Intrfc.Name f ∉ intrfcName s <$> Dev.Interfaces d →
  netHeap s !! net = Some n → Intrfc.Faces f = Net.Name n →
  let s' := (AddIntrfc self iff s).2 in
  (AddIntrfc self iff s).1 = Ok None ∧
  FacedBy net self s' = (Ok true, s') ∧
  AddIntrfc self iff s' = (Ok (Some (reAddError d f)), s').
Proof.
  intros Hd Hf Hl Hin Hn HF. cbv zeta.
  rewrite (AddIntrfc_run s self iff d f Hd Hf Hl).
  rewrite bool_decide_eq_false_2 by done. cbn [fst snd].
  destruct (attached_lookups s self iff d f) as (Hd' & Hf' & Hn').
  assert (liveIntrfcs (attached self iff d f s) (Dev.Interfaces d ++ [iff])) as Hl'.
  { apply Forall_app. split; [by apply attached_live|].
    apply Forall_singleton. rewrite Hf'. by eexists. }
  split; [done|]. split.
  - rewrite (FacedBy_run _ net self n _ (eq_trans (f_equal (.!! net) Hn') Hn)
               Hd' Hl').
    rewrite bool_decide_eq_true_2; [done|]. simpl.
    rewrite fmap_app, elem_of_app. right. simpl.
    apply list_elem_of_singleton. unfold facesOf. rewrite Hf'. simpl. done.
  - rewrite (AddIntrfc_run _ self iff _ _ Hd' Hf' Hl').
    rewrite bool_decide_eq_true_2; [done|]. simpl.
    rewrite fmap_app, elem_of_app. right. simpl.
    apply list_elem_of_singleton. unfold intrfcName. rewrite Hf'. done.
Qed.

Lemma AddIntrfc_then_faced_witness :
  let s := (Scenario.intrfc "r1" "eth0" "Router" "wired" "netA" Scenario.routers).2 in
  let d := Dev.mk RouterFrameClass "r1" [] "cisco" 0 [] in
  let f := Intrfc.mk "eth0" [] "Router" "wired" "r1" None [] [] "netA" in
  let n := Net.mk "netA" [] "LAN" "wired" [] [] [] in
  let s' := (AddIntrfc 0 3 s).2 in
  devHeap s !! 0 = Some d ∧ intrfcHeap s !! 3 = Some f ∧
  liveIntrfcs s (Dev.Interfaces d) ∧
  (Intrfc.Name f ∉ intrfcName s <$> Dev.Interfaces d) ∧
  netHeap s !! 2 = Some n ∧ Intrfc.Faces f = Net.Name n ∧
  FacedBy 2 0 s' = (Ok true, s').
Proof.
  cbv zeta.
  set (s := (Scenario.intrfc "r1" "eth0" "Router" "wired" "netA" Scenario.routers).2).
  set (d := Dev.mk RouterFrameClass "r1" [] "cisco" 0 []).
  set (f := Intrfc.mk "eth0" [] "Router" "wired" "r1" None [] [] "netA").
  set (n := Net.mk "netA" [] "LAN" "wired" [] [] []).
  assert (devHeap s !! 0 = Some d) as H0 by (vm_compute; reflexivity).
  assert (intrfcHeap s !! 3 = Some f) as H1 by (vm_compute; reflexivity).
  assert (liveIntrfcs s (Dev.Interfaces d)) as H2 by apply Forall_nil_2.
  assert (Intrfc.Name f ∉ intrfcName s <$> Dev.Interfaces d) as H3
    by apply not_elem_of_nil.
  assert (netHeap s !! 2 = Some n) as H4 by (vm_compute; reflexivity).
  assert (Intrfc.Faces f = Net.Name n) as H5 by reflexivity.
  split; [exact H0|]. split; [exact H1|]. split; [exact H2|]. split; [exact H3|].
  split; [exact H4|]. split; [exact H5|].
  exact (proj1 (proj2 (AddIntrfc_then_faced s 0 3 d f 2 n H0 H1 H2 H3 H4 H5))).
Defined.

(** ** Groups of a device *)

Lemma existsb_tag (tag : string) (l : list string) :
  existsb (fun x => bool_decide (x = tag)) l = bool_decide (tag ∈ l).
Proof.
  induction l as [|x l IH]; [done|]. simpl. rewrite IH.
  destruct (decide (x = tag)) as [->|Hne].
  - rewrite (bool_decide_eq_true_2 (tag = tag)) by done. simpl.
    symmetry. apply bool_decide_eq_true. by left.
  - rewrite (bool_decide_eq_false_2 (x = tag)) by done. simpl.
    apply bool_decide_ext. rewrite elem_of_cons. split; [tauto|].
    intros [H|H]; [congruence|done].
Qed.

Lemma hasGroup_run s self d tag :
  devHeap s !! self = Some d →
  hasGroup tag self s = (Ok (bool_decide (tag ∈ Dev.Groups d)), s).
Proof.
  intros Hd. unfold hasGroup, bind, getDev. rewrite Hd. unfold ret.
  by rewrite existsb_tag.
Qed.

Lemma DevAddGroup_run s self d g :
  devHeap s !! self = Some d →
  DevAddGroup self g s
  = (Ok tt, set_devHeap (<[self := Dev_AddGroup g d]> (devHeap s)) s).
Proof.
  intros Hd. unfold DevAddGroup, updDev, bind, getDev, modify. by rewrite Hd.
Qed.

Lemma Dev_AddGroup_groups g d :
  Dev.Groups (Dev_AddGroup g d)
  = if decide (g ∈ Dev.Groups d) then Dev.Groups d else Dev.Groups d ++ [g].
Proof. unfold Dev_AddGroup. by destruct (decide _). Qed.

Lemma set_devHeap_same s : set_devHeap (devHeap s) s = s.
Proof. by destruct s. Qed.

(** X6, AddGroup of a device frame: the call returns, the name is in the
    device's Groups afterwards, the groups held before stay in place at the
    front, a list without repetition stays without repetition, name, model
    and interfaces are untouched, and a second call with the same name
    changes nothing. *)
Theorem DevAddGroup_spec s self d g :
  devHeap s !! self = Some d →
  ∃ s' d',
    DevAddGroup self g s = (Ok tt, s') ∧
    devHeap s' !! self = Some d' ∧
    g ∈ Dev.Groups d' ∧
    Dev.Groups d `prefix_of` Dev.Groups d' ∧
    (NoDup (Dev.Groups d) → NoDup (Dev.Groups d')) ∧
    (g ∈ Dev.Groups d → s' = s) ∧
    Dev.Name d' = Dev.Name d ∧ Dev.Class d' = Dev.Class d ∧
    Dev.Model d' = Dev.Model d ∧ Dev.Interfaces d' = Dev.Interfaces d ∧
    DevAddGroup self g s' = (Ok tt, s').
Proof.
  intros Hd. rewrite (DevAddGroup_run s self d g Hd).
  eexists _, (Dev_AddGroup g d). split; [reflexivity|].
  split; [simpl; apply lookup_insert_eq|].
  assert (g ∈ Dev.Groups (Dev_AddGroup g d)) as Hin.
  { rewrite Dev_AddGroup_groups. destruct (decide _); [done|].
    apply elem_of_app. right. by left. }
  split; [exact Hin|]. split.
  { rewrite Dev_AddGroup_groups. destruct (decide _); [done|].
    by apply prefix_app_r. }
  split.
  { rewrite Dev_AddGroup_groups. destruct (decide _) as [|Hn]; [done|].
    intros Hnd. apply NoDup_app. split; [done|].
    split; [|apply NoDup_singleton].
    intros x Hx Hx'. apply list_elem_of_singleton in Hx'. by subst. }
  split.
  { intros Hg. unfold Dev_AddGroup. rewrite decide_True by done.
    by rewrite insert_id, set_devHeap_same. }
  assert (∀ d0, Dev.Name (Dev_AddGroup g d0) = Dev.Name d0 ∧
                Dev.Class (Dev_AddGroup g d0) = Dev.Class d0 ∧
                Dev.Model (Dev_AddGroup g d0) = Dev.Model d0 ∧
                Dev.Interfaces (Dev_AddGroup g d0) = Dev.Interfaces d0) as Hsame.
  { intros d0. unfold Dev_AddGroup. by destruct (decide _). }
  destruct (Hsame d) as (-> & -> & -> & ->). repeat (split; [done|]).
  rewrite (DevAddGroup_run _ self (Dev_AddGroup g d) g)
    by (simpl; apply lookup_insert_eq).
  f_equal. simpl. unfold Dev_AddGroup at 1. rewrite decide_True by done.
  unfold set_devHeap. simpl. by rewrite insert_insert_eq.
Qed.

Lemma DevAddGroup_spec_witness :
  let s := Scenario.endpoints in
  devHeap s !! 0 = Some (Dev.mk EndptFrameClass "h1" [] "x86" 4 []) ∧
  ∃ s' d', DevAddGroup 0 "Host" s = (Ok tt, s') ∧
           devHeap s' !! 0 = Some d' ∧ "Host" ∈ Dev.Groups d'.
Proof.
  cbv zeta.
  assert (devHeap Scenario.endpoints !! 0
          = Some (Dev.mk EndptFrameClass "h1" [] "x86" 4 [])) as H0
    by (vm_compute; reflexivity).
  split; [exact H0|].
  destruct (DevAddGroup_spec Scenario.endpoints 0 _ "Host" H0)
    as (s' & d' & Hrun & Hd' & Hin & _).
  exists s', d'. split; [exact Hrun|]. split; [exact Hd'|exact Hin].
Defined.

Lemma hasGroup_after_AddGroup s self d g tag :
  devHeap s !! self = Some d →
  hasGroup tag self (DevAddGroup self g s).2
  = (Ok (bool_decide (tag ∈ Dev.Groups d) || bool_decide (tag = g)),
     (DevAddGroup self g s).2).
Proof.
  intros Hd. rewrite (DevAddGroup_run s self d g Hd). cbn [snd].
  rewrite (hasGroup_run _ self (Dev_AddGroup g d) tag)
    by (simpl; apply lookup_insert_eq).
  f_equal. f_equal. rewrite Dev_AddGroup_groups.
  destruct (decide (g ∈ Dev.Groups d)) as [Hg|Hg].
  - destruct (decide (tag = g)) as [->|Hne].
    + rewrite (bool_decide_eq_true_2 (g ∈ _)) by done. done.
    + rewrite (bool_decide_eq_false_2 (tag = g)) by done. by rewrite orb_false_r.
  - apply eq_true_iff_eq.
    rewrite orb_true_iff, !bool_decide_eq_true, elem_of_app,
      list_elem_of_singleton. tauto.
Qed.

(** X7, the tag methods of an endpoint: after SetEUD, IsEUD answers true
    and IsHost and IsSrver answer what they answered before; likewise
    SetHost with IsHost and SetSrvr with IsSrver. *)
Theorem endpoint_tags s self d :
  devHeap s !! self = Some d → Dev.Class d = EndptFrameClass →
  let eud := (SetEUD self s).2 in
  let host := (SetHost self s).2 in
  let srvr := (SetSrvr self s).2 in
  ((IsEUD self eud).1 = Ok true ∧
   (IsHost self eud).1 = (IsHost self s).1 ∧
   (IsSrver self eud).1 = (IsSrver self s).1) ∧
  ((IsHost self host).1 = Ok true ∧
   (IsEUD self host).1 = (IsEUD self s).1 ∧
   (IsSrver self host).1 = (IsSrver self s).1) ∧
  ((IsSrver self srvr).1 = Ok true ∧
   (IsEUD self srvr).1 = (IsEUD self s).1 ∧
   (IsHost self srvr).1 = (IsHost self s).1).
Proof.
  intros Hd _. cbv zeta. unfold IsEUD, IsHost, IsSrver, SetEUD, SetHost, SetSrvr.
  rewrite !(hasGroup_after_AddGroup s self d) by done.
  rewrite !(hasGroup_run s self d) by done. cbn [fst].
  rewrite !(bool_decide_eq_true_2 (_ = _)) by done.
  rewrite !(bool_decide_eq_false_2 (_ = _)) by done.
  by rewrite !orb_true_r, !orb_false_r.
Qed.

Lemma endpoint_tags_witness :
  let s := Scenario.endpoints in
  devHeap s !! 0 = Some (Dev.mk EndptFrameClass "h1" [] "x86" 4 []) ∧
  (IsEUD 0 (SetEUD 0 s).2).1 = Ok true.
Proof.
  cbv zeta.
  assert (devHeap Scenario.endpoints !! 0
          = Some (Dev.mk EndptFrameClass "h1" [] "x86" 4 [])) as H0
    by (vm_compute; reflexivity).
  split; [exact H0|].
  exact (proj1 (proj1 (endpoint_tags Scenario.endpoints 0 _ H0 eq_refl))).
Defined.

(** X8, the constructors of devices and networks never return.  In every
    state CreateEndpt and the constructors built on it (CreateHost,
    CreateSensor, CreateSrvr, CreateEUD) raise the TypeError of creating an
    instance of EndptFrameClass, which leaves DevAddIntrfc abstract;
    CreateSwitch, CreateHub, CreateBridge and CreateRepeater raise that of
    SwitchFrameClass and CreateNetwork that of NetworkFrameClass;
    CreateRouter raises UnboundLocalError at its counter; CreateNode raises
    the TypeError of its three-argument call of CreateEndpt.  Each leaves
    the state as it was: no object, no registry entry, no counter. *)
Theorem constructors_raise s name etype model cores netScale mediaType :
  let abstract cls :=
    TypeError ("Can't instantiate abstract class " +:+ cls +:+
               " with abstract method DevAddIntrfc") in
  CreateEndpt name etype model cores s = (Raise (abstract "EndptFrameClass"), s) ∧
  CreateHost name model cores s = (Raise (abstract "EndptFrameClass"), s) ∧
  CreateSensor name model s = (Raise (abstract "EndptFrameClass"), s) ∧
  CreateSrvr name model cores s = (Raise (abstract "EndptFrameClass"), s) ∧
  CreateEUD name model cores s = (Raise (abstract "EndptFrameClass"), s) ∧
  CreateNode name model cores s
  = (Raise (TypeError "CreateEndpt() missing 1 required positional argument: 'cores'"),
     s) ∧
  CreateSwitch name model s = (Raise (abstract "SwitchFrameClass"), s) ∧
  CreateHub name model s = (Raise (abstract "SwitchFrameClass"), s) ∧
  CreateBridge name model s = (Raise (abstract "SwitchFrameClass"), s) ∧
  CreateRepeater name model s = (Raise (abstract "SwitchFrameClass"), s) ∧
  CreateNetwork name netScale mediaType s
  = (Raise (abstract "NetworkFrameClass"), s) ∧
  CreateRouter name model s = (Raise (UnboundLocalError "numberOfRouters"), s).
Proof. cbv zeta. repeat apply conj; reflexivity. Qed.

(** ** CarryIntrfcFrames *)

Lemma carryNamed_run s (nm : string) l :
  liveIntrfcs s l →
  carryNamed nm l s = (Ok (bool_decide (nm ∈ intrfcName s <$> l)), s).
Proof.
  intros Hl. unfold carryNamed. induction Hl as [|x l [a Ha] Hl IH]; [done|].
  assert (intrfcName s x = Intrfc.Name a) as Hx
    by (unfold intrfcName; by rewrite Ha).
  cbn [for_in]. unfold bind at 1. unfold bind at 1, getIntrfc at 1. rewrite Ha.
  rewrite fmap_cons, Hx. destruct (decide (Intrfc.Name a = nm)) as [E|E].
  - rewrite bool_decide_eq_true_2; [done|]. rewrite E. by left.
  - unfold ret at 1. rewrite IH. f_equal. f_equal. apply bool_decide_ext.
    rewrite elem_of_cons. split; [tauto|]. intros [H|H]; [congruence|done].
Qed.

Lemma set_intrfcHeap_same s : set_intrfcHeap (intrfcHeap s) s = s.
Proof. by destruct s. Qed.

Lemma carryAdd_cases i j s f :
  intrfcHeap s !! i = Some f →
  ((intrfcName s j ∈ intrfcName s <$> Intrfc.Carry f) ∧ carryAdd i j s = s) ∨
  ((intrfcName s j ∉ intrfcName s <$> Intrfc.Carry f) ∧
   carryAdd i j s
   = set_intrfcHeap
       (<[i := Intrfc.set_Carry (Intrfc.Carry f ++ [j]) f]> (intrfcHeap s)) s).
Proof.
  intros Hf. unfold carryAdd. rewrite Hf.
  destruct (decide (intrfcName s j ∈ intrfcName s <$> Intrfc.Carry f)).
  - left. by rewrite bool_decide_eq_true_2.
  - right. by rewrite bool_decide_eq_false_2.
Qed.

Lemma carryAdd_lookup i j s r :
  intrfcHeap (carryAdd i j s) !! r
  = if decide (r = i)
    then (fun f => if bool_decide (intrfcName s j ∈ intrfcName s <$> Intrfc.Carry f)
                   then f else Intrfc.set_Carry (Intrfc.Carry f ++ [j]) f)
         <$> intrfcHeap s !! i
    else intrfcHeap s !! r.
Proof.
  unfold carryAdd. destruct (intrfcHeap s !! i) as [f|] eqn:Hf.
  - cbn [fmap option_fmap option_map].
    destruct (bool_decide _); simpl.
    + destruct (decide (r = i)) as [->|]; [by rewrite Hf|done].
    + destruct (decide (r = i)) as [->|Hne].
      * by rewrite lookup_insert_eq.
      * by rewrite lookup_insert_ne.
  - destruct (decide (r = i)) as [->|]; [by rewrite Hf|done].
Qed.

Lemma carryAdd_intrfcName i j s r :
  intrfcName (carryAdd i j s) r = intrfcName s r.
Proof.
  unfold intrfcName. rewrite carryAdd_lookup.
  destruct (decide (r = i)) as [->|]; [|done].
  destruct (intrfcHeap s !! i) as [f|]; [|done]. simpl.
  by destruct (bool_decide _).
Qed.

Lemma carryAdd_live i j s r :
  is_Some (intrfcHeap s !! r) → is_Some (intrfcHeap (carryAdd i j s) !! r).
Proof.
  rewrite carryAdd_lookup. destruct (decide (r = i)) as [->|]; [|done].
  intros [f ->]. by eexists.
Qed.

Lemma carryAdd_closed i j s :
  is_Some (intrfcHeap s !! j) → carryClosed s → carryClosed (carryAdd i j s).
Proof.
  intros Hj Hc r f Hr. rewrite carryAdd_lookup in Hr.
  assert (∀ l, liveIntrfcs s l → liveIntrfcs (carryAdd i j s) l) as Hlive.
  { intros l Hl. eapply Forall_impl; [exact Hl|]. intros x. apply carryAdd_live. }
  destruct (decide (r = i)) as [->|].
  - destruct (intrfcHeap s !! i) as [f0|] eqn:Hf0; [|done].
    simpl in Hr. injection Hr as <-.
    destruct (bool_decide _); [by apply Hlive, (Hc i)|].
    simpl. apply Forall_app. split; [by apply Hlive, (Hc i)|].
    apply Forall_singleton. by apply carryAdd_live.
  - by apply Hlive, (Hc r).
Qed.

Lemma carryAdd_carries i j s :
  is_Some (intrfcHeap s !! i) → carries (carryAdd i j s) i j.
Proof.
  intros [f Hf]. unfold carries. rewrite carryAdd_lookup, decide_True, Hf by done.
  simpl. eexists. split; [reflexivity|].
  rewrite carryAdd_intrfcName.
  rewrite (list_fmap_ext _ (intrfcName s)) by (intros; apply carryAdd_intrfcName).
  destruct (bool_decide _) eqn:E.
  - by apply bool_decide_eq_true in E.
  - simpl. rewrite fmap_app, elem_of_app. right. by left.
Qed.

Lemma carryAdd_mono i j s a b : carries s a b → carries (carryAdd i j s) a b.
Proof.
  intros (f & Hf & Hin). unfold carries. rewrite carryAdd_lookup.
  rewrite carryAdd_intrfcName.
  destruct (decide (a = i)) as [->|].
  - rewrite Hf. simpl. eexists. split; [reflexivity|].
    rewrite (list_fmap_ext _ (intrfcName s)) by (intros; apply carryAdd_intrfcName).
    destruct (bool_decide _); [done|].
    simpl. rewrite fmap_app, elem_of_app. by left.
  - exists f. split; [done|].
    by rewrite (list_fmap_ext _ (intrfcName s))
      by (intros; apply carryAdd_intrfcName).
Qed.

Lemma carryAdd_id i j s : carries s i j → carryAdd i j s = s.
Proof.
  intros (f & Hf & Hin). unfold carryAdd. rewrite Hf.
  by rewrite bool_decide_eq_true_2.
Qed.

Lemma CarryIntrfcFrames_run s i1 i2 :
  carryClosed s → is_Some (intrfcHeap s !! i1) → is_Some (intrfcHeap s !! i2) →
  CarryIntrfcFrames i1 i2 s = (Ok tt, carryAdd i2 i1 (carryAdd i1 i2 s)).
Proof.
  intros Hc [f1 H1] [f2 H2]. unfold CarryIntrfcFrames.
  unfold bind at 1, getIntrfc at 1. rewrite H1.
  unfold bind at 1, getIntrfc at 1. rewrite H2.
  unfold bind at 1. rewrite (carryNamed_run s _ _ (Hc _ _ H1)).
  assert (intrfcName s i2 = Intrfc.Name f2) as Hn2
    by (unfold intrfcName; by rewrite H2).
  assert (intrfcName s i1 = Intrfc.Name f1) as Hn1
    by (unfold intrfcName; by rewrite H1).
  set (s1 := carryAdd i1 i2 s).
  assert (is_Some (intrfcHeap s1 !! i1)) as [f1' H1']
    by (apply carryAdd_live; by eexists).
  assert (is_Some (intrfcHeap s1 !! i2)) as [f2' H2']
    by (apply carryAdd_live; by eexists).
  assert (carryClosed s1) as Hc1 by (apply carryAdd_closed; [by eexists|done]).
  assert (intrfcName s1 i1 = Intrfc.Name f1') as Hn1'
    by (unfold intrfcName; by rewrite H1').
  assert ((if bool_decide (Intrfc.Name f2 ∈ intrfcName s <$> Intrfc.Carry f1)
           then ret ()
           else updIntrfc i1
                  (λ f, Intrfc.set_Carry (Intrfc.Carry f ++ [i2]) f)) s
          = (Ok tt, s1)) as Hstep1.
  { subst s1. destruct (carryAdd_cases i1 i2 s f1 H1) as [[Hin ->]|[Hin ->]];
      rewrite Hn2 in Hin.
    - by rewrite bool_decide_eq_true_2.
    - rewrite bool_decide_eq_false_2 by done.
      unfold updIntrfc, bind, getIntrfc, modify. by rewrite H1. }
  unfold bind at 1. rewrite Hstep1.
  unfold bind at 1, getIntrfc at 1. rewrite H2'.
  unfold bind at 1, getIntrfc at 1. rewrite H1'.
  unfold bind at 1. rewrite (carryNamed_run s1 _ _ (Hc1 _ _ H2')).
  destruct (carryAdd_cases i2 i1 s1 f2' H2') as [[Hin ->]|[Hin ->]];
    rewrite Hn1' in Hin.
  - by rewrite bool_decide_eq_true_2.
  - rewrite bool_decide_eq_false_2 by done.
    unfold updIntrfc, bind, getIntrfc, modify. by rewrite H2'.
Qed.

(** X9, CarryIntrfcFrames, in a store whose Carry lists hold objects of the
    store: the call returns, afterwards each of the two interfaces carries
    the other (by name), whatever was carried before is still carried, and
    a second call changes nothing. *)
Theorem CarryIntrfcFrames_symmetric s i1 i2 :
  carryClosed s → is_Some (intrfcHeap s !! i1) → is_Some (intrfcHeap s !! i2) →
  ∃ s', CarryIntrfcFrames i1 i2 s = (Ok tt, s') ∧
        carries s' i1 i2 ∧ carries s' i2 i1 ∧
        (∀ i j, carries s i j → carries s' i j) ∧
        CarryIntrfcFrames i1 i2 s' = (Ok tt, s').
Proof.
  intros Hc H1 H2. eexists. split; [by apply CarryIntrfcFrames_run|].
  assert (carries (carryAdd i2 i1 (carryAdd i1 i2 s)) i1 i2) as C12
    by (apply carryAdd_mono, carryAdd_carries; done).
  assert (carries (carryAdd i2 i1 (carryAdd i1 i2 s)) i2 i1) as C21
    by (apply carryAdd_carries, carryAdd_live; done).
  split; [done|]. split; [done|]. split.
  - intros i j Hij. by apply carryAdd_mono, carryAdd_mono.
  - rewrite CarryIntrfcFrames_run.
    + rewrite (carryAdd_id i1 i2) by done. by rewrite (carryAdd_id i2 i1).
    + apply carryAdd_closed; [by apply carryAdd_live|].
      by apply carryAdd_closed.
    + by apply carryAdd_live, carryAdd_live.
    + by apply carryAdd_live, carryAdd_live.
Qed.

Lemma halfCarried_closed : carryClosed Scenario.halfCarried.
Proof.
  assert (intrfcHeap Scenario.halfCarried
          = <[3 := Intrfc.mk "r1.eth0" [] "Router" "wired" "r1" None [4] [] "netA"]>
              (<[4 := Intrfc.mk "r2.eth0" [] "Router" "wired" "r2" None [] [] "netA"]>
                 ∅)) as Hheap by (vm_compute; reflexivity).
  intros i f Hi. rewrite Hheap in Hi. unfold liveIntrfcs. rewrite Hheap.
  destruct (decide (i = 3)) as [->|H3].
  - rewrite lookup_insert_eq in Hi. injection Hi as <-. simpl.
    apply Forall_singleton. rewrite lookup_insert_ne, lookup_insert_eq by done.
    by eexists.
  - rewrite lookup_insert_ne in Hi by done.
    destruct (decide (i = 4)) as [->|H4].
    + rewrite lookup_insert_eq in Hi. injection Hi as <-. apply Forall_nil_2.
    + by rewrite lookup_insert_ne in Hi.
Defined.

Lemma CarryIntrfcFrames_symmetric_witness :
  let s := Scenario.halfCarried in
  carryClosed s ∧ is_Some (intrfcHeap s !! 3) ∧ is_Some (intrfcHeap s !! 4) ∧
  ∃ s', CarryIntrfcFrames 3 4 s = (Ok tt, s') ∧ carries s' 3 4 ∧ carries s' 4 3.
Proof.
  cbv zeta.
  assert (is_Some (intrfcHeap Scenario.halfCarried !! 3)) as H3
    by (vm_compute; eexists; reflexivity).
  assert (is_Some (intrfcHeap Scenario.halfCarried !! 4)) as H4
    by (vm_compute; eexists; reflexivity).
  split; [exact halfCarried_closed|]. split; [exact H3|]. split; [exact H4|].
  destruct (CarryIntrfcFrames_symmetric Scenario.halfCarried 3 4
              halfCarried_closed H3 H4) as (s' & Hrun & C1 & C2 & _).
  exists s'. split; [exact Hrun|]. split; [exact C1|exact C2].
Defined.

(** ** Admission without a new interface *)

Lemma present_loop s dev d l : live s l → devHeap s !! dev = Some d → ∀ acc,
  for_in l (fun inList returnBool =>
    let* a := getDev inList in
    let* b := getDev dev in
    if decide (Dev.Name a = Dev.Name b) then ret (Next true)
    else ret (Next returnBool)) acc s
  = (Ok (acc || bool_decide (Dev.Name d ∈ nameOf s <$> l)), s).
Proof.
  intros Hl Hd. induction Hl as [|x l [a Ha] Hl IH]; intros acc.
  - simpl. by rewrite orb_false_r.
  - assert (nameOf s x = Dev.Name a) as Hx by (unfold nameOf; by rewrite Ha).
    cbn [for_in]. unfold bind at 1. unfold bind at 1, getDev at 1. rewrite Ha.
    unfold bind at 1, getDev at 1. rewrite Hd.
    rewrite fmap_cons, Hx. destruct (decide (Dev.Name a = Dev.Name d)) as [E|E].
    + unfold ret at 1. rewrite IH.
      rewrite (bool_decide_eq_true_2 (Dev.Name d ∈ _ :: _)) by (rewrite E; by left).
      by rewrite orb_true_r.
    + unfold ret at 1. rewrite IH. f_equal. f_equal. f_equal.
      apply bool_decide_ext. rewrite elem_of_cons.
      split; [tauto|]. intros [H|H]; [congruence|done].
Qed.

Lemma IncludeDev_run s self dev n d mediaType chkIntrfc :
  netHeap s !! self = Some n → devHeap s !! dev = Some d →
  liveIntrfcs s (Dev.Interfaces d) →
  live s (Net.Endpts n) → live s (Net.Routers n) →
  Dev.Class d ≠ SwitchFrameClass →
  ¬ (mediaType = "wireless" ∧ Net.MediaType n ≠ "wireless") →
  (chkIntrfc = true → Net.Name n ∈ facesOf s <$> Dev.Interfaces d) →
  IncludeDev self dev mediaType chkIntrfc s
  = (Ok None, set_netHeap (<[self := withMember s dev d n]> (netHeap s)) s).
Proof.
  intros Hn Hd Hli Hle Hlr Hc Hm Hf. unfold IncludeDev.
  unfold bind at 1, DevName at 1, bind at 1, getDev at 1. rewrite Hd.
  unfold bind at 1, ret at 1.
  unfold bind at 1, DevType at 1, bind at 1, getDev at 1. rewrite Hd.
  unfold bind at 1, ret at 1.
  unfold bind at 1, getNet at 1. rewrite Hn.
  cbv zeta. rewrite decide_False by done.
  assert ((if chkIntrfc then FacedBy self dev else ret true) s = (Ok true, s))
    as Hfaced.
  { destruct chkIntrfc; [|done].
    rewrite (FacedBy_run s self dev n d Hn Hd Hli).
    by rewrite bool_decide_eq_true_2 by auto. }
  unfold bind at 1. rewrite Hfaced.
  rewrite andb_false_r. unfold bind at 1, ret at 1.
  assert (set_netHeap (<[self := n]> (netHeap s)) s = s) as Hsame
    by (by rewrite insert_id, set_netHeap_same).
  unfold withMember.
  destruct (Dev.Class d) eqn:Ecl; [| |done].
  - rewrite decide_True by done.
    unfold bind at 1, ret at 1.
    unfold bind at 1, getNet at 1. rewrite Hn.
    unfold bind at 1, endptPresent at 1.
    rewrite (present_loop s dev d _ Hle Hd false). cbn [orb].
    destruct (decide (Dev.Name d ∈ nameOf s <$> Net.Endpts n)) as [Hin|Hin].
    + rewrite bool_decide_eq_true_2 by done. by rewrite Hsame.
    + rewrite bool_decide_eq_false_2 by done.
      unfold bind, updNet, bind, getNet, modify. by rewrite Hn.
  - rewrite decide_False by done. rewrite decide_True by done.
    unfold bind at 1, ret at 1.
    unfold bind at 1, getNet at 1. rewrite Hn.
    unfold bind at 1, routerPresent at 1.
    rewrite (present_loop s dev d _ Hlr Hd false). cbn [orb].
    destruct (decide (Dev.Name d ∈ nameOf s <$> Net.Routers n)) as [Hin|Hin].
    + rewrite bool_decide_eq_true_2 by done. by rewrite Hsame.
    + rewrite bool_decide_eq_false_2 by done.
      unfold bind, updNet, bind, getNet, modify. by rewrite Hn.
Qed.

Lemma withMember_fields s dev d n :
  Net.Name (withMember s dev d n) = Net.Name n ∧
  Net.MediaType (withMember s dev d n) = Net.MediaType n ∧
  Net.Switches (withMember s dev d n) = Net.Switches n.
Proof.
  unfold withMember. destruct (Dev.Class d); try done;
    by destruct (decide _).
Qed.

Lemma withMember_again s dev d n :
  devHeap s !! dev = Some d →
  withMember s dev d (withMember s dev d n) = withMember s dev d n.
Proof.
  intros Hd.
  assert (nameOf s dev = Dev.Name d) as Hnm by (unfold nameOf; by rewrite Hd).
  unfold withMember. destruct (Dev.Class d); [| |done].
  - destruct (decide (Dev.Name d ∈ nameOf s <$> Net.Endpts n)) as [Hin|Hin].
    + by rewrite decide_True.
    + simpl. rewrite decide_True; [done|].
      rewrite fmap_app, elem_of_app. right. simpl. rewrite Hnm. by left.
  - destruct (decide (Dev.Name d ∈ nameOf s <$> Net.Routers n)) as [Hin|Hin].
    + by rewrite decide_True.
    + simpl. rewrite decide_True; [done|].
      rewrite fmap_app, elem_of_app. right. simpl. rewrite Hnm. by left.
Qed.

Lemma withMember_live s dev d n :
  is_Some (devHeap s !! dev) →
  live s (Net.Endpts n) → live s (Net.Routers n) →
  live s (Net.Endpts (withMember s dev d n)) ∧
  live s (Net.Routers (withMember s dev d n)).
Proof.
  intros Hd He Hr. unfold withMember. destruct (Dev.Class d); [| |done].
  - destruct (decide _); [done|]. simpl. split; [|done].
    apply Forall_app. split; [done|]. by apply Forall_singleton.
  - destruct (decide _); [done|]. simpl. split; [done|].
    apply Forall_app. split; [done|]. by apply Forall_singleton.
Qed.

(** X10, IncludeDev on an endpoint or a router that needs no new interface
    (none is asked for, or the device faces the network already), with a
    media type the network accepts: the call returns no error; the device
    is appended to Endpts, or to Routers, unless a device of its name is in
    that list; devices and interfaces are untouched; and a second call
    changes nothing. *)
Theorem IncludeDev_member s self dev n d mediaType chkIntrfc :
  netHeap s !! self = Some n → devHeap s !! dev = Some d →
  liveIntrfcs s (Dev.Interfaces d) →
  live s (Net.Endpts n) → live s (Net.Routers n) →
  Dev.Class d ≠ SwitchFrameClass →
  ¬ (mediaType = "wireless" ∧ Net.MediaType n ≠ "wireless") →
  (chkIntrfc = true → Net.Name n ∈ facesOf s <$> Dev.Interfaces d) →
  ∃ s', IncludeDev self dev mediaType chkIntrfc s = (Ok None, s') ∧
        netHeap s' = <[self := withMember s dev d n]> (netHeap s) ∧
        devHeap s' = devHeap s ∧ intrfcHeap s' = intrfcHeap s ∧
        IncludeDev self dev mediaType chkIntrfc s' = (Ok None, s').
Proof.
  intros Hn Hd Hli Hle Hlr Hc Hm Hf.
  rewrite (IncludeDev_run s self dev n d mediaType chkIntrfc) by done.
  eexists. split; [reflexivity|]. split; [done|]. split; [done|]. split; [done|].
  set (s' := set_netHeap (<[self := withMember s dev d n]> (netHeap s)) s).
  destruct (withMember_fields s dev d n) as (HN & HM & _).
  destruct (withMember_live s dev d n (ex_intro _ d Hd) Hle Hlr) as [Hle' Hlr'].
  rewrite (IncludeDev_run s' self dev (withMember s dev d n) d mediaType chkIntrfc);
    try done.
  - change (withMember s' dev d) with (withMember s dev d).
    rewrite withMember_again by done.
    subst s'. unfold set_netHeap. simpl. by rewrite insert_insert_eq.
  - subst s'. simpl. apply lookup_insert_eq.
  - by rewrite HM.
  - by rewrite HN.
Qed.

Lemma IncludeDev_member_witness :
  let s := Scenario.endpoints in
  let n := Net.mk "netA" [] "LAN" "wired" [] [] [] in
  let d := Dev.mk EndptFrameClass "h1" [] "x86" 4 [] in
  netHeap s !! 2 = Some n ∧ devHeap s !! 0 = Some d ∧
  ∃ s', IncludeDev 2 0 "wired" false s = (Ok None, s') ∧
        netHeap s' = <[2 := Net.mk "netA" [] "LAN" "wired" [] [0] []]> (netHeap s).
Proof.
  cbv zeta.
  set (n := Net.mk "netA" [] "LAN" "wired" [] [] []).
  set (d := Dev.mk EndptFrameClass "h1" [] "x86" 4 []).
  assert (netHeap Scenario.endpoints !! 2 = Some n) as H0
    by (vm_compute; reflexivity).
  assert (devHeap Scenario.endpoints !! 0 = Some d) as H1
    by (vm_compute; reflexivity).
  assert (liveIntrfcs Scenario.endpoints (Dev.Interfaces d)) as H2
    by apply Forall_nil_2.
  assert (live Scenario.endpoints (Net.Endpts n)) as H3 by apply Forall_nil_2.
  assert (live Scenario.endpoints (Net.Routers n)) as H4 by apply Forall_nil_2.
  assert (Dev.Class d ≠ SwitchFrameClass) as H5 by discriminate.
  assert (¬ ("wired" = "wireless" ∧ Net.MediaType n ≠ "wireless")) as H6
    by (intros [? _]; discriminate).
  assert (false = true → Net.Name n ∈ facesOf Scenario.endpoints <$> Dev.Interfaces d)
    as H7 by discriminate.
  split; [exact H0|]. split; [exact H1|].
  destruct (IncludeDev_member Scenario.endpoints 2 0 n d "wired" false
              H0 H1 H2 H3 H4 H5 H6 H7) as (s' & Hrun & Hnet & _).
  exists s'. split; [exact Hrun|exact Hnet].
Defined.

(** ** Device descriptions and execution timings *)

Section DictionaryProperties.
Context {float : Type}.

(** X11, AddDevDesc then RecoverDevDesc: a description is recovered under
    its manufacturer followed by its model; every other name recovers what
    it recovered before; a name that was never added raises, as does every
    name on a new dictionary. *)
Theorem DevDesc_round_trip (self : DevDescDict float) (dd : DevDesc float) :
  RecoverDevDesc (AddDevDesc self dd) (dd_manufacturer dd +:+ dd_model dd) = inl dd ∧
  (∀ name, name ≠ dd_manufacturer dd +:+ dd_model dd →
           RecoverDevDesc (AddDevDesc self dd) name = RecoverDevDesc self name) ∧
  (∀ name, ddd_DescMap self !! name = None →
           RecoverDevDesc self name = inr (AttributeError "os" "exit")) ∧
  (∀ dictName name,
     RecoverDevDesc (CreateDevDescDict (float := float) dictName) name
     = inr (AttributeError "os" "exit")).
Proof.
  unfold RecoverDevDesc, AddDevDesc, CreateDevDescDict. simpl.
  split; [by rewrite lookup_insert_eq|]. split.
  - intros name Hne. by rewrite lookup_insert_ne.
  - split; [by intros name ->|]. intros. by rewrite lookup_empty.
Qed.

(** X12, the key of AddDevDesc does not separate manufacturer from model:
    when two descriptions give the same concatenation, adding the second
    replaces the first, which can no longer be recovered. *)
Theorem DevDesc_key_collision (self : DevDescDict float) (dd1 dd2 : DevDesc float) :
  dd_manufacturer dd1 +:+ dd_model dd1 = dd_manufacturer dd2 +:+ dd_model dd2 →
  AddDevDesc (AddDevDesc self dd1) dd2 = AddDevDesc self dd2 ∧
  RecoverDevDesc (AddDevDesc (AddDevDesc self dd1) dd2)
    (dd_manufacturer dd1 +:+ dd_model dd1) = inl dd2.
Proof.
  intros Hkey. unfold RecoverDevDesc, AddDevDesc. simpl. rewrite Hkey.
  by rewrite insert_insert_eq, lookup_insert_eq.
Qed.

Lemma AddTiming_times (self : DevExecList float) devOp model execTime op :
  del_times (AddTiming self devOp model execTime) !! op
  = if decide (op = devOp)
    then Some (default [] (del_times self !! devOp)
               ++ [mkDevExecDesc devOp model execTime])
    else del_times self !! op.
Proof.
  unfold AddTiming. simpl. destruct (decide (op = devOp)) as [->|Hne].
  - rewrite lookup_insert_eq. destruct (del_times self !! devOp) eqn:E.
    + by rewrite E.
    + by rewrite lookup_insert_eq.
  - rewrite lookup_insert_ne by done.
    destruct (del_times self !! devOp); [done|]. by rewrite lookup_insert_ne.
Qed.

Lemma AddTimings_times calls : ∀ (self : DevExecList float) op,
  default [] (del_times (AddTimings self calls) !! op)
  = default [] (del_times self !! op) ++ timingsFor op calls.
Proof.
  induction calls as [|c calls IH]; intros self op.
  - simpl. by rewrite app_nil_r.
  - unfold AddTimings. cbn [foldl]. fold (AddTimings (float := float)).
    change (foldl _ ?d calls) with (AddTimings d calls).
    rewrite IH, AddTiming_times. unfold timingsFor. rewrite filter_cons.
    destruct (decide (op = ded_devop c)) as [->|Hne].
    + rewrite decide_True by done. simpl. rewrite <- app_assoc. simpl.
      by destruct c.
    + rewrite decide_False by done. done.
Qed.

(** X13, AddTiming: after any sequence of calls on a new list, the timings
    stored under an operation are exactly the timings that were added for
    it, in the order of the calls, and an operation has an entry exactly
    when a timing was added for it. *)
Theorem AddTimings_spec listname (calls : list (DevExecDesc float)) op :
  let del := AddTimings (CreateDevExecList listname) calls in
  default [] (del_times del !! op) = timingsFor op calls ∧
  (is_Some (del_times del !! op) ↔ timingsFor op calls ≠ []) ∧
  del_listname del = listname.
Proof.
  cbv zeta. split; [by rewrite AddTimings_times|]. split.
  - assert (∀ (self : DevExecList float),
      is_Some (del_times (AddTimings self calls) !! op) ↔
      is_Some (del_times self !! op) ∨ timingsFor op calls ≠ []) as H.
    { induction calls as [|c calls IH]; intros self.
      - simpl. unfold timingsFor. rewrite filter_nil. tauto.
      - unfold AddTimings. cbn [foldl].
        change (foldl _ ?d calls) with (AddTimings d calls).
        rewrite IH, AddTiming_times. unfold timingsFor. rewrite filter_cons.
        destruct (decide (op = ded_devop c)) as [->|Hne].
        + rewrite decide_True by done. split; [|intros _; left; by eexists].
          intros _. right. done.
        + rewrite decide_False by done. done. }
    rewrite H. simpl. rewrite lookup_empty. split; [|by right].
    intros [[? ?]|?]; done.
  - induction calls as [|c calls IH] using rev_ind; [done|].
    unfold AddTimings. by rewrite foldl_app.
Qed.

End DictionaryProperties.

Lemma DevDesc_key_collision_witness :
  let dd1 := mkDevDesc ["Router"] "ab" "c" 4 1%Z 2%Z in
  let dd2 := mkDevDesc ["Switch"] "a" "bc" 8 3%Z 4%Z in
  dd_manufacturer dd1 +:+ dd_model dd1 = dd_manufacturer dd2 +:+ dd_model dd2 ∧
  RecoverDevDesc (AddDevDesc (AddDevDesc (CreateDevDescDict "d") dd1) dd2) "abc"
  = inl dd2.
Proof.
  cbv zeta.
  assert ("ab" +:+ "c" = "a" +:+ "bc") as H by reflexivity.
  split; [exact H|].
  exact (proj2 (DevDesc_key_collision (CreateDevDescDict "d")
                  (mkDevDesc ["Router"] "ab" "c" 4 1%Z 2%Z)
                  (mkDevDesc ["Switch"] "a" "bc" 8 3%Z 4%Z) H)).
Defined.

(** ** Consolidation, again *)

Lemma Consolidate_run s tf :
  Topo.Networks tf ≠ [] → topoLive s tf →
  Consolidate tf s = (Ok (None, consolidated s tf), s).
Proof.
  intros Hn Hl. unfold Consolidate.
  rewrite decide_False by (by destruct (Topo.Networks tf)).
  cbv zeta. unfold bind at 1.
  set (tf0 := Topo.set_Switches [] (Topo.set_Routers [] (Topo.set_Endpts [] tf))).
  destruct (consolidate_loop s (Topo.Networks tf0) tf0)
    as (tf' & Hrun & H1 & H2 & H3 & H4 & H5);
    [exact Hl|apply Forall_nil_2..|].
  rewrite Hrun. simpl in H1, H2, H3, H4, H5. unfold ret. f_equal. f_equal. f_equal.
  unfold consolidated, members, uniqueByName.
  destruct tf'. simpl in *. by subst.
Qed.

(** X14, Consolidate reaches a fixed point and forgets the old lists: on a
    topology with a network, whose objects are in the store, the result
    depends only on the name and the networks of the topology, not on the
    Endpts, Routers and Switches it held, and consolidating the result
    again gives the same result. *)
Theorem Consolidate_idempotent s tf endpts routers switches :
  Topo.Networks tf ≠ [] → topoLive s tf →
  ∃ tf', Consolidate tf s = (Ok (None, tf'), s) ∧
         Consolidate tf' s = (Ok (None, tf'), s) ∧
         Consolidate (Topo.mk (Topo.Name tf) endpts (Topo.Networks tf) routers switches) s
         = (Ok (None, tf'), s).
Proof.
  intros Hn Hl. exists (consolidated s tf).
  split; [by apply Consolidate_run|]. split.
  - by rewrite Consolidate_run.
  - by rewrite Consolidate_run.
Qed.

Lemma Consolidate_idempotent_witness :
  let tf := Topo.mk "topo" [7] [2; 3] [8] [9] in
  Topo.Networks tf ≠ [] ∧ topoLive Scenario.twoNetworks tf ∧
  ∃ tf', Consolidate tf Scenario.twoNetworks = (Ok (None, tf'), Scenario.twoNetworks) ∧
         Consolidate tf' Scenario.twoNetworks = (Ok (None, tf'), Scenario.twoNetworks).
Proof.
  cbv zeta.
  assert (Topo.Networks (Topo.mk "topo" [7] [2; 3] [8] [9]) ≠ []) as Hne
    by discriminate.
  split; [exact Hne|]. split; [exact twoNetworks_live|].
  destruct (Consolidate_idempotent Scenario.twoNetworks
              (Topo.mk "topo" [7] [2; 3] [8] [9]) [] [] [] Hne twoNetworks_live)
    as (tf' & H1 & H2 & _).
  exists tf'. split; [exact H1|exact H2].
Defined.

(** ** Default names *)

Lemma String_length_app s1 s2 :
  String.length (s1 +:+ s2) = String.length s1 + String.length s2.
Proof. induction s1 as [|c s1 IH]; simpl; [done|]. by rewrite IH. Qed.

Lemma String_app_inj_r t s1 : ∀ s2, s1 +:+ t = s2 +:+ t → s1 = s2.
Proof.
  induction s1 as [|c s1 IH]; intros [|c2 s2] H.
  - done.
  - apply (f_equal String.length) in H.
    rewrite (String_length_app (String c2 s2) t) in H.
    change (String.length ("" +:+ t)) with (String.length t) in H.
    simpl in H. lia.
  - apply (f_equal String.length) in H.
    rewrite (String_length_app (String c s1) t) in H.
    change (String.length ("" +:+ t)) with (String.length t) in H.
    simpl in H. lia.
  - change (String c (s1 +:+ t) = String c2 (s2 +:+ t)) in H.
    injection H as -> H. f_equal. by apply IH.
Qed.

Lemma DefaultRouterName_inj (a b : nat) :
  "rtr.[" +:+ pretty a +:+ "]" = "rtr.[" +:+ pretty b +:+ "]" → a = b.
Proof.
  intros H. apply (inj (String.append "rtr.[")) in H.
  apply String_app_inj_r in H. by apply (inj pretty) in H.
Qed.

Lemma DefaultEndptName_inj etype (a b : nat) :
  etype +:+ "-endpt.(" +:+ pretty a +:+ ")"
  = etype +:+ "-endpt.(" +:+ pretty b +:+ ")" → a = b.
Proof.
  intros H. apply (inj (String.append etype)) in H.
  apply (inj (String.append "-endpt.(")) in H.
  apply String_app_inj_r in H. by apply (inj pretty) in H.
Qed.

Lemma DefaultSwitchName_inj name (a b : nat) :
  "switch(" +:+ name +:+ ")." +:+ pretty a
  = "switch(" +:+ name +:+ ")." +:+ pretty b → a = b.
Proof.
  intros H. apply (inj (String.append "switch(")) in H.
  apply (inj (String.append name)) in H.
  apply (inj (String.append ").")) in H.
  by apply (inj pretty) in H.
Qed.

Lemma DefaultIntrfcName_inj device (a b : nat) :
  "intrfc@" +:+ device +:+ "[." +:+ pretty a +:+ "]"
  = "intrfc@" +:+ device +:+ "[." +:+ pretty b +:+ "]" → a = b.
Proof.
  intros H. apply (inj (String.append "intrfc@")) in H.
  apply (inj (String.append device)) in H.
  apply (inj (String.append "[.")) in H.
  apply String_app_inj_r in H. by apply (inj pretty) in H.
Qed.

Lemma Ok_inj {A} (a b : A) : @Ok A a = Ok b → a = b.
Proof. by intros [= ->]. Qed.

(** X15, default names: DefaultEndptName, DefaultRouterName,
    DefaultSwitchName and DefaultIntrfcName only read, and the name each
    returns tells the module-level counter of its kind: for one argument,
    two states give the same name exactly when they have the same
    counter. *)
Theorem default_names_injective s1 s2 etype name device :
  (readonly (DefaultEndptName etype) ∧
   ((DefaultEndptName etype s1).1 = (DefaultEndptName etype s2).1
    ↔ numberOfEndpts s1 = numberOfEndpts s2)) ∧
  (readonly DefaultRouterName ∧
   ((DefaultRouterName s1).1 = (DefaultRouterName s2).1
    ↔ numberOfRouters s1 = numberOfRouters s2)) ∧
  (readonly (DefaultSwitchName name) ∧
   ((DefaultSwitchName name s1).1 = (DefaultSwitchName name s2).1
    ↔ numberOfSwitches s1 = numberOfSwitches s2)) ∧
  (readonly (DefaultIntrfcName device) ∧
   ((DefaultIntrfcName device s1).1 = (DefaultIntrfcName device s2).1
    ↔ numberOfIntrfcs s1 = numberOfIntrfcs s2)).
Proof.
  unfold DefaultEndptName, DefaultRouterName, DefaultSwitchName,
    DefaultIntrfcName, bind, gets, ret. cbn [fst].
  repeat apply conj; try (intros s; reflexivity); try (by intros ->).
  - intros H%Ok_inj. by apply DefaultEndptName_inj in H.
  - intros H%Ok_inj. by apply DefaultRouterName_inj in H.
  - intros H%Ok_inj. by apply DefaultSwitchName_inj in H.
  - intros H%Ok_inj. by apply DefaultIntrfcName_inj in H.
Qed.

(** ** Network descriptors *)

Lemma namesInOrder_loop s l : live s l → ∀ acc,
  for_in l (fun dev names =>
    let* d := getDev dev in
    ret (Next (names ++ [Dev.Name d]))) acc s
  = (Ok (acc ++ (nameOf s <$> l)), s).
Proof.
  induction 1 as [|x l [d Hd] Hl IH]; intros acc.
  - simpl. by rewrite app_nil_r.
  - cbn [for_in]. unfold bind at 1. unfold bind at 1, getDev at 1. rewrite Hd.
    unfold ret at 1. rewrite IH. rewrite fmap_cons, <- app_assoc. simpl.
    unfold nameOf at 2. by rewrite Hd.
Qed.

Lemma registeredByName_live s l : registeredByName s l → live s l.
Proof.
  intros H. eapply Forall_impl; [exact H|]. intros r (d & Hd & _). by eexists.
Qed.

Lemma registeredByName_resolve s l :
  registeredByName s l → mapM (fun nm => devByName s !! nm) (nameOf s <$> l) = Some l.
Proof.
  intros H. apply mapM_Some. rewrite Forall2_fmap_l.
  apply Forall_Forall2_diag. eapply Forall_impl; [exact H|].
  intros r (d & Hd & Hr). simpl. unfold nameOf. by rewrite Hd.
Qed.

(** X16, NetworkFrameClass.Transform: for a network whose members are in
    the store, the call only reads, copies the scalar fields, and gives each
    membership list as the list of the members' names, in the same order;
    when every member is the device registered under its name, looking the
    descriptor's names up in devByName gives the frame's lists back. *)
Theorem NetTransform_round_trip s self n :
  netHeap s !! self = Some n →
  live s (Net.Routers n) → live s (Net.Endpts n) → live s (Net.Switches n) →
  ∃ nd, NetTransform self s = (Ok nd, s) ∧
        NetworkDesc.Name nd = Net.Name n ∧
        NetworkDesc.MediaType nd = Net.MediaType n ∧
        NetworkDesc.NetScale nd = Net.NetScale n ∧
        NetworkDesc.Groups nd = Net.Groups n ∧
        NetworkDesc.Routers nd = (nameOf s <$> Net.Routers n) ∧
        NetworkDesc.Endpts nd = (nameOf s <$> Net.Endpts n) ∧
        NetworkDesc.Switches nd = (nameOf s <$> Net.Switches n) ∧
        (registeredByName s (Net.Routers n) →
         mapM (fun nm => devByName s !! nm) (NetworkDesc.Routers nd)
         = Some (Net.Routers n)) ∧
        (registeredByName s (Net.Endpts n) →
         mapM (fun nm => devByName s !! nm) (NetworkDesc.Endpts nd)
         = Some (Net.Endpts n)) ∧
        (registeredByName s (Net.Switches n) →
         mapM (fun nm => devByName s !! nm) (NetworkDesc.Switches nd)
         = Some (Net.Switches n)).
Proof.
  intros Hn Hr He Hs. unfold NetTransform, namesInOrder.
  unfold bind at 1, getNet at 1. rewrite Hn.
  unfold bind at 1. rewrite (namesInOrder_loop s _ Hr []).
  unfold bind at 1. rewrite (namesInOrder_loop s _ He []).
  unfold bind at 1. rewrite (namesInOrder_loop s _ Hs []).
  eexists. split; [reflexivity|]. simpl.
  repeat (split; [done|]).
  split; [apply registeredByName_resolve|].
  split; apply registeredByName_resolve.
Qed.

Lemma NetTransform_round_trip_witness :
  let s := Scenario.twoNetworks in
  let n := Net.mk "netA" [] "LAN" "wired" [0; 1] [] [] in
  netHeap s !! 2 = Some n ∧ live s (Net.Routers n) ∧
  ∃ nd, NetTransform 2 s = (Ok nd, s) ∧
        NetworkDesc.Routers nd = (nameOf s <$> Net.Routers n).
Proof.
  cbv zeta.
  set (n := Net.mk "netA" [] "LAN" "wired" [0; 1] [] []).
  assert (netHeap Scenario.twoNetworks !! 2 = Some n) as H0
    by (vm_compute; reflexivity).
  assert (live Scenario.twoNetworks (Net.Routers n)) as H1.
  { repeat apply Forall_cons_2; [..|apply Forall_nil_2];
      vm_compute; eexists; reflexivity. }
  assert (live Scenario.twoNetworks (Net.Endpts n)) as H2 by apply Forall_nil_2.
  assert (live Scenario.twoNetworks (Net.Switches n)) as H3 by apply Forall_nil_2.
  split; [exact H0|]. split; [exact H1|].
  destruct (NetTransform_round_trip Scenario.twoNetworks 2 n H0 H1 H2 H3)
    as (nd & Hrun & _ & _ & _ & _ & HR & _).
  exists nd. split; [exact Hrun|exact HR].
Defined.

(** ** Steps of a computation along a relation *)

Section Respects.
Context (R : State → State → Prop) `{!StepRel R}.

Lemma respects_ret {A} (a : A) : respects R (ret a).
Proof. intros s. apply step_refl. Qed.

Lemma respects_raise {A} e : respects R (@raise A e).
Proof. intros s. apply step_refl. Qed.

Lemma respects_gets {A} (f : State → A) : respects R (gets f).
Proof. intros s. apply step_refl. Qed.

Lemma respects_bind {A B} (m : M A) (k : A → M B) :
  respects R m → (∀ a, respects R (k a)) → respects R (bind m k).
Proof.
  intros Hm Hk s. unfold bind. specialize (Hm s).
  destruct (m s) as [[a|e] s']; simpl in *; [|done].
  eapply step_trans; [exact Hm|apply Hk].
Qed.

Lemma respects_for_in {A B} (l : list A) (body : A → B → M (Ctl B)) b :
  (∀ x b, respects R (body x b)) → respects R (for_in l body b).
Proof.
  intros Hb. revert b. induction l as [|x l IH]; intros b; simpl.
  - apply respects_ret.
  - apply respects_bind; [apply Hb|].
    intros [b'|b']; [apply IH|apply respects_ret].
Qed.

Lemma respects_getIntrfc r : respects R (getIntrfc r).
Proof. intros s. unfold getIntrfc. destruct (_ !! _); apply step_refl. Qed.

Lemma respects_getDev r : respects R (getDev r).
Proof. intros s. unfold getDev. destruct (_ !! _); apply step_refl. Qed.

Lemma respects_getNet r : respects R (getNet r).
Proof. intros s. unfold getNet. destruct (_ !! _); apply step_refl. Qed.

Lemma respects_subscript d key : respects R (subscript d key).
Proof. intros s. unfold subscript. destruct (_ !! _); apply step_refl. Qed.

Lemma respects_isConnected a b : respects R (isConnected a b).
Proof. apply respects_gets. Qed.

End Respects.

Create HintDb resp.
#[local] Hint Resolve respects_ret respects_raise respects_gets
  respects_getIntrfc respects_getDev respects_getNet respects_subscript
  respects_isConnected : resp.

(** One step through the syntax of a computation. *)
Ltac resp_step :=
  match goal with
  | |- respects _ (bind _ _) => apply respects_bind; [tc_solve| |intros ?]
  | |- respects _ (for_in _ _ _) => apply respects_for_in; [tc_solve|intros ? ?]
  | |- respects ?R (if true then ?m else _) => change (respects R m)
  | |- respects ?R (if false then _ else ?m) => change (respects R m)
  | |- respects _ (if decide ?P then _ else _) => destruct (decide P)
  | |- respects _ (if ?b then _ else _) => destruct b
  | |- respects _ (match ?x with _ => _ end) => destruct x
  | |- respects _ (let _ := _ in _) => cbv zeta
  | |- respects _ _ => solve [auto with resp typeclass_instances]
  end.

Ltac resp := repeat resp_step.

(** ** Connecting devices only adds *)

Lemma intrfcKept_refl f : intrfcKept f f.
Proof. by repeat split. Qed.

Lemma intrfcKept_trans f1 f2 f3 :
  intrfcKept f1 f2 → intrfcKept f2 f3 → intrfcKept f1 f3.
Proof.
  intros (?&?&?&?&?&?) (?&?&?&?&?&?).
  repeat split; try congruence. by etrans.
Qed.

Lemma devKept_refl d : devKept d d.
Proof. by repeat split. Qed.

Lemma devKept_trans d1 d2 d3 : devKept d1 d2 → devKept d2 d3 → devKept d1 d3.
Proof.
  intros (?&?&?&?&?&?) (?&?&?&?&?&?).
  repeat split; try congruence. by etrans.
Qed.

Lemma netKept_refl n : netKept n n.
Proof. by repeat split. Qed.

Lemma netKept_trans n1 n2 n3 : netKept n1 n2 → netKept n2 n3 → netKept n1 n3.
Proof.
  intros (?&?&?&?&?&?&?) (?&?&?&?&?&?&?).
  repeat split; try congruence; by etrans.
Qed.

Lemma onlyAdds_refl s : onlyAdds s s.
Proof.
  repeat split; try done.
  - intros r d Hd. exists d. split; [done|apply devKept_refl].
  - intros r n Hn. exists n. split; [done|apply netKept_refl].
  - intros r f Hf. exists f. split; [done|apply intrfcKept_refl].
  - intros id peers Hp. by exists peers.
Qed.

Lemma onlyAdds_trans s1 s2 s3 : onlyAdds s1 s2 → onlyAdds s2 s3 → onlyAdds s1 s3.
Proof.
  intros (A1&A2&A3&A4&A5&A6&A7&A8&A9&A10) (B1&B2&B3&B4&B5&B6&B7&B8&B9&B10).
  repeat split; try congruence.
  - intros r d Hd. destruct (A5 r d Hd) as (d2 & Hd2 & K).
    destruct (B5 r d2 Hd2) as (d3 & Hd3 & K'). exists d3.
    split; [done|]. by eapply devKept_trans.
  - intros r Hr. by apply B6, A6.
  - intros r n Hn. destruct (A7 r n Hn) as (n2 & Hn2 & K).
    destruct (B7 r n2 Hn2) as (n3 & Hn3 & K'). exists n3.
    split; [done|]. by eapply netKept_trans.
  - intros r Hr. by apply B8, A8.
  - intros r f Hf. destruct (A9 r f Hf) as (f2 & Hf2 & K).
    destruct (B9 r f2 Hf2) as (f3 & Hf3 & K'). exists f3.
    split; [done|]. by eapply intrfcKept_trans.
  - intros id p Hp. destruct (A10 id p Hp) as (p2 & Hp2 & K).
    destruct (B10 id p2 Hp2) as (p3 & Hp3 & K'). exists p3.
    split; [done|]. by etrans.
Qed.

#[local] Instance addingStep_rel : StepRel addingStep.
Proof.
  split.
  - intros s H. split; [done|apply onlyAdds_refl].
  - intros s1 s2 s3 H12 H23 H1. destruct (H12 H1) as [H2 A12].
    destruct (H23 H2) as [H3 A23]. split; [done|]. by eapply onlyAdds_trans.
Qed.

Lemma adding_newIntrfc f : respects addingStep (newIntrfc f).
Proof.
  intros s H. unfold newIntrfc. simpl. split.
  - intros r Hr. simpl in *. rewrite lookup_insert_ne by lia. apply H. lia.
  - destruct (onlyAdds_refl s) as (A1&A2&A3&A4&A5&A6&A7&A8&A9&A10).
    repeat split; try done. intros r g Hg. exists g. simpl.
    split; [|apply intrfcKept_refl].
    rewrite lookup_insert_ne; [done|]. intros <-.
    by rewrite (H (nextRef s)) in Hg.
Qed.

Lemma adding_updIntrfc r g :
  (∀ f, intrfcKept f (g f)) → respects addingStep (updIntrfc r g).
Proof.
  intros Hg s H. unfold updIntrfc, bind, getIntrfc, modify.
  destruct (intrfcHeap s !! r) as [f|] eqn:Hf; simpl;
    [|split; [done|apply onlyAdds_refl]].
  split.
  - intros r' Hr'. simpl. rewrite lookup_insert_ne; [by apply H|].
    intros <-. by rewrite (H r Hr') in Hf.
  - destruct (onlyAdds_refl s) as (A1&A2&A3&A4&A5&A6&A7&A8&A9&A10).
    repeat split; try done. intros r' f' Hf'. simpl.
    destruct (decide (r = r')) as [<-|Hne].
    + rewrite lookup_insert_eq. eexists. split; [done|].
      assert (f' = f) as -> by congruence. apply Hg.
    + rewrite lookup_insert_ne by done. exists f'.
      split; [done|apply intrfcKept_refl].
Qed.

Lemma adding_updDev r g :
  (∀ d, devKept d (g d)) → respects addingStep (updDev r g).
Proof.
  intros Hg s H. unfold updDev, bind, getDev, modify.
  destruct (devHeap s !! r) as [d|] eqn:Hd; simpl;
    [|split; [done|apply onlyAdds_refl]].
  split; [done|].
  destruct (onlyAdds_refl s) as (A1&A2&A3&A4&A5&A6&A7&A8&A9&A10).
  repeat split; try done.
  - intros r' d' Hd'. simpl. destruct (decide (r = r')) as [<-|Hne].
    + rewrite lookup_insert_eq. eexists. split; [done|].
      assert (d' = d) as -> by congruence. apply Hg.
    + rewrite lookup_insert_ne by done. exists d'.
      split; [done|apply devKept_refl].
  - intros r' Hr'. simpl. rewrite lookup_insert_ne; [done|].
    intros <-. by rewrite Hr' in Hd.
Qed.

Lemma adding_updNet r g :
  (∀ n, netKept n (g n)) → respects addingStep (updNet r g).
Proof.
  intros Hg s H. unfold updNet, bind, getNet, modify.
  destruct (netHeap s !! r) as [n|] eqn:Hn; simpl;
    [|split; [done|apply onlyAdds_refl]].
  split; [done|].
  destruct (onlyAdds_refl s) as (A1&A2&A3&A4&A5&A6&A7&A8&A9&A10).
  repeat split; try done.
  - intros r' n' Hn'. simpl. destruct (decide (r = r')) as [<-|Hne].
    + rewrite lookup_insert_eq. eexists. split; [done|].
      assert (n' = n) as -> by congruence. apply Hg.
    + rewrite lookup_insert_ne by done. exists n'.
      split; [done|apply netKept_refl].
  - intros r' Hr'. simpl. rewrite lookup_insert_ne; [done|].
    intros <-. by rewrite Hr' in Hn.
Qed.

Lemma adding_appendPeer a b : respects addingStep (modify (appendPeer a b)).
Proof.
  intros s H. split; [done|].
  destruct (onlyAdds_refl s) as (A1&A2&A3&A4&A5&A6&A7&A8&A9&A10).
  repeat split; try done. intros id peers Hp. simpl.
  destruct (decide (a = id)) as [<-|Hne].
  - rewrite lookup_insert_eq, Hp. eexists. split; [done|]. simpl.
    by apply prefix_app_r.
  - rewrite lookup_insert_ne by done. by exists peers.
Qed.

(** The leaves of the computations that make up ConnectDevs. *)
Ltac adding_leaf :=
  match goal with
  | |- respects addingStep (modify (appendPeer _ _)) => apply adding_appendPeer
  | |- respects addingStep (newIntrfc _) => apply adding_newIntrfc
  | |- respects addingStep (updIntrfc _ _) =>
      apply adding_updIntrfc; intros [];
      repeat split; simpl; try done; by apply prefix_app_r
  | |- respects addingStep (updDev _ _) =>
      apply adding_updDev; intros [];
      repeat split; simpl; try done; by apply prefix_app_r
  | |- respects addingStep (updNet _ _) =>
      apply adding_updNet; intros [];
      repeat split; simpl; try done; by apply prefix_app_r
  end.

Ltac adding := repeat first [adding_leaf | resp_step].

Lemma adding_CreateIntrfc device name devType mediaType faces :
  respects addingStep (CreateIntrfc device name devType mediaType faces).
Proof.
  unfold CreateIntrfc, unboundLocal, DefaultIntrfcName. adding.
Qed.

(** The functions that only read are steps of every such relation. *)
Section RespectsReads.
Context (R : State → State → Prop) `{!StepRel R}.

Lemma respects_DevName dev : respects R (DevName dev).
Proof. unfold DevName. resp. Qed.

Lemma respects_DevID dev : respects R (DevID dev).
Proof. unfold DevID. resp. Qed.

Lemma respects_DevType dev : respects R (DevType dev).
Proof. unfold DevType. resp. Qed.

Lemma respects_DevInterfaces dev : respects R (DevInterfaces dev).
Proof. unfold DevInterfaces. resp. Qed.

Lemma respects_DefaultIntrfcName device : respects R (DefaultIntrfcName device).
Proof. unfold DefaultIntrfcName. resp. Qed.

Lemma respects_endptPresent l e : respects R (endptPresent l e).
Proof. unfold endptPresent. resp. Qed.

Lemma respects_routerPresent l e : respects R (routerPresent l e).
Proof. unfold routerPresent. resp. Qed.

Lemma respects_switchPresent_1 e : respects R (switchPresent_1 e).
Proof. unfold switchPresent_1. resp. Qed.

Lemma respects_carryContained i1 i2 : respects R (carryContained i1 i2).
Proof. unfold carryContained. resp. Qed.

Lemma respects_facing faces l : respects R (facing faces l).
Proof. unfold facing. resp. Qed.

Lemma respects_firstFree faces l : respects R (firstFree faces l).
Proof. unfold firstFree. resp. Qed.

Lemma respects_FacedBy self dev : respects R (FacedBy self dev).
Proof.
  unfold FacedBy. apply respects_bind; [done|apply respects_DevInterfaces|].
  intros l. resp.
Qed.

End RespectsReads.

#[local] Hint Resolve respects_DevName respects_DevID respects_DevType
  respects_DevInterfaces respects_DefaultIntrfcName respects_endptPresent
  respects_routerPresent respects_switchPresent_1 respects_carryContained
  respects_facing respects_firstFree respects_FacedBy : resp.

Lemma adding_IncludeDev self dev mediaType chkIntrfc :
  respects addingStep (IncludeDev self dev mediaType chkIntrfc).
Proof.
  pose proof adding_CreateIntrfc as HC.
  unfold IncludeDev. adding.
Qed.

Lemma adding_AddIntrfc self iff : respects addingStep (AddIntrfc self iff).
Proof. unfold AddIntrfc. adding. Qed.

Lemma adding_DevAddIntrfc dev iff : respects addingStep (DevAddIntrfc dev iff).
Proof.
  pose proof adding_AddIntrfc as HA.
  unfold DevAddIntrfc. adding.
Qed.

Lemma adding_markConnected a b : respects addingStep (markConnected a b).
Proof. unfold markConnected. adding. Qed.

Lemma adding_cableSearch l1 l2 : respects addingStep (cableSearch l1 l2).
Proof. unfold cableSearch. adding. Qed.

Lemma adding_carrySearch l1 l2 : respects addingStep (carrySearch l1 l2).
Proof. unfold carrySearch. adding. Qed.

Lemma adding_freeIntrfc dev faces pool :
  respects addingStep (freeIntrfc dev faces pool).
Proof.
  pose proof adding_CreateIntrfc as HC. pose proof adding_DevAddIntrfc as HA.
  unfold freeIntrfc. adding.
Qed.

Lemma adding_ConnectDevs dev1 dev2 cable faces :
  respects addingStep (ConnectDevs dev1 dev2 cable faces).
Proof.
  pose proof adding_markConnected as H1. pose proof adding_IncludeDev as H2.
  pose proof adding_cableSearch as H3. pose proof adding_carrySearch as H4.
  pose proof adding_freeIntrfc as H5.
  unfold ConnectDevs. adding.
Qed.

(** A store whose interface objects all sit below the next reference. *)
Lemma allocOk_check s :
  bool_decide (map_Forall (λ r _, (r < nextRef s)%nat) (intrfcHeap s)) = true →
  allocOk s.
Proof.
  intros H r Hr. apply bool_decide_eq_true in H.
  destruct (intrfcHeap s !! r) as [f|] eqn:E; [|done].
  apply H in E. simpl in E. lia.
Qed.

(** X17, ConnectDevs only adds.  From a store whose interface objects all
    sit below the next reference, a call of ConnectDevs, whether it returns
    or raises, leaves the four registries as they are, creates and removes
    no device and no network object, keeps every existing interface object
    with its name, groups, media type and faced network, keeps the scalar
    attributes of every device and network, and only appends to the Carry
    list of an interface, the Interfaces of a device, the member lists of a
    network and the peer lists of the connectivity index. *)
Theorem ConnectDevs_only_adds dev1 dev2 cable faces s :
  allocOk s →
  let s' := (ConnectDevs dev1 dev2 cable faces s).2 in
  allocOk s' ∧ onlyAdds s s'.
Proof. intros H. exact (adding_ConnectDevs dev1 dev2 cable faces s H). Qed.

Lemma ConnectDevs_only_adds_witness :
  allocOk Scenario.halfCarried ∧
  onlyAdds Scenario.halfCarried (ConnectDevs 0 1 true "netA" Scenario.halfCarried).2.
Proof.
  assert (allocOk Scenario.halfCarried) as H
    by (apply allocOk_check; vm_compute; reflexivity).
  exact (conj H (proj2 (ConnectDevs_only_adds 0 1 true "netA" _ H))).
Defined.

(** ** Cabling stays symmetric *)

Lemma cablesKept_refl s : cablesKept s s.
Proof.
  split; [intros i f H; by exists f|intros i f' H H'; congruence].
Qed.

Lemma cablesKept_trans s1 s2 s3 :
  cablesKept s1 s2 → cablesKept s2 s3 → cablesKept s1 s3.
Proof.
  intros [A1 A2] [B1 B2]. split.
  - intros i f H. destruct (A1 i f H) as (f2 & H2 & E2).
    destruct (B1 i f2 H2) as (f3 & H3 & E3). exists f3.
    split; [done|congruence].
  - intros i f' H H'. destruct (intrfcHeap s2 !! i) as [f2|] eqn:E.
    + destruct (B1 i f2 E) as (f3 & H3 & E3). rewrite H' in H3.
      injection H3 as <-. rewrite E3. by eapply A2.
    + by eapply B2.
Qed.

#[local] Instance keepingStep_rel : StepRel keepingStep.
Proof.
  split.
  - intros s H. split; [done|apply cablesKept_refl].
  - intros s1 s2 s3 H12 H23 H1. destruct (H12 H1) as [H2 A12].
    destruct (H23 H2) as [H3 A23]. split; [done|]. by eapply cablesKept_trans.
Qed.

#[local] Instance cablingStep_rel : StepRel cablingStep.
Proof.
  split; [by intros s H|]. intros s1 s2 s3 H12 H23 H. by apply H23, H12.
Qed.

Lemma cablesKept_sym s s' : cablesKept s s' → cableSym s → cableSym s'.
Proof.
  intros [K1 K2] Hs i f' j Hi Hc.
  destruct (intrfcHeap s !! i) as [f|] eqn:E.
  - destruct (K1 i f E) as (f'' & H'' & Ec). rewrite Hi in H''.
    injection H'' as <-. rewrite Hc in Ec. symmetry in Ec.
    destruct (Hs i f j E Ec) as (g & Hg & Hgc).
    destruct (K1 j g Hg) as (g' & Hg' & Egc). exists g'.
    split; [done|congruence].
  - rewrite (K2 i f' E Hi) in Hc. done.
Qed.

Lemma keeping_cabling {A} (m : M A) :
  respects keepingStep m → respects cablingStep m.
Proof.
  intros H s [Ha Hs]. destruct (H s Ha) as [Ha' K].
  split; [done|]. by eapply cablesKept_sym.
Qed.

Lemma keeping_modify f :
  (∀ s, intrfcHeap (f s) = intrfcHeap s ∧ nextRef (f s) = nextRef s) →
  respects keepingStep (modify f).
Proof.
  intros Hf s Ha. simpl. destruct (Hf s) as [Hh Hn]. split.
  - intros r Hr. rewrite Hh. apply Ha. by rewrite <- Hn.
  - split; [intros i g Hg; exists g; by rewrite Hh|].
    intros i g' H H'. rewrite Hh in H'. congruence.
Qed.

Lemma keeping_newIntrfc f :
  Intrfc.Cable f = None → respects keepingStep (newIntrfc f).
Proof.
  intros Hf s Ha. unfold newIntrfc. simpl. split.
  - intros r Hr. simpl in *. rewrite lookup_insert_ne by lia. apply Ha. lia.
  - split.
    + intros i g Hg. exists g. split; [|done]. simpl.
      rewrite lookup_insert_ne; [done|]. intros <-.
      by rewrite (Ha (nextRef s)) in Hg.
    + intros i g' H H'. simpl in H'.
      destruct (decide (nextRef s = i)) as [<-|Hne].
      * rewrite lookup_insert_eq in H'. by injection H' as <-.
      * rewrite lookup_insert_ne in H' by done. congruence.
Qed.

Lemma keeping_updIntrfc r g :
  (∀ f, Intrfc.Cable (g f) = Intrfc.Cable f) → respects keepingStep (updIntrfc r g).
Proof.
  intros Hg s Ha. unfold updIntrfc, bind, getIntrfc, modify.
  destruct (intrfcHeap s !! r) as [f|] eqn:Hf; simpl;
    [|split; [done|apply cablesKept_refl]].
  split.
  - intros r' Hr'. simpl. rewrite lookup_insert_ne; [by apply Ha|].
    intros <-. by rewrite (Ha r Hr') in Hf.
  - split.
    + intros i f0 H0. simpl. destruct (decide (r = i)) as [<-|Hne].
      * rewrite lookup_insert_eq. eexists. split; [done|]. rewrite Hg. congruence.
      * rewrite lookup_insert_ne by done. by exists f0.
    + intros i f' H H'. simpl in H'.
      destruct (decide (r = i)) as [<-|Hne]; [congruence|].
      rewrite lookup_insert_ne in H' by done. congruence.
Qed.

(** The leaves of the computations that assign no Cable. *)
Ltac keeping_leaf :=
  match goal with
  | |- respects keepingStep (modify _) =>
      apply keeping_modify; intros ?; by split
  | |- respects keepingStep (newIntrfc _) => by apply keeping_newIntrfc
  | |- respects keepingStep (updIntrfc _ _) =>
      apply keeping_updIntrfc; by intros []
  | |- respects keepingStep (updDev _ _) => unfold updDev
  | |- respects keepingStep (updNet _ _) => unfold updNet
  end.

Ltac keeping := repeat first [keeping_leaf | resp_step].

Lemma keeping_CreateIntrfc device name devType mediaType faces :
  respects keepingStep (CreateIntrfc device name devType mediaType faces).
Proof. unfold CreateIntrfc, unboundLocal, DefaultIntrfcName. keeping. Qed.

Lemma keeping_AddIntrfc self iff : respects keepingStep (AddIntrfc self iff).
Proof. unfold AddIntrfc. keeping. Qed.

Lemma keeping_markConnected a b : respects keepingStep (markConnected a b).
Proof. unfold markConnected. keeping. Qed.

Lemma keeping_carrySearch l1 l2 : respects keepingStep (carrySearch l1 l2).
Proof. unfold carrySearch. keeping. Qed.

#[local] Hint Resolve keeping_CreateIntrfc keeping_AddIntrfc
  keeping_markConnected keeping_carrySearch : resp.

Lemma keeping_IncludeDev self dev mediaType chkIntrfc :
  respects keepingStep (IncludeDev self dev mediaType chkIntrfc).
Proof. unfold IncludeDev. keeping. Qed.

Lemma keeping_DevAddIntrfc dev iff : respects keepingStep (DevAddIntrfc dev iff).
Proof. unfold DevAddIntrfc. keeping. Qed.

#[local] Hint Resolve keeping_IncludeDev keeping_DevAddIntrfc : resp.

Lemma keeping_freeIntrfc dev faces pool :
  respects keepingStep (freeIntrfc dev faces pool).
Proof. unfold freeIntrfc. keeping. Qed.

#[local] Hint Resolve keeping_freeIntrfc : resp.

Lemma keeping_ConnectDevs_carry dev1 dev2 faces :
  respects keepingStep (ConnectDevs dev1 dev2 false faces).
Proof. unfold ConnectDevs. keeping. Qed.

Lemma bind_Ok {A B} (m : M A) (k : A → M B) s b s' :
  bind m k s = (Ok b, s') → ∃ a s1, m s = (Ok a, s1) ∧ k a s1 = (Ok b, s').
Proof. unfold bind. destruct (m s) as [[a|e] s1]; [by eauto|done]. Qed.

Lemma cabled_heap s i1 i2 f1 f2 :
  intrfcHeap s !! i1 = Some f1 → intrfcHeap s !! i2 = Some f2 →
  intrfcHeap (cabled i1 i2 s)
  = <[i2 := Intrfc.set_Cable (Some i1)
              (if decide (i1 = i2) then Intrfc.set_Cable (Some i2) f1 else f2)]>
      (<[i1 := Intrfc.set_Cable (Some i2) f1]> (intrfcHeap s)) ∧
  nextRef (cabled i1 i2 s) = nextRef s.
Proof.
  intros H1 H2. unfold cabled, bind, updIntrfc, bind, getIntrfc, modify.
  rewrite H1. simpl. destruct (decide (i1 = i2)) as [<-|Hne].
  - by rewrite lookup_insert_eq.
  - by rewrite lookup_insert_ne, H2.
Qed.

(** Cabling two interfaces each of which is without cable or cabled to the
    other keeps the cabling symmetric. *)
Lemma wellCabled_cabled s i1 i2 f1 f2 :
  wellCabled s →
  intrfcHeap s !! i1 = Some f1 → intrfcHeap s !! i2 = Some f2 →
  Intrfc.Cable f1 = None ∨ Intrfc.Cable f1 = Some i2 →
  Intrfc.Cable f2 = Some i1 ∨ Intrfc.Cable f2 = None →
  wellCabled (cabled i1 i2 s).
Proof.
  intros [Ha Hs] H1 H2 C1 C2.
  destruct (cabled_heap s i1 i2 f1 f2 H1 H2) as [Hh Hn]. split.
  - intros r Hr. rewrite Hh. rewrite Hn in Hr.
    assert (i1 ≠ r) by (intros <-; by rewrite (Ha i1 Hr) in H1).
    assert (i2 ≠ r) by (intros <-; by rewrite (Ha i2 Hr) in H2).
    rewrite lookup_insert_ne by done. rewrite lookup_insert_ne by done.
    by apply Ha.
  - intros i f j Hi Hc. rewrite Hh in Hi. rewrite Hh.
    destruct (decide (i2 = i)) as [<-|N2].
    + rewrite lookup_insert_eq in Hi. injection Hi as <-. simpl in Hc.
      injection Hc as <-. destruct (decide (i1 = i2)) as [<-|N].
      * rewrite lookup_insert_eq. by eexists.
      * rewrite lookup_insert_ne by congruence. rewrite lookup_insert_eq.
        by eexists.
    + rewrite lookup_insert_ne in Hi by done.
      destruct (decide (i1 = i)) as [<-|N1].
      * rewrite lookup_insert_eq in Hi. injection Hi as <-. simpl in Hc.
        injection Hc as <-. rewrite lookup_insert_eq. by eexists.
      * rewrite lookup_insert_ne in Hi by done.
        destruct (Hs i f j Hi Hc) as (g & Hg & Hgc).
        assert (i1 ≠ j).
        { intros <-. rewrite H1 in Hg. injection Hg as <-.
          destruct C1 as [C|C]; rewrite C in Hgc; congruence. }
        assert (i2 ≠ j).
        { intros <-. rewrite H2 in Hg. injection Hg as <-.
          destruct C2 as [C|C]; rewrite C in Hgc; congruence. }
        rewrite lookup_insert_ne by done. rewrite lookup_insert_ne by done.
        by exists g.
Qed.

Lemma then_ret_state {A} (m1 m2 : M unit) (x : A) s :
  ((m1 ;; m2 ;; ret x) s).2 = ((m1 ;; m2) s).2.
Proof.
  unfold bind. destruct (m1 s) as [[[]|e] s1]; [|done].
  by destruct (m2 s1) as [[[]|e] s2].
Qed.

(** The search of the cable mode keeps the cabling symmetric. *)
Lemma cabling_cableSearch l1 l2 : respects cablingStep (cableSearch l1 l2).
Proof.
  unfold cableSearch. apply respects_for_in; [tc_solve|]. intros i1 b.
  apply respects_bind; [tc_solve| |intros r; resp].
  apply respects_for_in; [tc_solve|]. intros i2 b' s Hw.
  unfold bind at 1, getIntrfc at 1.
  destruct (intrfcHeap s !! i1) as [f1|] eqn:H1; [|exact Hw].
  destruct (decide (Intrfc.Cable f1 ≠ None ∧ Intrfc.Cable f1 ≠ Some i2))
    as [|N1]; [exact Hw|].
  unfold bind at 1, getIntrfc at 1.
  destruct (intrfcHeap s !! i2) as [f2|] eqn:H2; [|exact Hw].
  destruct (decide (Intrfc.Cable f2 = Some i1 ∨ Intrfc.Cable f2 = None))
    as [C2|]; [|exact Hw].
  rewrite then_ret_state. apply (wellCabled_cabled s i1 i2 f1 f2); try done.
  destruct (Intrfc.Cable f1) as [c|]; [|by left]. right.
  destruct (decide (c = i2)) as [->|]; [done|]. exfalso. apply N1.
  split; congruence.
Qed.

(** firstFree changes nothing and returns an interface object without
    cable, when it returns one. *)
Lemma firstFree_loop faces pool s : ∀ acc r s',
  for_in pool (fun intrfc free =>
    let* f := getIntrfc intrfc in
    if decide (Intrfc.Faces f = faces ∧ Intrfc.Cable f = None)
    then ret (Break (Some intrfc))
    else ret (Next free)) acc s = (Ok r, s') →
  s' = s ∧
  ∀ i, r = Some i →
       acc = Some i ∨ ∃ f, intrfcHeap s !! i = Some f ∧ Intrfc.Cable f = None.
Proof.
  induction pool as [|x l IH]; intros acc r s' H.
  - injection H as <- <-. split; [done|]. intros i ->. by left.
  - cbn [for_in] in H. unfold bind at 1 in H. unfold bind at 1 in H.
    unfold getIntrfc at 1 in H.
    destruct (intrfcHeap s !! x) as [f|] eqn:E; [|done].
    destruct (decide (Intrfc.Faces f = faces ∧ Intrfc.Cable f = None))
      as [[_ Hc]|_].
    + injection H as <- <-. split; [done|]. intros i [= <-]. right. by eauto.
    + by apply IH in H.
Qed.

Lemma firstFree_run faces pool s r s' :
  firstFree faces pool s = (Ok r, s') →
  s' = s ∧ ∀ i, r = Some i → ∃ f, intrfcHeap s !! i = Some f ∧ Intrfc.Cable f = None.
Proof.
  intros H. apply firstFree_loop in H as [-> H]. split; [done|].
  intros i Hi. by destruct (H i Hi).
Qed.

(** What a run says of the step it made. *)
Ltac keeping_of H K :=
  match type of H with
  | ?m ?s = (_, ?s') =>
      assert (keepingStep s s') as K
        by (let Hr := fresh in
            assert (respects keepingStep m) as Hr by keeping;
            specialize (Hr s); by rewrite H in Hr)
  end.

(** The interface freeIntrfc returns is an object of the store without
    cable: it is one of the pool, as CreateIntrfc does not return. *)
Lemma freeIntrfc_free s dev faces pool i s' :
  allocOk s → freeIntrfc dev faces pool s = (Ok i, s') →
  ∃ f, intrfcHeap s' !! i = Some f ∧ Intrfc.Cable f = None.
Proof.
  intros Ha H. unfold freeIntrfc in H.
  apply bind_Ok in H as (free & s0 & H0 & H).
  apply firstFree_run in H0 as [-> Hfree]. destruct free as [i0|].
  - injection H as <- <-. by apply Hfree.
  - apply bind_Ok in H as (dn & s1 & _ & H).
    apply bind_Ok in H as (nm & s2 & _ & H).
    apply bind_Ok in H as (dn' & s3 & _ & H).
    apply bind_Ok in H as (dt & s4 & _ & H).
    apply bind_Ok in H as (i' & s5 & H5 & _). done.
Qed.

(** The last part of ConnectDevs: a free interface on each side, cabled or
    carried. *)
Lemma cabling_connect dev1 dev2 (cable : bool) faces l1 l2 :
  respects cablingStep
    (let* free1 := freeIntrfc dev1 faces l1 in
     let* free2 := freeIntrfc dev2 faces l2 in
     if cable then
       updIntrfc free1 (Intrfc.set_Cable (Some free2)) ;;
       updIntrfc free2 (Intrfc.set_Cable (Some free1))
     else
       updIntrfc free1 (fun f => Intrfc.set_Carry (Intrfc.Carry f ++ [free2]) f) ;;
       updIntrfc free2 (fun f => Intrfc.set_Carry (Intrfc.Carry f ++ [free1]) f)).
Proof.
  intros s [Ha Hs]. unfold bind at 1.
  destruct (freeIntrfc dev1 faces l1 s) as [[free1|e] s1] eqn:E1;
    keeping_of E1 K; destruct (K Ha) as [Ha1 K1];
    assert (wellCabled s1) as Hw1 by (split; [done|by eapply cablesKept_sym]);
    [|exact Hw1].
  destruct (freeIntrfc_free _ _ _ _ _ _ Ha E1) as (f1 & Hf1 & Hc1).
  pose proof (proj2 Hw1) as Hs1. unfold bind at 1.
  destruct (freeIntrfc dev2 faces l2 s1) as [[free2|e] s2] eqn:E2;
    keeping_of E2 K'; destruct (K' Ha1) as [Ha2 K2];
    assert (wellCabled s2) as Hw2 by (split; [done|by eapply cablesKept_sym]);
    [|exact Hw2].
  destruct (freeIntrfc_free _ _ _ _ _ _ Ha1 E2) as (f2 & Hf2 & Hc2).
  destruct (proj1 K2 _ _ Hf1) as (f1' & Hf1' & Hc1').
  destruct cable.
  - change (wellCabled (cabled free1 free2 s2)).
    apply (wellCabled_cabled s2 free1 free2 f1' f2); try done.
    + left. congruence.
    + by right.
  - refine (keeping_cabling _ _ s2 Hw2). keeping.
Qed.

Ltac cabling_leaf :=
  match goal with
  | |- respects cablingStep (bind (freeIntrfc _ _ _) _) =>
      first [apply (cabling_connect _ _ true)|apply (cabling_connect _ _ false)]
  | |- respects cablingStep (cableSearch _ _) => apply cabling_cableSearch
  | |- respects cablingStep (markConnected _ _) =>
      apply keeping_cabling, keeping_markConnected
  | |- respects cablingStep (IncludeDev _ _ _ _) =>
      apply keeping_cabling, keeping_IncludeDev
  | |- respects cablingStep (carrySearch _ _) =>
      apply keeping_cabling, keeping_carrySearch
  end.

Lemma cabling_ConnectDevs dev1 dev2 cable faces :
  respects cablingStep (ConnectDevs dev1 dev2 cable faces).
Proof.
  unfold ConnectDevs. destruct cable; repeat first [cabling_leaf | resp_step].
Qed.

(** A store in which every Cable points back. *)
Lemma cableSym_check s :
  bool_decide (map_Forall (λ i f,
      Intrfc.Cable f ≫= (λ j, intrfcHeap s !! j ≫= Intrfc.Cable)
      = Intrfc.Cable f ≫= (λ _, Some i)) (intrfcHeap s)) = true →
  cableSym s.
Proof.
  intros H i f j Hi Hc. apply bool_decide_eq_true in H. apply H in Hi.
  simpl in Hi. rewrite Hc in Hi. simpl in Hi.
  destruct (intrfcHeap s !! j) as [g|]; [|done]. simpl in Hi. by exists g.
Qed.

(** X18, cables stay symmetric.  From a store whose interface objects all
    sit below the next reference and whose cables point back (the Cable of
    the Cable of an interface is that interface), a call of ConnectDevs in
    either mode, whether it returns or raises and wherever it raises,
    leaves a store whose cables point back. *)
Theorem ConnectDevs_cables_symmetric dev1 dev2 cable faces s :
  allocOk s → cableSym s →
  cableSym (ConnectDevs dev1 dev2 cable faces s).2.
Proof.
  intros Ha Hs.
  exact (proj2 (cabling_ConnectDevs dev1 dev2 cable faces s (conj Ha Hs))).
Qed.

Lemma ConnectDevs_cables_symmetric_witness :
  allocOk cabledRouters ∧ cableSym cabledRouters ∧
  Intrfc.Cable <$> intrfcHeap cabledRouters !! 4 = Some (Some 5) ∧
  cableSym (ConnectDevs 0 2 true "netA" cabledRouters).2.
Proof.
  assert (allocOk cabledRouters) as Ha
    by (apply allocOk_check; vm_compute; reflexivity).
  assert (cableSym cabledRouters) as Hs
    by (apply cableSym_check; vm_compute; reflexivity).
  assert (Intrfc.Cable <$> intrfcHeap cabledRouters !! 4 = Some (Some 5)) as H4
    by (vm_compute; reflexivity).
  exact (conj Ha (conj Hs (conj H4
           (ConnectDevs_cables_symmetric 0 2 true "netA" _ Ha Hs)))).
Defined.

(** X19, the carry mode assigns no Cable.  From a store whose interface
    objects all sit below the next reference, a call of ConnectDevs with
    [cable] false, whether it returns or raises, leaves every interface
    object in the store with the Cable it had, and every interface object
    it created without cable. *)
Theorem ConnectDevs_carry_keeps_cables dev1 dev2 faces s :
  allocOk s → cablesKept s (ConnectDevs dev1 dev2 false faces s).2.
Proof.
  intros Ha. exact (proj2 (keeping_ConnectDevs_carry dev1 dev2 faces s Ha)).
Qed.

Lemma ConnectDevs_carry_keeps_cables_witness :
  allocOk cabledRouters ∧
  cablesKept cabledRouters (ConnectDevs 0 2 false "netA" cabledRouters).2.
Proof.
  assert (allocOk cabledRouters) as Ha
    by (apply allocOk_check; vm_compute; reflexivity).
  exact (conj Ha (ConnectDevs_carry_keeps_cables 0 2 "netA" _ Ha)).
Defined.

(** ** The general statements at concrete inputs *)

Lemma AddRouter_spec_witness :
  let s := lentIntrfc in
  let n := Net.mk "netA" [] "LAN" "wired" [0] [] [] in
  let d := Dev.mk RouterFrameClass "r2" [] "cisco" 0 [3] in
  netHeap s !! 2 = Some n ∧ devHeap s !! 1 = Some d ∧
  (FacedBy 2 1 s).1 = Ok true ∧
  AddRouter 2 1 s
  = (Ok None,
     set_netHeap (<[2 := Net.set_Routers (Net.Routers n ++ [1]) n]> (netHeap s)) s).
Proof.
  cbv zeta.
  set (n := Net.mk "netA" [] "LAN" "wired" [0] [] []).
  set (d := Dev.mk RouterFrameClass "r2" [] "cisco" 0 [3]).
  assert (netHeap lentIntrfc !! 2 = Some n) as H0 by (vm_compute; reflexivity).
  assert (devHeap lentIntrfc !! 1 = Some d) as H1 by (vm_compute; reflexivity).
  assert (live lentIntrfc (Net.Routers n)) as H2
    by (apply Forall_singleton; vm_compute; eexists; reflexivity).
  assert (Dev.Name d ∉ nameOf lentIntrfc <$> Net.Routers n) as H3
    by (vm_compute; intros H; by apply list_elem_of_singleton in H).
  assert ((FacedBy 2 1 lentIntrfc).1 = Ok true) as H4 by (vm_compute; reflexivity).
  split; [exact H0|]. split; [exact H1|]. split; [exact H4|].
  exact (proj2 (AddRouter_spec lentIntrfc 2 n 1 d H0 H1 H2 H3) H4).
Defined.

Lemma AddSwitch_nonempty_witness :
  let s := Scenario.switches in
  let n := Net.mk "netA" [] "LAN" "wired" [3] [] [0] in
  let d := Dev.mk SwitchFrameClass "s1" [] "hp" 0 [5] in
  netHeap s !! 4 = Some n ∧ devHeap s !! 0 = Some d ∧
  AddSwitch 4 1 s = (Ok None, s).
Proof.
  cbv zeta.
  set (n := Net.mk "netA" [] "LAN" "wired" [3] [] [0]).
  set (d := Dev.mk SwitchFrameClass "s1" [] "hp" 0 [5]).
  assert (netHeap Scenario.switches !! 4 = Some n) as H0
    by (vm_compute; reflexivity).
  assert (Net.Switches n = [0]) as H1 by reflexivity.
  assert (devHeap Scenario.switches !! 0 = Some d) as H2
    by (vm_compute; reflexivity).
  split; [exact H0|]. split; [exact H2|].
  exact (AddSwitch_nonempty Scenario.switches 4 n 0 [] d 1 H0 H1 H2).
Defined.

Lemma IncludeDev_wireless_rejected_witness :
  let s := Scenario.endpoints in
  let n := Net.mk "netA" [] "LAN" "wired" [] [] [] in
  let d := Dev.mk EndptFrameClass "h1" [] "x86" 4 [] in
  netHeap s !! 2 = Some n ∧ devHeap s !! 0 = Some d ∧
  IncludeDev 2 0 "wireless" true s = (Ok (Some MediaMismatchError), s).
Proof.
  cbv zeta.
  set (n := Net.mk "netA" [] "LAN" "wired" [] [] []).
  set (d := Dev.mk EndptFrameClass "h1" [] "x86" 4 []).
  assert (netHeap Scenario.endpoints !! 2 = Some n) as H0
    by (vm_compute; reflexivity).
  assert (devHeap Scenario.endpoints !! 0 = Some d) as H1
    by (vm_compute; reflexivity).
  assert (Net.MediaType n ≠ "wireless") as H2 by discriminate.
  split; [exact H0|]. split; [exact H1|].
  exact (IncludeDev_wireless_rejected Scenario.endpoints 2 0 n d true H0 H1 H2).
Defined.


Lemma Transform_run_witness :
  let s := cabledRouters in
  let f := Intrfc.mk "r1.eth0" [] "Router" "wired" "r1" (Some 5) [] [] "netA" in
  intrfcHeap s !! 4 = Some f ∧
  ∃ d, Transform 4 s = (Ok d, s) ∧
       IntrfcDesc.Name d = Intrfc.Name f ∧
       IntrfcDesc.Cable d
       = (peer ← Intrfc.Cable f; Intrfc.Name <$> intrfcHeap s !! peer).
Proof.
  cbv zeta.
  set (f := Intrfc.mk "r1.eth0" [] "Router" "wired" "r1" (Some 5) [] [] "netA").
  assert (intrfcHeap cabledRouters !! 4 = Some f) as H0
    by (vm_compute; reflexivity).
  assert (∀ peer, Intrfc.Cable f = Some peer →
                  is_Some (intrfcHeap cabledRouters !! peer)) as H1
    by (intros peer [= <-]; vm_compute; eexists; reflexivity).
  split; [exact H0|].
  destruct (Transform_run cabledRouters 4 f H0 H1) as (d & Hrun & Hn & Hc & _).
  exists d. split; [exact Hrun|]. split; [exact Hn|exact Hc].
Defined.

Lemma cableSearch_first_match_witness :
  let s := cabledRouters in
  liveIntrfcs s [4] ∧ liveIntrfcs s [5] ∧
  cableSearch [4] [5] s
  = match firstCablePair s [4] [5] with
    | Some (i1, i2) => (Ok true, cabled i1 i2 s)
    | None => (Ok false, s)
    end.
Proof.
  cbv zeta.
  assert (liveIntrfcs cabledRouters [4]) as H0
    by (apply Forall_singleton; vm_compute; eexists; reflexivity).
  assert (liveIntrfcs cabledRouters [5]) as H1
    by (apply Forall_singleton; vm_compute; eexists; reflexivity).
  split; [exact H0|]. split; [exact H1|].
  exact (cableSearch_first_match cabledRouters [4] [5] H0 H1).
Defined.

Lemma carrySearch_never_repairs_witness :
  let s := Scenario.halfCarried in
  carryClosed s ∧ liveIntrfcs s [3] ∧ liveIntrfcs s [4] ∧
  (carries (carrySearch [3] [4] s).2 4 3 ↔ carries s 4 3).
Proof.
  cbv zeta.
  assert (liveIntrfcs Scenario.halfCarried [3]) as H0
    by (apply Forall_singleton; vm_compute; eexists; reflexivity).
  assert (liveIntrfcs Scenario.halfCarried [4]) as H1
    by (apply Forall_singleton; vm_compute; eexists; reflexivity).
  split; [exact halfCarried_closed|]. split; [exact H0|]. split; [exact H1|].
  exact (carrySearch_never_repairs Scenario.halfCarried [3] [4] 4 3
           halfCarried_closed H0 H1).
Defined.

(** X28, IncludeDev asked for an interface the device does not hold: for a
    device none of whose interfaces faces the network, and a media type
    the network accepts, the call with [chkIntrfc] true raises in
    CreateIntrfc, at [numberOfIntrfcs += 1], whatever the class of the
    device, and leaves the state as it was: no interface is created and
    the device is not admitted. *)
Theorem IncludeDev_unfaced_raises s self dev n d mediaType :
  netHeap s !! self = Some n → devHeap s !! dev = Some d →
  ¬ (mediaType = "wireless" ∧ Net.MediaType n ≠ "wireless") →
  (FacedBy self dev s).1 = Ok false →
  IncludeDev self dev mediaType true s
  = (Raise (UnboundLocalError "numberOfIntrfcs"), s).
Proof.
  intros Hn Hd Hm HF.
  apply (readonly_run _ _ _ (readonly_FacedBy self dev)) in HF.
  unfold IncludeDev.
  unfold bind at 1, DevName at 1, bind at 1, getDev at 1. rewrite Hd.
  unfold bind at 1, ret at 1.
  unfold bind at 1, DevType at 1, bind at 1, getDev at 1. rewrite Hd.
  unfold bind at 1, ret at 1.
  unfold bind at 1, getNet at 1. rewrite Hn.
  cbv zeta. rewrite decide_False by done.
  unfold bind at 1. rewrite HF. cbn [andb negb].
  unfold bind at 1. unfold bind at 1, DevName at 1, bind at 1, getDev at 1.
  rewrite Hd. reflexivity.
Qed.

Lemma IncludeDev_unfaced_raises_witness :
  let s := Scenario.endpoints in
  let n := Net.mk "netA" [] "LAN" "wired" [] [] [] in
  let d := Dev.mk EndptFrameClass "h1" [] "x86" 4 [] in
  netHeap s !! 2 = Some n ∧ devHeap s !! 0 = Some d ∧
  (FacedBy 2 0 s).1 = Ok false ∧
  IncludeDev 2 0 "wired" true s = (Raise (UnboundLocalError "numberOfIntrfcs"), s).
Proof.
  cbv zeta.
  set (n := Net.mk "netA" [] "LAN" "wired" [] [] []).
  set (d := Dev.mk EndptFrameClass "h1" [] "x86" 4 []).
  assert (netHeap Scenario.endpoints !! 2 = Some n) as H0
    by (vm_compute; reflexivity).
  assert (devHeap Scenario.endpoints !! 0 = Some d) as H1
    by (vm_compute; reflexivity).
  assert (¬ ("wired" = "wireless" ∧ Net.MediaType n ≠ "wireless")) as H2
    by (intros [? _]; discriminate).
  assert ((FacedBy 2 0 Scenario.endpoints).1 = Ok false) as H3
    by (vm_compute; reflexivity).
  split; [exact H0|]. split; [exact H1|]. split; [exact H3|].
  exact (IncludeDev_unfaced_raises Scenario.endpoints 2 0 n d "wired" H0 H1 H2 H3).
Defined.

(** ** The adders of a topology frame *)

Lemma storedNetAlready_run s stored net n :
  liveNets s stored → netHeap s !! net = Some n →
  storedNetAlready stored net (Net.Name n) s
  = (Ok (bool_decide (netNameOf s net ∈ netNameOf s <$> stored)), s).
Proof.
  intros Hl Hd. unfold storedNetAlready.
  assert (netNameOf s net = Net.Name n) as Hnd
    by (unfold netNameOf; by rewrite Hd).
  induction Hl as [|x l [a Ha] Hl IH]; simpl.
  - reflexivity.
  - assert (netNameOf s x = Net.Name a) as Hna
      by (unfold netNameOf; by rewrite Ha).
    unfold bind at 1. unfold bind at 1.
    destruct (decide (x = net)) as [->|Hne].
    + simpl. rewrite bool_decide_eq_true_2; [done|by left].
    + unfold bind at 1, getNet at 1. rewrite Ha. simpl.
      destruct (bool_decide (Net.Name a = Net.Name n)) eqn:E; simpl.
      * apply bool_decide_eq_true in E.
        rewrite bool_decide_eq_true_2; [done|]. rewrite Hna, Hnd, E. by left.
      * apply bool_decide_eq_false in E. rewrite IH. f_equal. f_equal.
        apply bool_decide_ext. rewrite elem_of_cons. rewrite Hna, Hnd.
        split; [tauto|]. intros [H|H]; [congruence|done].
Qed.

Lemma addNetwork_run s self net :
  liveNets s (Topo.Networks self) → is_Some (netHeap s !! net) →
  addNetwork self net s
  = (Ok (set_Networks (addUnique (netNameOf s) (Topo.Networks self) net) self), s).
Proof.
  intros Hl [n Hn]. unfold addNetwork. unfold bind at 1, getNet at 1.
  rewrite Hn. unfold bind. rewrite (storedNetAlready_run _ _ _ _ Hl Hn).
  unfold addUnique. destruct (decide _) as [Hin|Hin].
  - rewrite bool_decide_eq_true_2 by done. unfold ret. by destruct self.
  - by rewrite bool_decide_eq_false_2 by done.
Qed.

Lemma NoDup_addUnique (name : ref → string) acc r :
  NoDup (name <$> acc) → NoDup (name <$> addUnique name acc r).
Proof. intros H. exact (proj1 (foldl_addUnique_spec name [r] acc H)). Qed.

Lemma named_addUnique (name : ref → string) acc r :
  name r ∈ name <$> addUnique name acc r.
Proof.
  unfold addUnique. case_decide; [done|].
  rewrite fmap_app, elem_of_app. right. by left.
Qed.

Lemma addUnique_again (name : ref → string) acc r :
  addUnique name (addUnique name acc r) r = addUnique name acc r.
Proof.
  unfold addUnique at 1. rewrite decide_True; [done|apply named_addUnique].
Qed.

Lemma liveNets_addUnique s acc r :
  liveNets s acc → is_Some (netHeap s !! r) →
  liveNets s (addUnique (netNameOf s) acc r).
Proof.
  intros Ha Hr. unfold addUnique. case_decide; [done|].
  apply Forall_app. split; [done|]. by apply Forall_singleton.
Qed.

(** One call of an adder. *)
Lemma runAdder_spec s tf c :
  frameLive s tf → distinctNames s tf → argLive s c →
  ∃ tf', runAdder tf c s = (Ok tf', s) ∧
         frameLive s tf' ∧ distinctNames s tf' ∧ named s tf' c ∧
         runAdder tf' c s = (Ok tf', s).
Proof.
  intros (L1 & L2 & L3 & L4) (D1 & D2 & D3 & D4) Hc.
  destruct c as [r|r|r|r]; simpl in Hc; simpl.
  - pose proof (addMember_run Topo.Endpts Topo.set_Endpts
                  (λ t, match t with Topo.mk _ _ _ _ _ => eq_refl end)) as Hrun.
    unfold addMember in Hrun. unfold addEndpt.
    rewrite (Hrun s tf r L1 Hc). eexists. split; [done|].
    assert (live s (addUnique (nameOf s) (Topo.Endpts tf) r)) as L1'
      by (by apply live_addUnique).
    split; [by repeat split|]. split; [|split].
    + repeat split; try done. by apply NoDup_addUnique.
    + apply named_addUnique.
    + rewrite (Hrun s (Topo.set_Endpts (addUnique (nameOf s) (Topo.Endpts tf) r) tf)
                 r L1' Hc).
      cbn [Topo.Endpts Topo.set_Endpts]. by rewrite addUnique_again.
  - rewrite (addNetwork_run s tf r L2 Hc). eexists. split; [done|].
    assert (liveNets s (addUnique (netNameOf s) (Topo.Networks tf) r)) as L2'
      by (by apply liveNets_addUnique).
    split; [by repeat split|]. split; [|split].
    + repeat split; try done. by apply NoDup_addUnique.
    + apply named_addUnique.
    + rewrite (addNetwork_run s
                 (set_Networks (addUnique (netNameOf s) (Topo.Networks tf) r) tf)
                 r L2' Hc).
      unfold set_Networks. cbn [Topo.Networks]. by rewrite addUnique_again.
  - pose proof (addMember_run Topo.Routers Topo.set_Routers
                  (λ t, match t with Topo.mk _ _ _ _ _ => eq_refl end)) as Hrun.
    unfold addMember in Hrun. unfold addRouter.
    rewrite (Hrun s tf r L3 Hc). eexists. split; [done|].
    assert (live s (addUnique (nameOf s) (Topo.Routers tf) r)) as L3'
      by (by apply live_addUnique).
    split; [by repeat split|]. split; [|split].
    + repeat split; try done. by apply NoDup_addUnique.
    + apply named_addUnique.
    + rewrite (Hrun s (Topo.set_Routers (addUnique (nameOf s) (Topo.Routers tf) r) tf)
                 r L3' Hc).
      cbn [Topo.Routers Topo.set_Routers]. by rewrite addUnique_again.
  - pose proof (addMember_run Topo.Switches Topo.set_Switches
                  (λ t, match t with Topo.mk _ _ _ _ _ => eq_refl end)) as Hrun.
    unfold addMember in Hrun. unfold addSwitch.
    rewrite (Hrun s tf r L4 Hc). eexists. split; [done|].
    assert (live s (addUnique (nameOf s) (Topo.Switches tf) r)) as L4'
      by (by apply live_addUnique).
    split; [by repeat split|]. split; [|split].
    + repeat split; try done. by apply NoDup_addUnique.
    + apply named_addUnique.
    + rewrite (Hrun s (Topo.set_Switches (addUnique (nameOf s) (Topo.Switches tf) r) tf)
                 r L4' Hc).
      cbn [Topo.Switches Topo.set_Switches]. by rewrite addUnique_again.
Qed.

Lemma named_grows (name : ref → string) acc r x :
  x ∈ name <$> acc → x ∈ name <$> addUnique name acc r.
Proof.
  intros H. unfold addUnique. case_decide; [done|].
  rewrite fmap_app, elem_of_app. by left.
Qed.

(** An adder keeps the frame's name and what its lists hold. *)
Lemma runAdder_mono s tf c tf' :
  frameLive s tf → argLive s c → runAdder tf c s = (Ok tf', s) →
  Topo.Name tf' = Topo.Name tf ∧ ∀ c0, named s tf c0 → named s tf' c0.
Proof.
  intros (L1 & L2 & L3 & L4) Hc H.
  destruct c as [r|r|r|r]; simpl in Hc; simpl in H.
  - pose proof (addMember_run Topo.Endpts Topo.set_Endpts
                  (λ t, match t with Topo.mk _ _ _ _ _ => eq_refl end)) as Hrun.
    unfold addMember in Hrun. unfold addEndpt in H.
    rewrite (Hrun s tf r L1 Hc) in H. injection H as <-. split; [done|].
    intros [r0|r0|r0|r0]; simpl; try done. apply named_grows.
  - rewrite (addNetwork_run s tf r L2 Hc) in H. injection H as <-.
    split; [done|].
    intros [r0|r0|r0|r0]; simpl; try done. apply named_grows.
  - pose proof (addMember_run Topo.Routers Topo.set_Routers
                  (λ t, match t with Topo.mk _ _ _ _ _ => eq_refl end)) as Hrun.
    unfold addMember in Hrun. unfold addRouter in H.
    rewrite (Hrun s tf r L3 Hc) in H. injection H as <-. split; [done|].
    intros [r0|r0|r0|r0]; simpl; try done. apply named_grows.
  - pose proof (addMember_run Topo.Switches Topo.set_Switches
                  (λ t, match t with Topo.mk _ _ _ _ _ => eq_refl end)) as Hrun.
    unfold addMember in Hrun. unfold addSwitch in H.
    rewrite (Hrun s tf r L4 Hc) in H. injection H as <-. split; [done|].
    intros [r0|r0|r0|r0]; simpl; try done. apply named_grows.
Qed.

Lemma runAdders_spec s calls : ∀ tf,
  frameLive s tf → distinctNames s tf → Forall (argLive s) calls →
  ∃ tf', runAdders calls tf s = (Ok tf', s) ∧
         Topo.Name tf' = Topo.Name tf ∧
         frameLive s tf' ∧ distinctNames s tf' ∧
         Forall (named s tf') calls ∧
         (∀ c, named s tf c → named s tf' c).
Proof.
  induction calls as [|c calls IH]; intros tf Hl Hd Hc.
  - exists tf. split; [done|]. split; [done|]. split; [exact Hl|].
    split; [exact Hd|]. split; [apply Forall_nil_2|done].
  - apply Forall_cons in Hc as [Hc Hcs].
    destruct (runAdder_spec s tf c Hl Hd Hc) as (tf1 & Hrun & Hl1 & Hd1 & Hn1 & _).
    destruct (runAdder_mono s tf c tf1 Hl Hc Hrun) as [Hname Hmono].
    destruct (IH tf1 Hl1 Hd1 Hcs) as (tf2 & Hrun2 & Hname2 & Hl2 & Hd2 & Hn2 & Hmono2).
    exists tf2. cbn [runAdders]. unfold bind. rewrite Hrun.
    split; [exact Hrun2|]. split; [congruence|]. split; [done|].
    split; [done|]. split.
    + apply Forall_cons. split; [by apply Hmono2|done].
    + intros c0 H0. by apply Hmono2, Hmono.
Qed.

(** X29, the adders of a topology frame.  Starting from the frame
    CreateTopoCfgFrame returns, any sequence of calls of addEndpt,
    addNetwork, addRouter and addSwitch on objects of the store returns
    normally, changes nothing in the store, and leaves a frame of the same
    name in which the names of the endpoints, of the networks, of the
    routers and of the switches are pairwise distinct and the name of every
    object that was passed to an adder is present in that adder's list. *)
Theorem adders_keep_names_distinct s name calls :
  Forall (argLive s) calls →
  ∃ tf, runAdders calls (CreateTopoCfgFrame name) s = (Ok tf, s) ∧
        Topo.Name tf = name ∧ frameLive s tf ∧ distinctNames s tf ∧
        Forall (named s tf) calls.
Proof.
  intros Hc.
  destruct (runAdders_spec s calls (CreateTopoCfgFrame name))
    as (tf & Hrun & Hname & Hl & Hd & Hn & _); [| |exact Hc|].
  - repeat split; apply Forall_nil_2.
  - repeat split; apply NoDup_nil_2.
  - exists tf. split; [exact Hrun|]. split; [exact Hname|].
    split; [exact Hl|]. split; [exact Hd|exact Hn].
Qed.

Lemma adders_keep_names_distinct_witness :
  let s := Scenario.twoNetworks in
  let calls := [CallAddNetwork 2; CallAddRouter 0; CallAddRouter 1;
                CallAddNetwork 3; CallAddRouter 0] in
  Forall (argLive s) calls ∧
  ∃ tf, runAdders calls (CreateTopoCfgFrame "topo") s = (Ok tf, s) ∧
        distinctNames s tf ∧ Forall (named s tf) calls.
Proof.
  cbv zeta.
  assert (Forall (argLive Scenario.twoNetworks)
            [CallAddNetwork 2; CallAddRouter 0; CallAddRouter 1;
             CallAddNetwork 3; CallAddRouter 0]) as H
    by (repeat (apply Forall_cons; split; [vm_compute; eexists; reflexivity|]);
        apply Forall_nil_2).
  split; [exact H|].
  destruct (adders_keep_names_distinct Scenario.twoNetworks "topo" _ H)
    as (tf & Hrun & _ & _ & Hd & Hn).
  exists tf. split; [exact Hrun|]. split; [exact Hd|exact Hn].
Defined.

(** X30, an adder called again.  On a frame whose members are objects of
    the store and whose names are pairwise distinct in each list, a call of
    addEndpt, addNetwork, addRouter or addSwitch returns a frame on which
    the same call returns that frame again: the second call adds nothing. *)
Theorem adder_idempotent s tf c :
  frameLive s tf → distinctNames s tf → argLive s c →
  ∃ tf', runAdder tf c s = (Ok tf', s) ∧ runAdder tf' c s = (Ok tf', s).
Proof.
  intros Hl Hd Hc.
  destruct (runAdder_spec s tf c Hl Hd Hc) as (tf' & H1 & _ & _ & _ & H2).
  by exists tf'.
Qed.

Lemma adder_idempotent_witness :
  let s := Scenario.twoNetworks in
  let tf := CreateTopoCfgFrame "topo" in
  frameLive s tf ∧ distinctNames s tf ∧ argLive s (CallAddNetwork 2) ∧
  ∃ tf', runAdder tf (CallAddNetwork 2) s = (Ok tf', s) ∧
         runAdder tf' (CallAddNetwork 2) s = (Ok tf', s).
Proof.
  cbv zeta.
  assert (frameLive Scenario.twoNetworks (CreateTopoCfgFrame "topo")) as Hl
    by (repeat split; apply Forall_nil_2).
  assert (distinctNames Scenario.twoNetworks (CreateTopoCfgFrame "topo")) as Hd
    by (repeat split; apply NoDup_nil_2).
  assert (argLive Scenario.twoNetworks (CallAddNetwork 2)) as Hc
    by (vm_compute; eexists; reflexivity).
  split; [exact Hl|]. split; [exact Hd|]. split; [exact Hc|].
  exact (adder_idempotent Scenario.twoNetworks (CreateTopoCfgFrame "topo")
           (CallAddNetwork 2) Hl Hd Hc).
Defined.
